(** * RVPT: frame orchestration of the real-time Vulkan path tracer

    A shallow embedding of [src/rvpt/rvpt.cpp]: the renderer object [RVPT]
    becomes a record, every member function a computation in a small
    trace/state/fault monad, and every call into the Vulkan backend an
    [Event] appended to the trace.  Answers of the backend (the result of
    an acquire or a present, what the swapchain builder returns) are inputs
    of the computation. *)

From Stdlib Require Import ZArith Lia Bool.
From stdpp Require Import base option list strings.

Set Default Proof Using "Type".

(** ** Handles and plain data *)

(** A Vulkan handle.  [0] is [VK_NULL_HANDLE]. *)
Definition Handle := nat.

(** The [VkResult] codes the orchestration code can meet. *)
Inductive VkResult :=
| VK_SUCCESS
| VK_NOT_READY
| VK_TIMEOUT
| VK_SUBOPTIMAL_KHR
| VK_ERROR_OUT_OF_DATE_KHR
| VK_ERROR_DEVICE_LOST
| VK_ERROR_SURFACE_LOST_KHR.

Definition VkResult_eqb (a b : VkResult) : bool :=
  match a, b with
  | VK_SUCCESS, VK_SUCCESS
  | VK_NOT_READY, VK_NOT_READY
  | VK_TIMEOUT, VK_TIMEOUT
  | VK_SUBOPTIMAL_KHR, VK_SUBOPTIMAL_KHR
  | VK_ERROR_OUT_OF_DATE_KHR, VK_ERROR_OUT_OF_DATE_KHR
  | VK_ERROR_DEVICE_LOST, VK_ERROR_DEVICE_LOST
  | VK_ERROR_SURFACE_LOST_KHR, VK_ERROR_SURFACE_LOST_KHR => true
  | _, _ => false
  end.

(** [RVPT::draw_return]. *)
Inductive draw_return := success | swapchain_out_of_date.

(** [VkExtent2D]; the fields are [uint32_t]. *)
Record Extent := { width : Z; height : Z }.

(** [vkb::Swapchain], the fields the renderer reads. *)
Record Swapchain := {
  swapchain : Handle;
  image_count : nat;
  image_format : nat;
  extent : Extent }.

(** [VK::Queue], built from the device and a queue family index. *)
Record Queue := { queue_family : nat }.

(** [Sphere]: a position and a radius.  The scene built by [initialize]
    only has integral coordinates, so they are kept as integers. *)
Record Sphere := { origin : Z * Z * Z; sphere_radius : Z }.

(** What [copy_to] uploads: the bytes are not interpreted by the
    orchestration code, only moved. *)
Inductive Payload :=
| NoData
| Words (ws : list Z)
| SphereList (ss : list Sphere).

(** [VK::Image]. *)
Record Image := {
  image_handle : Handle;
  image_fmt : nat;
  image_width : Z;
  image_height : Z }.

(** [VK::Buffer]: the buffer object, its size in bytes and what the host
    wrote into it last. *)
Record Buffer := {
  buffer_handle : Handle;
  buffer_size : Z;
  buffer_contents : Payload }.

(** [VK::CommandBuffer]: allocated from the pool of one queue. *)
Record CommandBuffer := { cb_handle : Handle; cb_queue : Queue }.

(** [VK::Framebuffer]. *)
Record Framebuffer := {
  framebuffer : Handle;
  fb_render_pass : Handle;
  fb_extent : Extent;
  fb_image_views : list Handle }.

(** [VK::SyncResources]: what one frame in flight needs to submit the
    graphics pass and present. *)
Record SyncResources := {
  sr_graphics_queue : Queue;
  sr_present_queue : Queue;
  sr_swapchain : Handle;
  image_avail_sem : Handle;
  render_finish_sem : Handle;
  command_fence : Handle;
  command_buffer : CommandBuffer }.

(** [RVPT::PerFrameData], in the order of the aggregate at the end of
    [add_per_frame_data]. *)
Record PerFrameData := {
  output_image : Image;
  camera_uniform : Buffer;
  random_uniform : Buffer;
  settings_uniform : Buffer;
  sphere_buffer : Buffer;
  raytrace_command_buffer : CommandBuffer;
  raytrace_work_fence : Handle;
  image_descriptor_set : Handle;
  raytracing_descriptor_sets : Handle }.

(** [RVPT::RenderingResources]. *)
Record RenderingResources := {
  image_pool : Handle;
  raytrace_descriptor_pool : Handle;
  fullscreen_triangle_pipeline : Handle;
  raytrace_pipeline : Handle }.

(** ** Backend calls *)

Inductive BindPoint := GRAPHICS | COMPUTE.

Inductive DescriptorType :=
| COMBINED_IMAGE_SAMPLER
| STORAGE_IMAGE
| UNIFORM_BUFFER
| STORAGE_BUFFER.

(** One [VkWriteDescriptorSet]: the set, the binding, the type and the
    object bound (an image or a buffer handle). *)
Record DescriptorWrite := {
  dst_set : Handle;
  dst_binding : nat;
  descriptor_type : DescriptorType;
  bound_object : Handle }.

(** A command recorded into a command buffer. *)
Inductive Cmd :=
| CmdBegin
| CmdEnd
| CmdReset
| CmdBindPipeline (bp : BindPoint) (pipeline : Handle)
| CmdBindDescriptorSets (bp : BindPoint) (pipeline : Handle) (set : Handle)
| CmdDispatch (x y z : Z)
| CmdPipelineBarrier (image : Handle)
| CmdBeginRenderPass (render_pass fb : Handle) (area : Extent)
| CmdSetViewport (e : Extent)
| CmdSetScissor (e : Extent)
| CmdDraw (vertices instances first_vertex first_instance : nat)
| CmdImguiDraw (frame_index : nat)
| CmdEndRenderPass.

(** The calls that leave the renderer, in program order. *)
Inductive Event :=
| EvFenceWait (fence : Handle)            (* VK::Fence::wait *)
| EvFenceReset (fence : Handle)           (* VK::Fence::reset *)
| EvWaitForFences (fence : Handle)        (* vkWaitForFences, one fence *)
| EvCopyTo (buffer : Handle) (data : Payload)
| EvCmd (cb : Handle) (c : Cmd)
| EvQueueSubmit (q : Queue) (cb fence : Handle)
| EvAcquireNextImage (sc sem : Handle)
| EvSyncSubmit (s : SyncResources)        (* VK::SyncResources::submit *)
| EvSyncPresent (s : SyncResources) (image_index : nat)
| EvUpdateDescriptorSets (writes : list DescriptorWrite)
| EvDestroyFramebuffers (fbs : list Framebuffer)
| EvDestroyImageViews (views : list Handle)
| EvBuildSwapchain (window : Extent) (old : option Swapchain)
| EvDestroySwapchain (sc : Swapchain).

(** ** The renderer object

    The data members of [class RVPT] that the orchestration code reads or
    writes, under their own names.  Two fields stand for the device:
    [descriptor_table], the descriptor writes the device has received
    (newest first), and [next_handle], the next object handle the device
    gives out. *)
Record RVPT := {
  compute_queue : option Queue;
  graphics_queue : option Queue;
  present_queue : option Queue;
  vkb_swapchain : Swapchain;
  swapchain_images : list Handle;
  swapchain_image_views : list Handle;
  framebuffers : list Framebuffer;
  fullscreen_tri_render_pass : Handle;
  sync_resources : list SyncResources;
  frames_inflight_fences : list Handle;
  rendering_resources : option RenderingResources;
  per_frame_data : list PerFrameData;
  current_frame_index : nat;
  framebuffer_resized : bool;
  scene_camera : Payload;
  random_numbers : list Z;
  render_settings : Payload;
  spheres : list Sphere;
  descriptor_table : list DescriptorWrite;
  next_handle : Handle }.

Definition set_compute_queue (v : option Queue) (r : RVPT) : RVPT :=
  {| compute_queue := v;
     graphics_queue := graphics_queue r;
     present_queue := present_queue r;
     vkb_swapchain := vkb_swapchain r;
     swapchain_images := swapchain_images r;
     swapchain_image_views := swapchain_image_views r;
     framebuffers := framebuffers r;
     fullscreen_tri_render_pass := fullscreen_tri_render_pass r;
     sync_resources := sync_resources r;
     frames_inflight_fences := frames_inflight_fences r;
     rendering_resources := rendering_resources r;
     per_frame_data := per_frame_data r;
     current_frame_index := current_frame_index r;
     framebuffer_resized := framebuffer_resized r;
     scene_camera := scene_camera r;
     random_numbers := random_numbers r;
     render_settings := render_settings r;
     spheres := spheres r;
     descriptor_table := descriptor_table r;
     next_handle := next_handle r |}.

Definition set_graphics_queue (v : option Queue) (r : RVPT) : RVPT :=
  {| compute_queue := compute_queue r;
     graphics_queue := v;
     present_queue := present_queue r;
     vkb_swapchain := vkb_swapchain r;
     swapchain_images := swapchain_images r;
     swapchain_image_views := swapchain_image_views r;
     framebuffers := framebuffers r;
     fullscreen_tri_render_pass := fullscreen_tri_render_pass r;
     sync_resources := sync_resources r;
     frames_inflight_fences := frames_inflight_fences r;
     rendering_resources := rendering_resources r;
     per_frame_data := per_frame_data r;
     current_frame_index := current_frame_index r;
     framebuffer_resized := framebuffer_resized r;
     scene_camera := scene_camera r;
     random_numbers := random_numbers r;
     render_settings := render_settings r;
     spheres := spheres r;
     descriptor_table := descriptor_table r;
     next_handle := next_handle r |}.

Definition set_present_queue (v : option Queue) (r : RVPT) : RVPT :=
  {| compute_queue := compute_queue r;
     graphics_queue := graphics_queue r;
     present_queue := v;
     vkb_swapchain := vkb_swapchain r;
     swapchain_images := swapchain_images r;
     swapchain_image_views := swapchain_image_views r;
     framebuffers := framebuffers r;
     fullscreen_tri_render_pass := fullscreen_tri_render_pass r;
     sync_resources := sync_resources r;
     frames_inflight_fences := frames_inflight_fences r;
     rendering_resources := rendering_resources r;
     per_frame_data := per_frame_data r;
     current_frame_index := current_frame_index r;
     framebuffer_resized := framebuffer_resized r;
     scene_camera := scene_camera r;
     random_numbers := random_numbers r;
     render_settings := render_settings r;
     spheres := spheres r;
     descriptor_table := descriptor_table r;
     next_handle := next_handle r |}.

Definition set_vkb_swapchain (v : Swapchain) (r : RVPT) : RVPT :=
  {| compute_queue := compute_queue r;
     graphics_queue := graphics_queue r;
     present_queue := present_queue r;
     vkb_swapchain := v;
     swapchain_images := swapchain_images r;
     swapchain_image_views := swapchain_image_views r;
     framebuffers := framebuffers r;
     fullscreen_tri_render_pass := fullscreen_tri_render_pass r;
     sync_resources := sync_resources r;
     frames_inflight_fences := frames_inflight_fences r;
     rendering_resources := rendering_resources r;
     per_frame_data := per_frame_data r;
     current_frame_index := current_frame_index r;
     framebuffer_resized := framebuffer_resized r;
     scene_camera := scene_camera r;
     random_numbers := random_numbers r;
     render_settings := render_settings r;
     spheres := spheres r;
     descriptor_table := descriptor_table r;
     next_handle := next_handle r |}.

Definition set_swapchain_images (v : list Handle) (r : RVPT) : RVPT :=
  {| compute_queue := compute_queue r;
     graphics_queue := graphics_queue r;
     present_queue := present_queue r;
     vkb_swapchain := vkb_swapchain r;
     swapchain_images := v;
     swapchain_image_views := swapchain_image_views r;
     framebuffers := framebuffers r;
     fullscreen_tri_render_pass := fullscreen_tri_render_pass r;
     sync_resources := sync_resources r;
     frames_inflight_fences := frames_inflight_fences r;
     rendering_resources := rendering_resources r;
     per_frame_data := per_frame_data r;
     current_frame_index := current_frame_index r;
     framebuffer_resized := framebuffer_resized r;
     scene_camera := scene_camera r;
     random_numbers := random_numbers r;
     render_settings := render_settings r;
     spheres := spheres r;
     descriptor_table := descriptor_table r;
     next_handle := next_handle r |}.

Definition set_swapchain_image_views (v : list Handle) (r : RVPT) : RVPT :=
  {| compute_queue := compute_queue r;
     graphics_queue := graphics_queue r;
     present_queue := present_queue r;
     vkb_swapchain := vkb_swapchain r;
     swapchain_images := swapchain_images r;
     swapchain_image_views := v;
     framebuffers := framebuffers r;
     fullscreen_tri_render_pass := fullscreen_tri_render_pass r;
     sync_resources := sync_resources r;
     frames_inflight_fences := frames_inflight_fences r;
     rendering_resources := rendering_resources r;
     per_frame_data := per_frame_data r;
     current_frame_index := current_frame_index r;
     framebuffer_resized := framebuffer_resized r;
     scene_camera := scene_camera r;
     random_numbers := random_numbers r;
     render_settings := render_settings r;
     spheres := spheres r;
     descriptor_table := descriptor_table r;
     next_handle := next_handle r |}.

Definition set_framebuffers (v : list Framebuffer) (r : RVPT) : RVPT :=
  {| compute_queue := compute_queue r;
     graphics_queue := graphics_queue r;
     present_queue := present_queue r;
     vkb_swapchain := vkb_swapchain r;
     swapchain_images := swapchain_images r;
     swapchain_image_views := swapchain_image_views r;
     framebuffers := v;
     fullscreen_tri_render_pass := fullscreen_tri_render_pass r;
     sync_resources := sync_resources r;
     frames_inflight_fences := frames_inflight_fences r;
     rendering_resources := rendering_resources r;
     per_frame_data := per_frame_data r;
     current_frame_index := current_frame_index r;
     framebuffer_resized := framebuffer_resized r;
     scene_camera := scene_camera r;
     random_numbers := random_numbers r;
     render_settings := render_settings r;
     spheres := spheres r;
     descriptor_table := descriptor_table r;
     next_handle := next_handle r |}.

Definition set_fullscreen_tri_render_pass (v : Handle) (r : RVPT) : RVPT :=
  {| compute_queue := compute_queue r;
     graphics_queue := graphics_queue r;
     present_queue := present_queue r;
     vkb_swapchain := vkb_swapchain r;
     swapchain_images := swapchain_images r;
     swapchain_image_views := swapchain_image_views r;
     framebuffers := framebuffers r;
     fullscreen_tri_render_pass := v;
     sync_resources := sync_resources r;
     frames_inflight_fences := frames_inflight_fences r;
     rendering_resources := rendering_resources r;
     per_frame_data := per_frame_data r;
     current_frame_index := current_frame_index r;
     framebuffer_resized := framebuffer_resized r;
     scene_camera := scene_camera r;
     random_numbers := random_numbers r;
     render_settings := render_settings r;
     spheres := spheres r;
     descriptor_table := descriptor_table r;
     next_handle := next_handle r |}.

Definition set_sync_resources (v : list SyncResources) (r : RVPT) : RVPT :=
  {| compute_queue := compute_queue r;
     graphics_queue := graphics_queue r;
     present_queue := present_queue r;
     vkb_swapchain := vkb_swapchain r;
     swapchain_images := swapchain_images r;
     swapchain_image_views := swapchain_image_views r;
     framebuffers := framebuffers r;
     fullscreen_tri_render_pass := fullscreen_tri_render_pass r;
     sync_resources := v;
     frames_inflight_fences := frames_inflight_fences r;
     rendering_resources := rendering_resources r;
     per_frame_data := per_frame_data r;
     current_frame_index := current_frame_index r;
     framebuffer_resized := framebuffer_resized r;
     scene_camera := scene_camera r;
     random_numbers := random_numbers r;
     render_settings := render_settings r;
     spheres := spheres r;
     descriptor_table := descriptor_table r;
     next_handle := next_handle r |}.

Definition set_frames_inflight_fences (v : list Handle) (r : RVPT) : RVPT :=
  {| compute_queue := compute_queue r;
     graphics_queue := graphics_queue r;
     present_queue := present_queue r;
     vkb_swapchain := vkb_swapchain r;
     swapchain_images := swapchain_images r;
     swapchain_image_views := swapchain_image_views r;
     framebuffers := framebuffers r;
     fullscreen_tri_render_pass := fullscreen_tri_render_pass r;
     sync_resources := sync_resources r;
     frames_inflight_fences := v;
     rendering_resources := rendering_resources r;
     per_frame_data := per_frame_data r;
     current_frame_index := current_frame_index r;
     framebuffer_resized := framebuffer_resized r;
     scene_camera := scene_camera r;
     random_numbers := random_numbers r;
     render_settings := render_settings r;
     spheres := spheres r;
     descriptor_table := descriptor_table r;
     next_handle := next_handle r |}.

Definition set_rendering_resources (v : option RenderingResources) (r : RVPT) : RVPT :=
  {| compute_queue := compute_queue r;
     graphics_queue := graphics_queue r;
     present_queue := present_queue r;
     vkb_swapchain := vkb_swapchain r;
     swapchain_images := swapchain_images r;
     swapchain_image_views := swapchain_image_views r;
     framebuffers := framebuffers r;
     fullscreen_tri_render_pass := fullscreen_tri_render_pass r;
     sync_resources := sync_resources r;
     frames_inflight_fences := frames_inflight_fences r;
     rendering_resources := v;
     per_frame_data := per_frame_data r;
     current_frame_index := current_frame_index r;
     framebuffer_resized := framebuffer_resized r;
     scene_camera := scene_camera r;
     random_numbers := random_numbers r;
     render_settings := render_settings r;
     spheres := spheres r;
     descriptor_table := descriptor_table r;
     next_handle := next_handle r |}.

Definition set_per_frame_data (v : list PerFrameData) (r : RVPT) : RVPT :=
  {| compute_queue := compute_queue r;
     graphics_queue := graphics_queue r;
     present_queue := present_queue r;
     vkb_swapchain := vkb_swapchain r;
     swapchain_images := swapchain_images r;
     swapchain_image_views := swapchain_image_views r;
     framebuffers := framebuffers r;
     fullscreen_tri_render_pass := fullscreen_tri_render_pass r;
     sync_resources := sync_resources r;
     frames_inflight_fences := frames_inflight_fences r;
     rendering_resources := rendering_resources r;
     per_frame_data := v;
     current_frame_index := current_frame_index r;
     framebuffer_resized := framebuffer_resized r;
     scene_camera := scene_camera r;
     random_numbers := random_numbers r;
     render_settings := render_settings r;
     spheres := spheres r;
     descriptor_table := descriptor_table r;
     next_handle := next_handle r |}.

Definition set_current_frame_index (v : nat) (r : RVPT) : RVPT :=
  {| compute_queue := compute_queue r;
     graphics_queue := graphics_queue r;
     present_queue := present_queue r;
     vkb_swapchain := vkb_swapchain r;
     swapchain_images := swapchain_images r;
     swapchain_image_views := swapchain_image_views r;
     framebuffers := framebuffers r;
     fullscreen_tri_render_pass := fullscreen_tri_render_pass r;
     sync_resources := sync_resources r;
     frames_inflight_fences := frames_inflight_fences r;
     rendering_resources := rendering_resources r;
     per_frame_data := per_frame_data r;
     current_frame_index := v;
     framebuffer_resized := framebuffer_resized r;
     scene_camera := scene_camera r;
     random_numbers := random_numbers r;
     render_settings := render_settings r;
     spheres := spheres r;
     descriptor_table := descriptor_table r;
     next_handle := next_handle r |}.

Definition set_framebuffer_resized (v : bool) (r : RVPT) : RVPT :=
  {| compute_queue := compute_queue r;
     graphics_queue := graphics_queue r;
     present_queue := present_queue r;
     vkb_swapchain := vkb_swapchain r;
     swapchain_images := swapchain_images r;
     swapchain_image_views := swapchain_image_views r;
     framebuffers := framebuffers r;
     fullscreen_tri_render_pass := fullscreen_tri_render_pass r;
     sync_resources := sync_resources r;
     frames_inflight_fences := frames_inflight_fences r;
     rendering_resources := rendering_resources r;
     per_frame_data := per_frame_data r;
     current_frame_index := current_frame_index r;
     framebuffer_resized := v;
     scene_camera := scene_camera r;
     random_numbers := random_numbers r;
     render_settings := render_settings r;
     spheres := spheres r;
     descriptor_table := descriptor_table r;
     next_handle := next_handle r |}.

Definition set_random_numbers (v : list Z) (r : RVPT) : RVPT :=
  {| compute_queue := compute_queue r;
     graphics_queue := graphics_queue r;
     present_queue := present_queue r;
     vkb_swapchain := vkb_swapchain r;
     swapchain_images := swapchain_images r;
     swapchain_image_views := swapchain_image_views r;
     framebuffers := framebuffers r;
     fullscreen_tri_render_pass := fullscreen_tri_render_pass r;
     sync_resources := sync_resources r;
     frames_inflight_fences := frames_inflight_fences r;
     rendering_resources := rendering_resources r;
     per_frame_data := per_frame_data r;
     current_frame_index := current_frame_index r;
     framebuffer_resized := framebuffer_resized r;
     scene_camera := scene_camera r;
     random_numbers := v;
     render_settings := render_settings r;
     spheres := spheres r;
     descriptor_table := descriptor_table r;
     next_handle := next_handle r |}.

Definition set_spheres (v : list Sphere) (r : RVPT) : RVPT :=
  {| compute_queue := compute_queue r;
     graphics_queue := graphics_queue r;
     present_queue := present_queue r;
     vkb_swapchain := vkb_swapchain r;
     swapchain_images := swapchain_images r;
     swapchain_image_views := swapchain_image_views r;
     framebuffers := framebuffers r;
     fullscreen_tri_render_pass := fullscreen_tri_render_pass r;
     sync_resources := sync_resources r;
     frames_inflight_fences := frames_inflight_fences r;
     rendering_resources := rendering_resources r;
     per_frame_data := per_frame_data r;
     current_frame_index := current_frame_index r;
     framebuffer_resized := framebuffer_resized r;
     scene_camera := scene_camera r;
     random_numbers := random_numbers r;
     render_settings := render_settings r;
     spheres := v;
     descriptor_table := descriptor_table r;
     next_handle := next_handle r |}.

Definition set_descriptor_table (v : list DescriptorWrite) (r : RVPT) : RVPT :=
  {| compute_queue := compute_queue r;
     graphics_queue := graphics_queue r;
     present_queue := present_queue r;
     vkb_swapchain := vkb_swapchain r;
     swapchain_images := swapchain_images r;
     swapchain_image_views := swapchain_image_views r;
     framebuffers := framebuffers r;
     fullscreen_tri_render_pass := fullscreen_tri_render_pass r;
     sync_resources := sync_resources r;
     frames_inflight_fences := frames_inflight_fences r;
     rendering_resources := rendering_resources r;
     per_frame_data := per_frame_data r;
     current_frame_index := current_frame_index r;
     framebuffer_resized := framebuffer_resized r;
     scene_camera := scene_camera r;
     random_numbers := random_numbers r;
     render_settings := render_settings r;
     spheres := spheres r;
     descriptor_table := v;
     next_handle := next_handle r |}.

Definition set_next_handle (v : Handle) (r : RVPT) : RVPT :=
  {| compute_queue := compute_queue r;
     graphics_queue := graphics_queue r;
     present_queue := present_queue r;
     vkb_swapchain := vkb_swapchain r;
     swapchain_images := swapchain_images r;
     swapchain_image_views := swapchain_image_views r;
     framebuffers := framebuffers r;
     fullscreen_tri_render_pass := fullscreen_tri_render_pass r;
     sync_resources := sync_resources r;
     frames_inflight_fences := frames_inflight_fences r;
     rendering_resources := rendering_resources r;
     per_frame_data := per_frame_data r;
     current_frame_index := current_frame_index r;
     framebuffer_resized := framebuffer_resized r;
     scene_camera := scene_camera r;
     random_numbers := random_numbers r;
     render_settings := render_settings r;
     spheres := spheres r;
     descriptor_table := descriptor_table r;
     next_handle := v |}.

(** ** Computations

    A member function runs from a renderer state, appends the backend
    calls it makes to a trace, and either finishes with a value and the
    next state or stops at a fault. *)

Inductive Fault :=
| Undefined      (* operator[] past the end of a vector, or * and -> on an empty optional *)
| Thrown         (* vector::at out of range, optional::value on an empty optional *)
| Aborted.       (* assert(false), in a build that keeps assertions *)

Inductive Res (A : Type) :=
| Done (a : A) (st : RVPT)
| Failed (f : Fault).
Arguments Done {A} a st.
Arguments Failed {A} f.

Definition M (A : Type) : Type := RVPT → list Event * Res A.

#[global] Instance M_ret : MRet M := λ A a st, ([], Done a st).

#[global] Instance M_bind : MBind M := λ A B k m st,
  match m st with
  | (t1, Done a st1) =>
      match k a st1 with
      | (t2, r) => (t1 ++ t2, r)
      end
  | (t1, Failed f) => (t1, Failed f)
  end.

Definition emit (e : Event) : M unit := λ st, ([e], Done tt st).
Definition fault {A} (f : Fault) : M A := λ st, ([], Failed f).
Definition gets {A} (p : RVPT → A) : M A := λ st, ([], Done (p st) st).
Definition modify (f : RVPT → RVPT) : M unit := λ st, ([], Done tt (f st)).

(** The trace and the result of a run. *)
Definition trace_of {A} (m : M A) (st : RVPT) : list Event := (m st).1.
Definition result_of {A} (m : M A) (st : RVPT) : Res A := (m st).2.

(** [v[i]] on a [std::vector]: undefined past the end. *)
Definition index {A} (v : list A) (i : nat) : M A :=
  match v !! i with
  | Some x => mret x
  | None => fault Undefined
  end.

(** [v.at(i)]: throws [std::out_of_range] past the end. *)
Definition at_ {A} (v : list A) (i : nat) : M A :=
  match v !! i with
  | Some x => mret x
  | None => fault Thrown
  end.

(** [*o] and [o->] on a [std::optional]: undefined when empty. *)
Definition deref {A} (o : option A) : M A :=
  match o with
  | Some x => mret x
  | None => fault Undefined
  end.

(** [o.value()]: throws [std::bad_optional_access] when empty. *)
Definition value {A} (o : option A) : M A :=
  match o with
  | Some x => mret x
  | None => fault Thrown
  end.

(** The device hands out the next object handle. *)
Definition fresh : M Handle :=
  h ← gets next_handle;
  modify (set_next_handle (S h));;
  mret h.

(** [for (i = 0; i < n; i++) body(i)]. *)
Fixpoint for_loop (i : nat) (n : nat) (body : nat → M unit) : M unit :=
  match n with
  | O => mret tt
  | S n' => body i;; for_loop (S i) n' body
  end.

(** ** What the backend answers *)

(** The swapchain builder of vk-bootstrap and the two queries on the
    swapchain it built.  The builder sees the surface, that is the
    window's current framebuffer extent, and the swapchain it replaces. *)
Record Backend := {
  build : Extent → option Swapchain → option Swapchain;
  get_images : Swapchain → option (list Handle);
  get_image_views : Swapchain → option (list Handle) }.

(** What the backend answers during one call of [draw]. *)
Record Tick := {
  window_extent : Extent;
  acquire_result : VkResult;
  acquire_image_index : nat;
  present_result : VkResult }.

(** ** Swapchain management *)

(** [RVPT::swapchain_get_images], lines 349 to 366. *)
Definition swapchain_get_images (B : Backend) : M bool :=
  sc ← gets vkb_swapchain;
  match get_images B sc with
  | None => mret false
  | Some imgs =>
      modify (set_swapchain_images imgs);;
      match get_image_views B sc with
      | None => mret false
      | Some views =>
          modify (set_swapchain_image_views views);;
          mret true
      end
  end.

(** [RVPT::create_framebuffers], lines 368 to 377.  Clearing the vector
    destroys the framebuffers it held. *)
Definition create_framebuffers : M unit :=
  old ← gets framebuffers;
  (if old is [] then mret tt else emit (EvDestroyFramebuffers old));;
  modify (set_framebuffers []);;
  sc ← gets vkb_swapchain;
  for_loop 0 (image_count sc) (λ i,
    views ← gets swapchain_image_views;
    view ← index views i;
    rp ← gets fullscreen_tri_render_pass;
    sc ← gets vkb_swapchain;
    h ← fresh;
    fbs ← gets framebuffers;
    modify (set_framebuffers
      (fbs ++ [ {| framebuffer := h; fb_render_pass := rp;
                   fb_extent := extent sc; fb_image_views := [view] |} ]))).

(** [RVPT::swapchain_init], lines 317 to 328. *)
Definition swapchain_init (B : Backend) (window : Extent) : M bool :=
  emit (EvBuildSwapchain window None);;
  match build B window None with
  | None => mret false
  | Some sc =>
      modify (set_vkb_swapchain sc);;
      swapchain_get_images B
  end.

(** [RVPT::swapchain_reinit], lines 330 to 347: the rebuild.
    [destroy_image_views] destroys the views and leaves the vector as it
    is. *)
Definition swapchain_reinit (B : Backend) (window : Extent) : M bool :=
  old ← gets framebuffers;
  (if old is [] then mret tt else emit (EvDestroyFramebuffers old));;
  modify (set_framebuffers []);;
  views ← gets swapchain_image_views;
  emit (EvDestroyImageViews views);;
  old_sc ← gets vkb_swapchain;
  emit (EvBuildSwapchain window (Some old_sc));;
  match build B window (Some old_sc) with
  | None => mret false
  | Some sc =>
      emit (EvDestroySwapchain old_sc);;
      modify (set_vkb_swapchain sc);;
      out_bool ← swapchain_get_images B;
      create_framebuffers;;
      mret out_bool
  end.

(** ** Recording *)

(** [per_frame_data[current_frame_index]], read afresh at every use as
    the source does. *)
Definition current_per_frame_data : M PerFrameData :=
  pfd ← gets per_frame_data;
  i ← gets current_frame_index;
  index pfd i.

(** [buffer.copy_to(data)] on one buffer of the current slot: the call
    and the new contents. *)
Definition copy_to (get : PerFrameData → Buffer)
    (put : Buffer → PerFrameData → PerFrameData) (data : Payload) : M unit :=
  d ← current_per_frame_data;
  emit (EvCopyTo (buffer_handle (get d)) data);;
  i ← gets current_frame_index;
  modify (λ st, set_per_frame_data
    (<[i := put {| buffer_handle := buffer_handle (get d);
                   buffer_size := buffer_size (get d);
                   buffer_contents := data |} d]> (per_frame_data st)) st).

Definition put_camera_uniform (b : Buffer) (d : PerFrameData) : PerFrameData :=
  {| output_image := output_image d; camera_uniform := b;
     random_uniform := random_uniform d; settings_uniform := settings_uniform d;
     sphere_buffer := sphere_buffer d;
     raytrace_command_buffer := raytrace_command_buffer d;
     raytrace_work_fence := raytrace_work_fence d;
     image_descriptor_set := image_descriptor_set d;
     raytracing_descriptor_sets := raytracing_descriptor_sets d |}.

Definition put_random_uniform (b : Buffer) (d : PerFrameData) : PerFrameData :=
  {| output_image := output_image d; camera_uniform := camera_uniform d;
     random_uniform := b; settings_uniform := settings_uniform d;
     sphere_buffer := sphere_buffer d;
     raytrace_command_buffer := raytrace_command_buffer d;
     raytrace_work_fence := raytrace_work_fence d;
     image_descriptor_set := image_descriptor_set d;
     raytracing_descriptor_sets := raytracing_descriptor_sets d |}.

Definition put_settings_uniform (b : Buffer) (d : PerFrameData) : PerFrameData :=
  {| output_image := output_image d; camera_uniform := camera_uniform d;
     random_uniform := random_uniform d; settings_uniform := b;
     sphere_buffer := sphere_buffer d;
     raytrace_command_buffer := raytrace_command_buffer d;
     raytrace_work_fence := raytrace_work_fence d;
     image_descriptor_set := image_descriptor_set d;
     raytracing_descriptor_sets := raytracing_descriptor_sets d |}.

Definition put_sphere_buffer (b : Buffer) (d : PerFrameData) : PerFrameData :=
  {| output_image := output_image d; camera_uniform := camera_uniform d;
     random_uniform := random_uniform d; settings_uniform := settings_uniform d;
     sphere_buffer := b;
     raytrace_command_buffer := raytrace_command_buffer d;
     raytrace_work_fence := raytrace_work_fence d;
     image_descriptor_set := image_descriptor_set d;
     raytracing_descriptor_sets := raytracing_descriptor_sets d |}.

(** The work-group counts [vkCmdDispatch] is given: unsigned division,
    which truncates. *)
Definition dispatch_groups (img : Image) : Z * Z :=
  ((image_width img / 16)%Z, (image_height img / 16)%Z).

(** [RVPT::record_compute_command_buffer], lines 540 to 556. *)
Definition record_compute_command_buffer : M unit :=
  d ← current_per_frame_data;
  let cb := cb_handle (raytrace_command_buffer d) in
  emit (EvCmd cb CmdBegin);;
  rr ← gets rendering_resources;
  res ← deref rr;
  emit (EvCmd cb (CmdBindPipeline COMPUTE (raytrace_pipeline res)));;
  d1 ← current_per_frame_data;
  emit (EvCmd cb (CmdBindDescriptorSets COMPUTE (raytrace_pipeline res)
                    (raytracing_descriptor_sets d1)));;
  d2 ← current_per_frame_data;
  emit (EvCmd cb (CmdDispatch (dispatch_groups (output_image d2)).1
                              (dispatch_groups (output_image d2)).2 1));;
  emit (EvCmd cb CmdEnd).

(** [RVPT::record_command_buffer], lines 479 to 538: the graphics pass. *)
Definition record_command_buffer (current_frame : SyncResources)
    (swapchain_image_index : nat) : M unit :=
  let cmd_buf := cb_handle (command_buffer current_frame) in
  emit (EvCmd cmd_buf CmdBegin);;
  d ← current_per_frame_data;
  emit (EvCmd cmd_buf (CmdPipelineBarrier (image_handle (output_image d))));;
  rp ← gets fullscreen_tri_render_pass;
  fbs ← gets framebuffers;
  fb ← at_ fbs swapchain_image_index;
  sc ← gets vkb_swapchain;
  emit (EvCmd cmd_buf (CmdBeginRenderPass rp (framebuffer fb) (extent sc)));;
  emit (EvCmd cmd_buf (CmdSetViewport (extent sc)));;
  emit (EvCmd cmd_buf (CmdSetScissor (extent sc)));;
  rr ← gets rendering_resources;
  res ← deref rr;
  emit (EvCmd cmd_buf (CmdBindPipeline GRAPHICS (fullscreen_triangle_pipeline res)));;
  d1 ← current_per_frame_data;
  emit (EvCmd cmd_buf (CmdBindDescriptorSets GRAPHICS
                         (fullscreen_triangle_pipeline res)
                         (image_descriptor_set d1)));;
  emit (EvCmd cmd_buf (CmdDraw 3 1 0 0));;
  i ← gets current_frame_index;
  emit (EvCmd cmd_buf (CmdImguiDraw i));;
  emit (EvCmd cmd_buf CmdEndRenderPass);;
  emit (EvCmd cmd_buf CmdEnd).

(** ** One tick *)

Definition VK_NULL_HANDLE : Handle := 0.

(** [compute_queue.has_value() ? *compute_queue : *graphics_queue]. *)
Definition compute_or_graphics_queue : M Queue :=
  cq ← gets compute_queue;
  match cq with
  | Some q => mret q
  | None => gq ← gets graphics_queue; deref gq
  end.

(** [RVPT::draw], lines 109 to 174, statement by statement; the frame
    timer is left out.  The image index the acquire writes is
    [acquire_image_index t]. *)
Definition draw (B : Backend) (t : Tick) : M draw_return :=
  d ← current_per_frame_data;
  emit (EvFenceWait (raytrace_work_fence d));;
  d ← current_per_frame_data;
  emit (EvFenceReset (raytrace_work_fence d));;
  cam ← gets scene_camera;
  copy_to camera_uniform put_camera_uniform cam;;
  rnd ← gets random_numbers;
  copy_to random_uniform put_random_uniform (Words rnd);;
  rs ← gets render_settings;
  copy_to settings_uniform put_settings_uniform rs;;
  sph ← gets spheres;
  copy_to sphere_buffer put_sphere_buffer (SphereList sph);;
  record_compute_command_buffer;;
  compute_submit ← compute_or_graphics_queue;
  d ← current_per_frame_data;
  d' ← current_per_frame_data;
  emit (EvQueueSubmit compute_submit (cb_handle (raytrace_command_buffer d))
                      (raytrace_work_fence d'));;
  srs ← gets sync_resources;
  i ← gets current_frame_index;
  current_frame ← index srs i;
  emit (EvFenceWait (command_fence current_frame));;
  emit (EvCmd (cb_handle (command_buffer current_frame)) CmdReset);;
  sc ← gets vkb_swapchain;
  emit (EvAcquireNextImage (swapchain sc) (image_avail_sem current_frame));;
  let swapchain_image_index := acquire_image_index t in
  if VkResult_eqb (acquire_result t) VK_ERROR_OUT_OF_DATE_KHR then
    swapchain_reinit B (window_extent t);;
    mret swapchain_out_of_date
  else
    (if negb (VkResult_eqb (acquire_result t) VK_SUCCESS)
        && negb (VkResult_eqb (acquire_result t) VK_SUBOPTIMAL_KHR)
     then fault Aborted else mret tt);;
    record_command_buffer current_frame swapchain_image_index;;
    fences ← gets frames_inflight_fences;
    f ← index fences swapchain_image_index;
    (if Nat.eqb f VK_NULL_HANDLE then mret tt else emit (EvWaitForFences f));;
    fences ← gets frames_inflight_fences;
    (if decide (swapchain_image_index < length fences)
     then modify (λ st, set_frames_inflight_fences
            (<[swapchain_image_index := command_fence current_frame]>
               (frames_inflight_fences st)) st)
     else fault Undefined);;
    emit (EvFenceReset (command_fence current_frame));;
    emit (EvSyncSubmit current_frame);;
    emit (EvSyncPresent current_frame swapchain_image_index);;
    resized ← gets framebuffer_resized;
    (if VkResult_eqb (present_result t) VK_ERROR_OUT_OF_DATE_KHR
        || VkResult_eqb (present_result t) VK_SUBOPTIMAL_KHR
        || resized
     then modify (set_framebuffer_resized false);;
          swapchain_reinit B (window_extent t);;
          mret tt
     else if negb (VkResult_eqb (present_result t) VK_SUCCESS)
          then fault Aborted else mret tt);;
    n ← gets (λ st, length (sync_resources st));
    i ← gets current_frame_index;
    (if Nat.eqb n 0 then fault Undefined
     else modify (set_current_frame_index ((i + 1) `mod` n)));;
    mret success.

(** ** Initialization *)

(** What device selection finds: whether each stage of
    [context_init] succeeds and which queue families exist.
    [dedicated_compute_index] is the answer of
    [get_dedicated_queue_index(compute)]. *)
Record Device := {
  instance_ok : bool;
  surface_ok : bool;
  physical_device_ok : bool;
  device_ok : bool;
  graphics_index : option nat;
  present_index : option nat;
  dedicated_compute_index : option nat }.

(** [RVPT::context_init], lines 241 to 315: the first stage that fails
    returns [false]. *)
Definition context_init (D : Device) : M bool :=
  if negb (instance_ok D) then mret false else
  if negb (surface_ok D) then mret false else
  if negb (physical_device_ok D) then mret false else
  if negb (device_ok D) then mret false else
  match graphics_index D with
  | None => mret false
  | Some gi =>
      modify (set_graphics_queue (Some {| queue_family := gi |}));;
      match present_index D with
      | None => mret false
      | Some pi =>
          modify (set_present_queue (Some {| queue_family := pi |}));;
          match dedicated_compute_index D with
          | Some ci => modify (set_compute_queue (Some {| queue_family := ci |}))
          | None => mret tt
          end;;
          mret true
      end
  end.

(** Modelled from the spec: the constructor of [VK::SyncResources] is not
    under src/.  It keeps the two queues and the swapchain handle it is
    given and creates the image-available and render-finished semaphores,
    the command fence and the graphics command buffer. *)
Definition new_sync_resources (gq pq : Queue) (sc : Handle) : M SyncResources :=
  sem1 ← fresh;
  sem2 ← fresh;
  fence ← fresh;
  cb ← fresh;
  mret {| sr_graphics_queue := gq; sr_present_queue := pq; sr_swapchain := sc;
          image_avail_sem := sem1; render_finish_sem := sem2;
          command_fence := fence;
          command_buffer := {| cb_handle := cb; cb_queue := gq |} |}.

(** [RVPT::create_rendering_resources], lines 379 to 405: two descriptor
    pools and two pipelines. *)
Definition create_rendering_resources : M RenderingResources :=
  ip ← fresh;
  rp ← fresh;
  tri ← fresh;
  ray ← fresh;
  mret {| image_pool := ip; raytrace_descriptor_pool := rp;
          fullscreen_triangle_pipeline := tri; raytrace_pipeline := ray |}.

(** [sizeof(Sphere)]: three floats of position and one of radius. *)
Definition sizeof_Sphere : Z := 16.

(** The constructor of [VK::Buffer]. *)
Definition new_buffer (size : Z) : M Buffer :=
  h ← fresh;
  mret {| buffer_handle := h; buffer_size := size; buffer_contents := NoData |}.

(** [vkUpdateDescriptorSets]: the call, and the device's table. *)
Definition update_descriptor_sets (ws : list DescriptorWrite) : M unit :=
  emit (EvUpdateDescriptorSets ws);;
  modify (λ st, set_descriptor_table (rev ws ++ descriptor_table st) st).

Definition VK_FORMAT_R8G8B8A8_UNORM : nat := 37.

(** [RVPT::add_per_frame_data], lines 407 to 477: the objects of one
    slot, in the order of their creation, and the two descriptor
    updates.  The output image is made with [*graphics_queue], line 410,
    whether or not there is a compute queue. *)
Definition add_per_frame_data : M unit :=
  gq ← gets graphics_queue;
  _ ← deref gq;
  ih ← fresh;
  let output_image := {| image_handle := ih; image_fmt := VK_FORMAT_R8G8B8A8_UNORM;
                         image_width := 512; image_height := 512 |} in
  camera_uniform ← new_buffer 64;
  random_uniform ← new_buffer 4096;
  settings_uniform ← new_buffer 8;
  sph ← gets spheres;
  sphere_buffer ← new_buffer (sizeof_Sphere * Z.of_nat (length sph));
  q ← compute_or_graphics_queue;
  cbh ← fresh;
  let raytrace_command_buffer := {| cb_handle := cbh; cb_queue := q |} in
  raytrace_work_fence ← fresh;
  rr ← gets rendering_resources;
  res ← deref rr;
  image_descriptor_set ← fresh;
  rr ← gets rendering_resources;
  res ← deref rr;
  raytracing_descriptor_set ← fresh;
  update_descriptor_sets
    [ {| dst_set := image_descriptor_set; dst_binding := 0;
         descriptor_type := COMBINED_IMAGE_SAMPLER; bound_object := ih |} ];;
  update_descriptor_sets
    [ {| dst_set := raytracing_descriptor_set; dst_binding := 0;
         descriptor_type := STORAGE_IMAGE; bound_object := ih |};
      {| dst_set := raytracing_descriptor_set; dst_binding := 1;
         descriptor_type := UNIFORM_BUFFER;
         bound_object := buffer_handle camera_uniform |};
      {| dst_set := raytracing_descriptor_set; dst_binding := 2;
         descriptor_type := UNIFORM_BUFFER;
         bound_object := buffer_handle random_uniform |};
      {| dst_set := raytracing_descriptor_set; dst_binding := 3;
         descriptor_type := UNIFORM_BUFFER;
         bound_object := buffer_handle settings_uniform |};
      {| dst_set := raytracing_descriptor_set; dst_binding := 4;
         descriptor_type := STORAGE_BUFFER;
         bound_object := buffer_handle sphere_buffer |} ];;
  modify (λ st, set_per_frame_data
    (per_frame_data st ++
      [ {| output_image := output_image; camera_uniform := camera_uniform;
           random_uniform := random_uniform; settings_uniform := settings_uniform;
           sphere_buffer := sphere_buffer;
           raytrace_command_buffer := raytrace_command_buffer;
           raytrace_work_fence := raytrace_work_fence;
           image_descriptor_set := image_descriptor_set;
           raytracing_descriptor_sets := raytracing_descriptor_set |} ]) st).

(** The sixteen spheres of the scene, in the order of the two loops. *)
Definition initial_spheres : list Sphere :=
  i ← [0; 1; 2; 3]%Z;
  j ← [0; 1; 2; 3]%Z;
  [ {| origin := (2 * i - 4, 1, 2 * j - 4)%Z; sphere_radius := 1 |} ].

(** [RVPT::initialize], lines 27 to 67.  [MAX_FRAMES_IN_FLIGHT] is
    declared in [rvpt.h]; it is a parameter here, as is the extent of the
    window the surface belongs to. *)
Definition initialize (B : Backend) (D : Device) (MAX_FRAMES_IN_FLIGHT : nat)
    (window : Extent) : M bool :=
  init ← context_init D;
  init2 ← swapchain_init B window;
  let init := init && init2 in
  for_loop 0 MAX_FRAMES_IN_FLIGHT (λ _,
    gq ← gets graphics_queue;
    g ← value gq;
    pq ← gets present_queue;
    p ← value pq;
    sc ← gets vkb_swapchain;
    s ← new_sync_resources g p (swapchain sc);
    modify (λ st, set_sync_resources (sync_resources st ++ [s]) st));;
  modify (λ st, set_frames_inflight_fences
    (resize (image_count (vkb_swapchain st)) VK_NULL_HANDLE
            (frames_inflight_fences st)) st);;
  rp ← fresh;
  modify (set_fullscreen_tri_render_pass rp);;
  gq ← gets graphics_queue;
  _ ← deref gq;
  create_framebuffers;;
  modify (λ st, set_spheres (spheres st ++ initial_spheres) st);;
  rr ← create_rendering_resources;
  modify (set_rendering_resources (Some rr));;
  for_loop 0 MAX_FRAMES_IN_FLIGHT (λ _, add_per_frame_data);;
  modify (λ st, set_random_numbers (resize 1024 0%Z (random_numbers st)) st);;
  mret init.

(** The renderer as its constructor leaves it. *)
Definition new_RVPT : RVPT :=
  {| compute_queue := None; graphics_queue := None; present_queue := None;
     vkb_swapchain := {| swapchain := VK_NULL_HANDLE; image_count := 0;
                         image_format := 0;
                         extent := {| width := 0; height := 0 |} |};
     swapchain_images := []; swapchain_image_views := [];
     framebuffers := []; fullscreen_tri_render_pass := VK_NULL_HANDLE;
     sync_resources := []; frames_inflight_fences := [];
     rendering_resources := None; per_frame_data := [];
     current_frame_index := 0; framebuffer_resized := false;
     scene_camera := NoData; random_numbers := []; render_settings := NoData;
     spheres := []; descriptor_table := []; next_handle := 1 |}.

(** ** A small concrete backend, for the examples *)

Definition window512 : Extent := {| width := 512; height := 512 |}.

(** A builder that gives [n] images of the window's extent; the swapchain
    handle moves on with every build. *)
Definition demo_backend (n : nat) : Backend :=
  {| build := λ w old,
       Some {| swapchain := 1000 + default 0 (S ∘ swapchain <$> old);
               image_count := n; image_format := 44; extent := w |};
     get_images := λ sc, Some (seq (2000 + 10 * swapchain sc) (image_count sc));
     get_image_views := λ sc, Some (seq (3000 + 10 * swapchain sc) (image_count sc)) |}.

Definition demo_device (compute : option nat) : Device :=
  {| instance_ok := true; surface_ok := true; physical_device_ok := true;
     device_ok := true; graphics_index := Some 0; present_index := Some 0;
     dedicated_compute_index := compute |}.

Definition demo_state (frames images : nat) (compute : option nat) : RVPT :=
  match (initialize (demo_backend images) (demo_device compute) frames window512 new_RVPT).2 with
  | Done _ st => st
  | Failed _ => new_RVPT
  end.

(** Consecutive calls of [draw], one per tick, with the backend's answers
    for each. *)
Fixpoint ticks (B : Backend) (ts : list Tick) : M (list draw_return) :=
  match ts with
  | [] => mret []
  | t :: ts' => r ← draw B t; rs ← ticks B ts'; mret (r :: rs)
  end.

Definition ok_tick (i : nat) : Tick :=
  {| window_extent := window512; acquire_result := VK_SUCCESS;
     acquire_image_index := i; present_result := VK_SUCCESS |}.

(** * Closed forms of one tick

    What [draw] does from a state whose current slot exists, written out
    as data: the trace of each phase and the state it leaves.  The lemmas
    below prove that [draw] computes exactly these. *)

(** Put a trace in front of what a continuation produces. *)
Definition prepend {A} (t : list Event) (p : list Event * Res A) : list Event * Res A :=
  (t ++ p.1, p.2).

(** The slot after one [copy_to]. *)
Definition with_contents (get : PerFrameData → Buffer)
    (put : Buffer → PerFrameData → PerFrameData) (data : Payload)
    (d : PerFrameData) : PerFrameData :=
  put {| buffer_handle := buffer_handle (get d); buffer_size := buffer_size (get d);
         buffer_contents := data |} d.

(** The current slot after the four uploads of [draw]. *)
Definition upload (st : RVPT) (d : PerFrameData) : PerFrameData :=
  with_contents sphere_buffer put_sphere_buffer (SphereList (spheres st))
    (with_contents settings_uniform put_settings_uniform (render_settings st)
       (with_contents random_uniform put_random_uniform (Words (random_numbers st))
          (with_contents camera_uniform put_camera_uniform (scene_camera st) d))).

Definition uploaded (st : RVPT) (d : PerFrameData) : RVPT :=
  set_per_frame_data
    (<[current_frame_index st := upload st d]> (per_frame_data st)) st.

(** The queue the compute work goes to, if there is any queue. *)
Definition compute_submit_queue (st : RVPT) : option Queue :=
  match compute_queue st with
  | Some q => Some q
  | None => graphics_queue st
  end.

Definition compute_commands (res : RenderingResources) (d : PerFrameData) : list Event :=
  let cb := cb_handle (raytrace_command_buffer d) in
  [ EvCmd cb CmdBegin;
    EvCmd cb (CmdBindPipeline COMPUTE (raytrace_pipeline res));
    EvCmd cb (CmdBindDescriptorSets COMPUTE (raytrace_pipeline res)
                (raytracing_descriptor_sets d));
    EvCmd cb (CmdDispatch (dispatch_groups (output_image d)).1
                          (dispatch_groups (output_image d)).2 1);
    EvCmd cb CmdEnd ].

(** Lines 112 to 125 of [draw]: wait, reset, the four uploads, the
    recording of the compute pass and its submission. *)
Definition raytrace_events (st : RVPT) (d : PerFrameData)
    (res : RenderingResources) (q : Queue) : list Event :=
  [ EvFenceWait (raytrace_work_fence d);
    EvFenceReset (raytrace_work_fence d);
    EvCopyTo (buffer_handle (camera_uniform d)) (scene_camera st);
    EvCopyTo (buffer_handle (random_uniform d)) (Words (random_numbers st));
    EvCopyTo (buffer_handle (settings_uniform d)) (render_settings st);
    EvCopyTo (buffer_handle (sphere_buffer d)) (SphereList (spheres st)) ]
  ++ compute_commands res d
  ++ [ EvQueueSubmit q (cb_handle (raytrace_command_buffer d))
                     (raytrace_work_fence d) ].

(** Lines 127 to 135. *)
Definition acquire_events (st : RVPT) (sr : SyncResources) : list Event :=
  [ EvFenceWait (command_fence sr);
    EvCmd (cb_handle (command_buffer sr)) CmdReset;
    EvAcquireNextImage (swapchain (vkb_swapchain st)) (image_avail_sem sr) ].

(** [record_command_buffer]. *)
Definition graphics_commands (st : RVPT) (d : PerFrameData) (sr : SyncResources)
    (res : RenderingResources) (fb : Framebuffer) : list Event :=
  let cmd_buf := cb_handle (command_buffer sr) in
  [ EvCmd cmd_buf CmdBegin;
    EvCmd cmd_buf (CmdPipelineBarrier (image_handle (output_image d)));
    EvCmd cmd_buf (CmdBeginRenderPass (fullscreen_tri_render_pass st)
                     (framebuffer fb) (extent (vkb_swapchain st)));
    EvCmd cmd_buf (CmdSetViewport (extent (vkb_swapchain st)));
    EvCmd cmd_buf (CmdSetScissor (extent (vkb_swapchain st)));
    EvCmd cmd_buf (CmdBindPipeline GRAPHICS (fullscreen_triangle_pipeline res));
    EvCmd cmd_buf (CmdBindDescriptorSets GRAPHICS
                     (fullscreen_triangle_pipeline res) (image_descriptor_set d));
    EvCmd cmd_buf (CmdDraw 3 1 0 0);
    EvCmd cmd_buf (CmdImguiDraw (current_frame_index st));
    EvCmd cmd_buf CmdEndRenderPass;
    EvCmd cmd_buf CmdEnd ].

(** Lines 149 to 153: the wait on the fence registered for the image. *)
Definition guard_events (f : Handle) : list Event :=
  if Nat.eqb f VK_NULL_HANDLE then [] else [EvWaitForFences f].

(** Lines 156 to 159. *)
Definition submit_events (sr : SyncResources) (image_index : nat) : list Event :=
  [ EvFenceReset (command_fence sr);
    EvSyncSubmit sr;
    EvSyncPresent sr image_index ].

(** Lines 161 to 173: what follows the present. *)
Definition after_present (B : Backend) (t : Tick) : M draw_return :=
  resized ← gets framebuffer_resized;
  (if VkResult_eqb (present_result t) VK_ERROR_OUT_OF_DATE_KHR
      || VkResult_eqb (present_result t) VK_SUBOPTIMAL_KHR
      || resized
   then modify (set_framebuffer_resized false);;
        swapchain_reinit B (window_extent t);;
        mret tt
   else if negb (VkResult_eqb (present_result t) VK_SUCCESS)
        then fault Aborted else mret tt);;
  n ← gets (λ st, length (sync_resources st));
  i ← gets current_frame_index;
  (if Nat.eqb n 0 then fault Undefined
   else modify (set_current_frame_index ((i + 1) `mod` n)));;
  mret success.

(** The state a tick starts from has its current slot, its sync
    resources, the pipelines and a queue for the compute work. *)
Record tick_ready (st : RVPT) (d : PerFrameData) (sr : SyncResources)
    (res : RenderingResources) (q : Queue) : Prop := {
  ready_slot : per_frame_data st !! current_frame_index st = Some d;
  ready_sync : sync_resources st !! current_frame_index st = Some sr;
  ready_resources : rendering_resources st = Some res;
  ready_queue : compute_submit_queue st = Some q }.

(** Lines 137 to 173: what [draw] does with the answer of the acquire,
    [current_frame] being the sync resources of the current slot. *)
Definition after_acquire (B : Backend) (t : Tick) (current_frame : SyncResources)
    : M draw_return :=
  if VkResult_eqb (acquire_result t) VK_ERROR_OUT_OF_DATE_KHR then
    swapchain_reinit B (window_extent t);;
    mret swapchain_out_of_date
  else
    (if negb (VkResult_eqb (acquire_result t) VK_SUCCESS)
        && negb (VkResult_eqb (acquire_result t) VK_SUBOPTIMAL_KHR)
     then fault Aborted else mret tt);;
    record_command_buffer current_frame (acquire_image_index t);;
    fences ← gets frames_inflight_fences;
    f ← index fences (acquire_image_index t);
    (if Nat.eqb f VK_NULL_HANDLE then mret tt else emit (EvWaitForFences f));;
    fences ← gets frames_inflight_fences;
    (if decide (acquire_image_index t < length fences)
     then modify (λ st, set_frames_inflight_fences
            (<[acquire_image_index t := command_fence current_frame]>
               (frames_inflight_fences st)) st)
     else fault Undefined);;
    emit (EvFenceReset (command_fence current_frame));;
    emit (EvSyncSubmit current_frame);;
    emit (EvSyncPresent current_frame (acquire_image_index t));;
    after_present B t.

(** The acquire succeeded: [VK_SUCCESS] or [VK_SUBOPTIMAL_KHR]. *)
Definition acquired (r : VkResult) : bool :=
  VkResult_eqb r VK_SUCCESS || VkResult_eqb r VK_SUBOPTIMAL_KHR.

(** The state when the present has been issued: the uploads are done and
    the image's entry of [frames_inflight_fences] is this slot's command
    fence. *)
Definition registered (st : RVPT) (d : PerFrameData) (sr : SyncResources)
    (image_index : nat) : RVPT :=
  set_frames_inflight_fences
    (<[image_index := command_fence sr]> (frames_inflight_fences st))
    (uploaded st d).

(** * Frame conditions and trace conditions *)

(** A computation leaves a part of the state as it found it, whenever it
    finishes. *)
Definition preserves {A X} (proj : RVPT → X) (m : M A) : Prop :=
  ∀ st a st', (m st).2 = Done a st' → proj st' = proj st.

(** Every backend call a computation makes satisfies [P], whether it
    finishes or stops at a fault. *)
Definition emits_only {A} (P : Event → Prop) (m : M A) : Prop :=
  ∀ st, Forall P (m st).1.

(** A part of the state that no swapchain field and no handle counter
    enters is kept by the swapchain functions. *)
Definition outside_swapchain {X} (proj : RVPT → X) : Prop :=
  (∀ v st, proj (set_framebuffers v st) = proj st) ∧
  (∀ v st, proj (set_vkb_swapchain v st) = proj st) ∧
  (∀ v st, proj (set_swapchain_images v st) = proj st) ∧
  (∀ v st, proj (set_swapchain_image_views v st) = proj st) ∧
  (∀ v st, proj (set_next_handle v st) = proj st).

(** The frame pool: the slots, the sync resources, the cursor and the
    per-image fence table. *)
Definition frame_pool (st : RVPT) :=
  (per_frame_data st, sync_resources st, current_frame_index st,
   frames_inflight_fences st).

(** Everything of the renderer that is not the swapchain, its images and
    views, the framebuffers or the device's handle counter. *)
Definition outside_swapchain_state (st : RVPT) :=
  (frame_pool st, compute_queue st, graphics_queue st, present_queue st,
   fullscreen_tri_render_pass st, rendering_resources st,
   framebuffer_resized st, scene_camera st, random_numbers st,
   render_settings st, spheres st, descriptor_table st).

(** The backend calls of a swapchain rebuild. *)
Definition swapchain_event (e : Event) : Prop :=
  match e with
  | EvDestroyFramebuffers _ | EvDestroyImageViews _
  | EvBuildSwapchain _ _ | EvDestroySwapchain _ => True
  | _ => False
  end.

(** * Closed form of the swapchain rebuild *)

(** The framebuffers [create_framebuffers] makes: one per view, with
    consecutive handles. *)
Fixpoint new_framebuffers (rp : Handle) (e : Extent) (h : Handle)
    (views : list Handle) : list Framebuffer :=
  match views with
  | [] => []
  | v :: vs =>
      {| framebuffer := h; fb_render_pass := rp; fb_extent := e;
         fb_image_views := [v] |} :: new_framebuffers rp e (S h) vs
  end.

(** The state [create_framebuffers] leaves when every image has a view. *)
Definition with_framebuffers (st : RVPT) : RVPT :=
  let n := image_count (vkb_swapchain st) in
  set_next_handle (next_handle st + n)
    (set_framebuffers
       (new_framebuffers (fullscreen_tri_render_pass st)
          (extent (vkb_swapchain st)) (next_handle st)
          (take n (swapchain_image_views st))) st).

(** The state [swapchain_get_images] leaves, and what it returns. *)
Definition with_images (B : Backend) (st : RVPT) : bool * RVPT :=
  match get_images B (vkb_swapchain st) with
  | None => (false, st)
  | Some imgs =>
      match get_image_views B (vkb_swapchain st) with
      | None => (false, set_swapchain_images imgs st)
      | Some views =>
          (true, set_swapchain_image_views views (set_swapchain_images imgs st))
      end
  end.

(** What [swapchain_reinit] returns and the state it leaves, when every
    image of the new swapchain has a view. *)
Definition rebuilt (B : Backend) (w : Extent) (st : RVPT) : bool * RVPT :=
  match build B w (Some (vkb_swapchain st)) with
  | None => (false, set_framebuffers [] st)
  | Some sc =>
      let r := with_images B (set_vkb_swapchain sc (set_framebuffers [] st)) in
      (r.1, with_framebuffers r.2)
  end.

(** The views [create_framebuffers] reads during a rebuild to the
    swapchain [sc]: the new ones, or the old ones when a query fails. *)
Definition views_after (B : Backend) (sc : Swapchain) (old_views : list Handle)
    : list Handle :=
  match get_images B sc with
  | None => old_views
  | Some _ =>
      match get_image_views B sc with
      | None => old_views
      | Some views => views
      end
  end.

(** [create_framebuffers] stays within [swapchain_image_views] during the
    rebuild: every image of the new swapchain has a view. *)
Definition rebuild_defined (B : Backend) (w : Extent) (st : RVPT) : Prop :=
  match build B w (Some (vkb_swapchain st)) with
  | None => True
  | Some sc => image_count sc ≤ length (views_after B sc (swapchain_image_views st))
  end.

(** The calls of a rebuild. *)
Definition rebuild_events (B : Backend) (w : Extent) (st : RVPT) : list Event :=
  (if framebuffers st is [] then [] else [EvDestroyFramebuffers (framebuffers st)])
  ++ [ EvDestroyImageViews (swapchain_image_views st);
       EvBuildSwapchain w (Some (vkb_swapchain st)) ]
  ++ (if build B w (Some (vkb_swapchain st)) is Some _
      then [EvDestroySwapchain (vkb_swapchain st)] else []).

(** * Closed form of slot creation *)

(** The slot [add_per_frame_data] builds when the device's next handle is
    [h]: nine consecutive handles, in the order of creation. *)
Definition new_slot (h : Handle) (q : Queue) (n_spheres : nat) : PerFrameData :=
  {| output_image := {| image_handle := h; image_fmt := VK_FORMAT_R8G8B8A8_UNORM;
                        image_width := 512; image_height := 512 |};
     camera_uniform := {| buffer_handle := h + 1; buffer_size := 64;
                          buffer_contents := NoData |};
     random_uniform := {| buffer_handle := h + 2; buffer_size := 4096;
                          buffer_contents := NoData |};
     settings_uniform := {| buffer_handle := h + 3; buffer_size := 8;
                            buffer_contents := NoData |};
     sphere_buffer := {| buffer_handle := h + 4;
                         buffer_size := sizeof_Sphere * Z.of_nat n_spheres;
                         buffer_contents := NoData |};
     raytrace_command_buffer := {| cb_handle := h + 5; cb_queue := q |};
     raytrace_work_fence := h + 6;
     image_descriptor_set := h + 7;
     raytracing_descriptor_sets := h + 8 |}.

(** The descriptor writes for a slot: the sampling set, then the compute
    set. *)
Definition sampling_writes (d : PerFrameData) : list DescriptorWrite :=
  [ {| dst_set := image_descriptor_set d; dst_binding := 0;
       descriptor_type := COMBINED_IMAGE_SAMPLER;
       bound_object := image_handle (output_image d) |} ].

Definition compute_writes (d : PerFrameData) : list DescriptorWrite :=
  [ {| dst_set := raytracing_descriptor_sets d; dst_binding := 0;
       descriptor_type := STORAGE_IMAGE;
       bound_object := image_handle (output_image d) |};
    {| dst_set := raytracing_descriptor_sets d; dst_binding := 1;
       descriptor_type := UNIFORM_BUFFER;
       bound_object := buffer_handle (camera_uniform d) |};
    {| dst_set := raytracing_descriptor_sets d; dst_binding := 2;
       descriptor_type := UNIFORM_BUFFER;
       bound_object := buffer_handle (random_uniform d) |};
    {| dst_set := raytracing_descriptor_sets d; dst_binding := 3;
       descriptor_type := UNIFORM_BUFFER;
       bound_object := buffer_handle (settings_uniform d) |};
    {| dst_set := raytracing_descriptor_sets d; dst_binding := 4;
       descriptor_type := STORAGE_BUFFER;
       bound_object := buffer_handle (sphere_buffer d) |} ].

(** The state [add_per_frame_data] leaves. *)
Definition with_new_slot (q : Queue) (st : RVPT) : RVPT :=
  let d := new_slot (next_handle st) q (length (spheres st)) in
  set_per_frame_data (per_frame_data st ++ [d])
    (set_descriptor_table
       (rev (compute_writes d) ++ rev (sampling_writes d) ++ descriptor_table st)
       (set_next_handle (next_handle st + 9) st)).

(** * Predicates on events *)

(** A step of the graphics pass or of the present: recording into the
    graphics command buffer, the guard on the image's fence, the graphics
    submission, the present. *)
Definition graphics_step (e : Event) : bool :=
  match e with
  | EvCmd _ (CmdPipelineBarrier _) | EvCmd _ (CmdBeginRenderPass _ _ _)
  | EvCmd _ (CmdSetViewport _) | EvCmd _ (CmdSetScissor _)
  | EvCmd _ (CmdBindPipeline GRAPHICS _)
  | EvCmd _ (CmdBindDescriptorSets GRAPHICS _ _)
  | EvCmd _ (CmdDraw _ _ _ _) | EvCmd _ (CmdImguiDraw _)
  | EvCmd _ CmdEndRenderPass
  | EvWaitForFences _ | EvSyncSubmit _ | EvSyncPresent _ _ => true
  | _ => false
  end.



Definition is_build (e : Event) : bool :=
  if e is EvBuildSwapchain _ _ then true else false.


Definition is_descriptor_update (e : Event) : bool :=
  if e is EvUpdateDescriptorSets _ then true else false.

(** How many events of a trace satisfy [p]. *)
Definition count (p : Event → bool) (tr : list Event) : nat :=
  length (List.filter p tr).

(** Rounding up: the number of groups of [b] needed to cover [a]. *)
Definition ceil_div (a b : Z) : Z := ((a + b - 1) / b)%Z.


Definition is_queue_submit (e : Event) : bool :=
  if e is EvQueueSubmit _ _ _ then true else false.

(** The calls [draw] makes once the compute work is submitted and the
    image acquired: recording into the graphics command buffer of the
    current sync resources, fence calls, the graphics submission, the
    present and a swapchain rebuild.  No upload, no compute recording, no
    compute submission, no descriptor update and no second acquire. *)
Definition present_side (sr : SyncResources) (e : Event) : Prop :=
  match e with
  | EvCmd _ (CmdDispatch _ _ _) => False
  | EvCmd h _ => h = cb_handle (command_buffer sr)
  | EvCopyTo _ _ | EvQueueSubmit _ _ _ | EvUpdateDescriptorSets _
  | EvFenceWait _ | EvAcquireNextImage _ _ => False
  | _ => True
  end.

(** A computation that neither reads nor writes [compute_queue]: run from
    a state with another compute queue it makes the same calls and ends
    in the same state but for that field. *)
Definition ignores_compute_queue {A} (m : M A) : Prop :=
  ∀ c st,
    m (set_compute_queue c st) =
    ((m st).1,
     match (m st).2 with
     | Done a st' => Done a (set_compute_queue c st')
     | Failed f => Failed f
     end).

(** The place of the first event of a trace that satisfies [p]. *)
Fixpoint position (p : Event → bool) (tr : list Event) : option nat :=
  match tr with
  | [] => None
  | e :: tr' => if p e then Some 0 else S <$> position p tr'
  end.

(** A host wait on the fence [f], by either call. *)
Definition waits_on (f : Handle) (e : Event) : bool :=
  match e with
  | EvFenceWait g | EvWaitForFences g => Nat.eqb f g
  | _ => false
  end.

(** A command recorded into the command buffer [cb]; a reset is not a
    recording. *)
Definition records_into (cb : Handle) (e : Event) : bool :=
  match e with
  | EvCmd _ CmdReset => false
  | EvCmd h _ => Nat.eqb h cb
  | _ => false
  end.

(** The state a run ends in; the start state when it stops at a fault. *)
Definition state_after {A} (m : M A) (st : RVPT) : RVPT :=
  match (m st).2 with
  | Done _ st' => st'
  | Failed _ => st
  end.

(** * Fences and what they guard *)

(** The objects of a slot that the GPU reads while its compute work runs:
    the four buffers and the compute command buffer. *)
Definition guarded_objects (d : PerFrameData) : list Handle :=
  [ buffer_handle (camera_uniform d); buffer_handle (random_uniform d);
    buffer_handle (settings_uniform d); buffer_handle (sphere_buffer d);
    cb_handle (raytrace_command_buffer d) ].

(** A slot's completion fence with the objects it guards. *)
Definition slot_guard (d : PerFrameData) : Handle * list Handle :=
  (raytrace_work_fence d, guarded_objects d).

Definition fence_guards (st : RVPT) : list (Handle * list Handle) :=
  slot_guard <$> per_frame_data st.

(** The host may write or record the object [h]: no slot that owns [h]
    has a pending fence. *)
Definition may_touch (G : list (Handle * list Handle)) (pending : list Handle)
    (h : Handle) : bool :=
  forallb (λ g, negb (bool_decide (h ∈ g.2)) || negb (bool_decide (g.1 ∈ pending))) G.

(** The fences a trace leaves pending.  A fence is pending from the
    submission that will signal it until the host has waited on it. *)
Definition pending_step (pending : list Handle) (e : Event) : list Handle :=
  match e with
  | EvFenceWait f | EvWaitForFences f => filter (λ g, g ≠ f) pending
  | EvQueueSubmit _ _ f => f :: pending
  | EvSyncSubmit s => command_fence s :: pending
  | _ => pending
  end.

(** The fencing monitor: every upload into a buffer and every command
    recorded into a command buffer happens while the fence that guards
    the object is not pending. *)
Fixpoint fenced (G : list (Handle * list Handle)) (pending : list Handle)
    (tr : list Event) : bool :=
  match tr with
  | [] => true
  | e :: tr' =>
      match e with
      | EvCopyTo h _ | EvCmd h _ => may_touch G pending h
      | _ => true
      end && fenced G (pending_step pending e) tr'
  end.

(** Slots do not share guarded objects, unless they share the fence. *)
Definition slots_separate (G : list (Handle * list Handle)) : bool :=
  forallb (λ g, forallb (λ g',
    forallb (λ h, negb (bool_decide (h ∈ g'.2)) || Nat.eqb g.1 g'.1) g.2) G) G.

(** No graphics command buffer is an object guarded by a slot's fence. *)
Definition graphics_separate (st : RVPT) : bool :=
  forallb (λ s, forallb (λ g : Handle * list Handle,
    negb (bool_decide (cb_handle (command_buffer s) ∈ g.2))) (fence_guards st))
    (sync_resources st).

(** The renderer between two ticks: as many slots as sync resources, the
    cursor on one of them, the pipelines created and a queue for the
    compute work. *)
Record renderer_ok (st : RVPT) : Prop := {
  ok_same_length : length (per_frame_data st) = length (sync_resources st);
  ok_cursor : current_frame_index st < length (sync_resources st);
  ok_resources : is_Some (rendering_resources st);
  ok_queue : is_Some (compute_submit_queue st) }.

(** What a tick keeps of the renderer apart from the contents of the
    buffers, the cursor, the fence table and the swapchain. *)
Definition fixed_parts (st : RVPT) :=
  (fence_guards st, length (per_frame_data st), sync_resources st,
   rendering_resources st, compute_queue st, graphics_queue st).

(** Partial correctness of a computation. *)
Definition hoare {A} (P : RVPT → Prop) (m : M A) (Q : A → RVPT → Prop) : Prop :=
  ∀ st a st', P st → (m st).2 = Done a st' → Q a st'.

Definition pending_after (pending : list Handle) (tr : list Event) : list Handle :=
  fold_left pending_step tr pending.

(** An event that touches no object guarded by a slot's fence. *)
Definition unguarded (G : list (Handle * list Handle)) (e : Event) : Prop :=
  match e with
  | EvCopyTo h _ | EvCmd h _ => ∀ g, g ∈ G → h ∉ g.2
  | _ => True
  end.

(** * Descriptor bindings *)

(** The objects a slot's two descriptor sets refer to, and the sets. *)
Definition slot_objects (d : PerFrameData) :=
  (image_handle (output_image d), buffer_handle (camera_uniform d),
   buffer_handle (random_uniform d), buffer_handle (settings_uniform d),
   buffer_handle (sphere_buffer d), image_descriptor_set d,
   raytracing_descriptor_sets d).

Definition bound_objects (st : RVPT) := slot_objects <$> per_frame_data st.

(** The binding a descriptor write fills. *)
Definition binding_key (w : DescriptorWrite) : Handle * nat :=
  (dst_set w, dst_binding w).

(** What the device has bound at a binding: the newest write to it. *)
Definition bound_at (table : list DescriptorWrite) (set : Handle) (binding : nat)
    : option Handle :=
  bound_object <$>
    head (List.filter (λ w, Nat.eqb (dst_set w) set && Nat.eqb (dst_binding w) binding)
            table).

(** The descriptor bindings of the renderer: what the device holds and
    the objects they were written from. *)
Definition bindings (st : RVPT) := (descriptor_table st, bound_objects st).

Definition not_descriptor_update (e : Event) : Prop := is_descriptor_update e = false.

(** * The shape of the swapchain state *)

(** Extent, format and image count of a swapchain. *)
Definition swapchain_dims (sc : Swapchain) := (extent sc, image_format sc, image_count sc).

(** A framebuffer without its handles: render pass, extent and number of
    attachments. *)
Definition framebuffer_shape (fb : Framebuffer) :=
  (fb_render_pass fb, fb_extent fb, length (fb_image_views fb)).

(** The swapchain state up to the identity of the handles: extent,
    format, image count, how many images and views there are, and the
    shape of each framebuffer. *)
Definition swapchain_shape (st : RVPT) :=
  (swapchain_dims (vkb_swapchain st), length (swapchain_images st),
   length (swapchain_image_views st), framebuffer_shape <$> framebuffers st).

(** A backend whose answers depend on the window only, as far as shape
    goes: the builder gives the same extent, format and image count
    whatever swapchain it replaces, and swapchains of the same dimensions
    have as many images and views. *)
Record regular_backend (B : Backend) : Prop := {
  build_dims : ∀ w old1 old2,
    swapchain_dims <$> build B w old1 = swapchain_dims <$> build B w old2;
  images_dims : ∀ sc1 sc2, swapchain_dims sc1 = swapchain_dims sc2 →
    length <$> get_images B sc1 = length <$> get_images B sc2;
  views_dims : ∀ sc1 sc2, swapchain_dims sc1 = swapchain_dims sc2 →
    length <$> get_image_views B sc1 = length <$> get_image_views B sc2 }.

(** * Handles after initialization *)

(** The device never takes a handle back: a computation leaves
    [next_handle] where it was or further on. *)
Definition grows {A} (m : M A) : Prop :=
  ∀ st a st', (m st).2 = Done a st' → next_handle st ≤ next_handle st'.

(** [slots_separate] as a proposition. *)
Definition separate (G : list (Handle * list Handle)) : Prop :=
  ∀ g g' h, g ∈ G → g' ∈ G → h ∈ g.2 → h ∈ g'.2 → g.1 = g'.1.

(** Every handle the frame pool holds was given out by the device, the
    slots do not share guarded objects, and no graphics command buffer is
    a guarded object. *)
Record handles_ok (st : RVPT) : Prop := {
  ok_separate : separate (fence_guards st);
  ok_guarded_below : ∀ g h, g ∈ fence_guards st → h ∈ g.2 → h < next_handle st;
  ok_graphics_below : ∀ s, s ∈ sync_resources st →
    cb_handle (command_buffer s) < next_handle st;
  ok_graphics_apart : ∀ s g, s ∈ sync_resources st → g ∈ fence_guards st →
    cb_handle (command_buffer s) ∉ g.2 }.

(** The frame pool while [initialize] fills it: so many sync resources,
    so many slots, the cursor at 0. *)
Record pool_filled (n_sync n_slots : nat) (st : RVPT) : Prop := {
  filled_sync : length (sync_resources st) = n_sync;
  filled_slots : length (per_frame_data st) = n_slots;
  filled_cursor : current_frame_index st = 0;
  filled_handles : handles_ok st }.

(** * Concrete scenarios, for the examples *)

Definition stale_tick : Tick :=
  {| window_extent := window512; acquire_result := VK_ERROR_OUT_OF_DATE_KHR;
     acquire_image_index := 0; present_result := VK_SUCCESS |}.



(** The renderer after one tick that acquired image 0. *)
Definition after_first_tick : RVPT :=
  state_after (draw (demo_backend 3) (ok_tick 0)) (demo_state 2 3 None).

(** A builder that gives two images at first and three on every
    rebuild. *)
Definition growing_backend : Backend :=
  {| build := λ w old,
       Some {| swapchain := 1000 + default 0 (S ∘ swapchain <$> old);
               image_count := if old is Some _ then 3 else 2;
               image_format := 44; extent := w |};
     get_images := λ sc, Some (seq (2000 + 10 * swapchain sc) (image_count sc));
     get_image_views := λ sc, Some (seq (3000 + 10 * swapchain sc) (image_count sc)) |}.

Definition grown_state : RVPT :=
  let st0 := state_after (initialize growing_backend (demo_device None) 2 window512)
               new_RVPT in
  state_after (draw growing_backend
    {| window_extent := window512; acquire_result := VK_SUCCESS;
       acquire_image_index := 1; present_result := VK_SUBOPTIMAL_KHR |}) st0.

(** * The per-frame update *)

(** [RVPT::update], lines 68 to 76.  The generator is seeded afresh at
    every call; [rnd i] is the number the distribution gives at its
    [i]-th draw. *)
Definition update (rnd : nat → Z) : M bool :=
  for_loop 0 1024 (λ i,
    v ← gets random_numbers;
    if decide (i < length v)
    then modify (λ st, set_random_numbers (<[i := rnd i]> (random_numbers st)) st)
    else fault Undefined);;
  mret true.

(** * Outcomes of a tick *)

(** What [draw] returns when it returns: line 140 or line 173. *)
Definition verdict (t : Tick) : draw_return :=
  if VkResult_eqb (acquire_result t) VK_ERROR_OUT_OF_DATE_KHR
  then swapchain_out_of_date else success.

(** The condition of line 161. *)
Definition rebuilds_after_present (t : Tick) (st : RVPT) : bool :=
  VkResult_eqb (present_result t) VK_ERROR_OUT_OF_DATE_KHR
  || VkResult_eqb (present_result t) VK_SUBOPTIMAL_KHR
  || framebuffer_resized st.

(** The ticks of a list that go on to present. *)
Definition presenting (ts : list Tick) : nat :=
  length (List.filter
    (λ t, negb (VkResult_eqb (acquire_result t) VK_ERROR_OUT_OF_DATE_KHR)) ts).

(** The first two commands of [record_command_buffer], lines 481 to 497. *)
Definition graphics_prologue (d : PerFrameData) (sr : SyncResources) : list Event :=
  [ EvCmd (cb_handle (command_buffer sr)) CmdBegin;
    EvCmd (cb_handle (command_buffer sr))
          (CmdPipelineBarrier (image_handle (output_image d))) ].


(** * Framebuffers and the swapchain *)

(** A framebuffer without its handle. *)
Definition framebuffer_contents (fb : Framebuffer) :=
  (fb_render_pass fb, fb_extent fb, fb_image_views fb).

(** The framebuffers of a state follow its swapchain and the field
    [swapchain_image_views]: one per image of the swapchain, in order, the
    [i]-th over the [i]-th entry of [swapchain_image_views], with the
    render pass and the extent of the swapchain.  This does not say that
    the entries of [swapchain_image_views] are views of the current
    swapchain: after a rebuild whose image query failed they are the
    destroyed views of the old one. *)
Definition framebuffers_match (st : RVPT) : Prop :=
  image_count (vkb_swapchain st) ≤ length (swapchain_image_views st)
  ∧ framebuffer_contents <$> framebuffers st
    = (λ v, (fullscreen_tri_render_pass st, extent (vkb_swapchain st), [v]))
      <$> take (image_count (vkb_swapchain st)) (swapchain_image_views st).

(** * Initialization *)

(** Every stage of [context_init] succeeds.  A dedicated compute queue is
    not required. *)
Definition context_ok (D : Device) : bool :=
  instance_ok D && surface_ok D && physical_device_ok D && device_ok D
  && bool_decide (is_Some (graphics_index D))
  && bool_decide (is_Some (present_index D)).

(** [sizeof(float)]. *)
Definition sizeof_float : Z := 4.

(** The bytes an upload of [draw] moves. *)
Definition payload_size (p : Payload) : option Z :=
  match p with
  | NoData => None
  | Words ws => Some (sizeof_float * Z.of_nat (length ws))%Z
  | SphereList ss => Some (sizeof_Sphere * Z.of_nat (length ss))%Z
  end.

(** The random numbers and the spheres fill the buffers of a slot
    exactly. *)
Definition sizes_fit (st : RVPT) (d : PerFrameData) : Prop :=
  payload_size (Words (random_numbers st)) = Some (buffer_size (random_uniform d))
  ∧ payload_size (SphereList (spheres st)) = Some (buffer_size (sphere_buffer d)).

(** What the device resolves the bindings of a slot to: binding 0 of the
    sampling set, bindings 0 to 4 of the compute set. *)
Definition resolved (table : list DescriptorWrite) (d : PerFrameData)
    : list (option Handle) :=
  bound_at table (image_descriptor_set d) 0
  :: (bound_at table (raytracing_descriptor_sets d) <$> [0; 1; 2; 3; 4]).

(** The objects of the slot, in the same order. *)
Definition slot_bindings (d : PerFrameData) : list (option Handle) :=
  [ Some (image_handle (output_image d));
    Some (image_handle (output_image d));
    Some (buffer_handle (camera_uniform d));
    Some (buffer_handle (random_uniform d));
    Some (buffer_handle (settings_uniform d));
    Some (buffer_handle (sphere_buffer d)) ].

(** * Further scenarios, for the examples *)

(** The acquire times out. *)
Definition timeout_tick : Tick :=
  {| window_extent := window512; acquire_result := VK_TIMEOUT;
     acquire_image_index := 0; present_result := VK_SUCCESS |}.


(** The acquire names an image past the last one. *)
Definition far_tick : Tick :=
  {| window_extent := window512; acquire_result := VK_SUCCESS;
     acquire_image_index := 7; present_result := VK_SUCCESS |}.

(** A backend whose builder fails whenever it is to replace a
    swapchain. *)
Definition failing_backend : Backend :=
  {| build := λ w old, if old is Some _ then None else build (demo_backend 3) w old;
     get_images := get_images (demo_backend 3);
     get_image_views := get_image_views (demo_backend 3) |}.


(** What [swapchain_init] returns: the builder and the two queries all
    succeed. *)
Definition swapchain_ok (B : Backend) (window : Extent) : bool :=
  match build B window None with
  | None => false
  | Some sc =>
      bool_decide (is_Some (get_images B sc))
      && bool_decide (is_Some (get_image_views B sc))
  end.

(** A device without a present queue family. *)
Definition headless_device : Device :=
  {| instance_ok := true; surface_ok := true; physical_device_ok := true;
     device_ok := true; graphics_index := Some 0; present_index := None;
     dedicated_compute_index := None |}.

(** * Strings

    A [std::string] is the list of its characters. *)

(** [str.find(from, pos)]: the first position at or after [pos] where
    [from] occurs in [str]; [None] is [npos].  [find_at] searches [s],
    whose first character is at position [i] of the whole string. *)
Fixpoint find_at (from s : list Ascii.ascii) (i : nat) : option nat :=
  match s with
  | [] => if from is [] then Some i else None
  | _ :: s' =>
      if decide (from `prefix_of` s) then Some i else find_at from s' (S i)
  end.

Definition str_find (str from : list Ascii.ascii) (pos : nat) : option nat :=
  if decide (pos ≤ length str) then find_at from (drop pos str) pos else None.

(** [str.replace(pos, len, to)], for a position within the string. *)
Definition str_replace (str : list Ascii.ascii) (pos len : nat) (to : list Ascii.ascii)
    : list Ascii.ascii :=
  take pos str ++ to ++ drop (pos + len) str.

(** The loop of [replace_all], lines 206 to 210, for at most [rounds]
    rounds: [None] when the loop has not ended by then. *)
Fixpoint replace_all_loop (rounds : nat) (str from to : list Ascii.ascii)
    (start_pos : nat) : option (list Ascii.ascii) :=
  match rounds with
  | 0 => None
  | S rounds' =>
      match str_find str from start_pos with
      | None => Some str
      | Some pos =>
          replace_all_loop rounds' (str_replace str pos (length from) to) from to
            (pos + length to)
      end
  end.

(** [replace_all], lines 202 to 211: the string [str] is left with.  The
    loop is given one round more than [str] has characters. *)
Definition replace_all (str from to : list Ascii.ascii) : option (list Ascii.ascii) :=
  if from is [] then Some str
  else replace_all_loop (S (length str)) str from to 0.

(** One pass over [s] from left to right that puts [to] for every
    occurrence of [from] it meets and goes on behind the occurrence;
    [skip] characters of the occurrence met last are still to be passed
    over. *)
Fixpoint substitute (from to : list Ascii.ascii) (skip : nat) (s : list Ascii.ascii)
    : list Ascii.ascii :=
  match s with
  | [] => []
  | c :: s' =>
      match skip with
      | S k => substitute from to k s'
      | 0 =>
          if decide (from `prefix_of` s)
          then to ++ substitute from to (length from - 1) s'
          else c :: substitute from to 0 s'
      end
  end.

(** * Shader reload and teardown *)

(** The calls of [reload_shaders] and [shutdown] that leave the
    renderer. *)
Inductive Call :=
| Cout (text : list Ascii.ascii)                    (* std::cout << text *)
| System (command : list Ascii.ascii)                (* std::system *)
| WaitIdle (q : Queue)                         (* VK::Queue::wait_idle *)
| RecompilePipelines                           (* pipeline_builder.recompile_pipelines *)
| DestroySlots (slots : list PerFrameData)     (* per_frame_data.clear *)
| DestroyRenderingResources (r : option RenderingResources)
| DestroyImgui                                 (* imgui_impl.reset *)
| DestroyRenderPass (render_pass : Handle)     (* VK::destroy_render_pass *)
| DestroyFramebuffers (fbs : list Framebuffer) (* framebuffers.clear *)
| DestroySyncResources (srs : list SyncResources)
| DestroyImageViews (views : list Handle)      (* vkb_swapchain.destroy_image_views *)
| ShutdownAllocator                            (* memory_allocator.shutdown *)
| ShutdownPipelineBuilder                      (* pipeline_builder.shutdown *)
| DestroySwapchain (sc : Swapchain)            (* vkb::destroy_swapchain *)
| DestroyDevice                                (* vkb::destroy_device *)
| DestroySurface                               (* vkDestroySurfaceKHR *)
| DestroyInstance.                             (* vkb::destroy_instance *)

(** The platform the renderer is compiled for: which branch of the
    conditional compilation of lines 221 to 232 is there. *)
Inductive Platform := WIN32 | unix | other_platform.

(** How a call of [reload_shaders] ends. *)
Inductive Ended :=
| Returns
| Stops (f : Fault)
| Loops.          (* [replace_all] has not ended within its rounds *)

Definition newline : Ascii.ascii := Ascii.ascii_of_nat 10.

Definition chars (s : String.string) : list Ascii.ascii := String.list_ascii_of_string s.

(** Lines 221 to 232: the command line, and the calls made with it. *)
Definition compile_shaders (platform : Platform) (source_folder : list Ascii.ascii)
    : option (list Call) :=
  match platform with
  | WIN32 =>
      double_backslash ← replace_all source_folder (chars "/") (chars "\\");
      let str := chars "cd " ++ double_backslash ++ chars "\\assets\\shaders && "
                 ++ double_backslash ++ chars "\\scripts\\compile_shaders.bat" in
      Some [Cout (str ++ [newline]); System str]
  | unix =>
      let str := chars "cd " ++ source_folder ++ chars "/assets/shaders && bash "
                 ++ source_folder ++ chars "/scripts/compile_shaders.sh" in
      Some [System str]
  | other_platform => Some []
  end.

(** [wait_idle] on the compute queue if there is one, then on the
    graphics and the present queue, then [rest]: lines 178 to 180 and 233
    to 235.  The two [->] on an empty optional are undefined. *)
Definition after_idle {A} (st : RVPT) (rest : list Call) (done stop : A)
    : list Call * A :=
  let compute := if compute_queue st is Some c then [WaitIdle c] else [] in
  match graphics_queue st with
  | None => (compute, stop)
  | Some g =>
      match present_queue st with
      | None => (compute ++ [WaitIdle g], stop)
      | Some p => (compute ++ [WaitIdle g; WaitIdle p] ++ rest, done)
      end
  end.

(** [RVPT::reload_shaders], lines 213 to 238.  [source_folder] is the
    member the constructor reads from the project configuration. *)
Definition reload_shaders (platform : Platform) (source_folder : list Ascii.ascii)
    (st : RVPT) : list Call * Ended :=
  if decide (source_folder = []) then
    ([Cout (chars "source_folder not set, unable to reload shaders" ++ [newline])],
     Returns)
  else
    match compile_shaders platform source_folder with
    | None => ([], Loops)
    | Some calls =>
        let r := after_idle st [RecompilePipelines] Returns (Stops Undefined) in
        (calls ++ r.1, r.2)
    end.

(** [RVPT::shutdown], lines 176 to 200. *)
Definition shutdown (st : RVPT) : list Call * Res unit :=
  after_idle st
    [ DestroySlots (per_frame_data st);
      DestroyRenderingResources (rendering_resources st);
      DestroyImgui;
      DestroyRenderPass (fullscreen_tri_render_pass st);
      DestroyFramebuffers (framebuffers st);
      DestroySyncResources (sync_resources st);
      DestroyImageViews (swapchain_image_views st);
      ShutdownAllocator;
      ShutdownPipelineBuilder;
      DestroySwapchain (vkb_swapchain st);
      DestroyDevice;
      DestroySurface;
      DestroyInstance ]
    (Done tt
       (set_sync_resources []
          (set_framebuffers []
             (set_rendering_resources None (set_per_frame_data [] st)))))
    (Failed Undefined).

(** The character [/]. *)
Definition slash : Ascii.ascii := Ascii.ascii_of_nat 47.

(** A state whose queues are all there, after [initialize]. *)
Definition compute_state : RVPT := demo_state 1 2 (Some 2).

(** A backend whose swapchains give no image views once they replace
    another. *)
Definition viewless_backend : Backend :=
  {| build := build (demo_backend 3);
     get_images := get_images (demo_backend 3);
     get_image_views := λ sc,
       if decide (swapchain sc = 1000) then get_image_views (demo_backend 3) sc
       else None |}.

Definition viewless_state : RVPT :=
  state_after (initialize viewless_backend (demo_device None) 2 window512) new_RVPT.

(** * Parts of the state and of a trace that the lemmas below speak of *)



(** The part of the state [framebuffers_match] reads. *)
Definition swapchain_parts (st : RVPT) :=
  (framebuffers st, vkb_swapchain st, swapchain_image_views st,
   fullscreen_tri_render_pass st).

(** The framebuffers fit the swapchain, or there is none. *)
Definition framebuffers_sound (st : RVPT) : Prop :=
  framebuffers_match st ∨ framebuffers st = [].

(** Every run of a computation that returns, returns [a]. *)
Definition returns {A} (m : M A) (a : A) : Prop :=
  ∀ st a' st', (m st).2 = Done a' st' → a' = a.

(** The pools that [initialize] fills late: the slots, the descriptor
    table, the spheres and the random numbers, with the two queues that
    decide where the compute work goes. *)
Definition late_parts (st : RVPT) :=
  (per_frame_data st, descriptor_table st, spheres st, random_numbers st,
   compute_queue st, graphics_queue st).

(** The sizes of the two buffers of a slot whose uploads vary in length. *)
Definition buffer_sizes (d : PerFrameData) : Z * Z :=
  (buffer_size (random_uniform d), buffer_size (sphere_buffer d)).

(** The part of the renderer [sizes_fit] reads. *)
Definition upload_parts (st : RVPT) :=
  (buffer_sizes <$> per_frame_data st, (random_numbers st, spheres st)).

(** The bindings of a slot resolve to its own objects, and its two sets
    were given out by the device. *)
Definition slot_resolved (st : RVPT) (d : PerFrameData) : Prop :=
  resolved (descriptor_table st) d = slot_bindings d
  ∧ image_descriptor_set d < next_handle st
  ∧ raytracing_descriptor_sets d < next_handle st.

(** A wait on a queue. *)
Definition is_wait_idle (c : Call) : bool :=
  if c is WaitIdle _ then true else false.

(** The queues the renderer has. *)
Definition queues (st : RVPT) : list Queue :=
  omap id [compute_queue st; graphics_queue st; present_queue st].

(** * The render loop *)

(** A backend that always builds a swapchain of [n] images and answers
    both image queries for such a swapchain, with [n] views. *)
Record reliable_backend (n : nat) (B : Backend) : Prop := {
  builds : ∀ w old, ∃ sc, build B w old = Some sc ∧ image_count sc = n;
  has_images : ∀ sc, image_count sc = n → is_Some (get_images B sc);
  has_views : ∀ sc, image_count sc = n →
    ∃ views, get_image_views B sc = Some views ∧ length views = n }.

(** A tick the renderer is written for: the acquire reports success,
    suboptimal or out-of-date, so does the present, and the image is one
    of the [n] images of the swapchain. *)
Definition healthy (n : nat) (t : Tick) : Prop :=
  (acquired (acquire_result t) = true
   ∨ acquire_result t = VK_ERROR_OUT_OF_DATE_KHR)
  ∧ present_result t ∈ [VK_SUCCESS; VK_SUBOPTIMAL_KHR; VK_ERROR_OUT_OF_DATE_KHR]
  ∧ acquire_image_index t < n.

(** The renderer between two ticks of a loop over a swapchain of [n]
    images. *)
Definition loop_ready (n : nat) (st : RVPT) : Prop :=
  renderer_ok st
  ∧ length (framebuffers st) = n
  ∧ length (frames_inflight_fences st) = n.

(** A tick whose present reports suboptimal. *)
Definition suboptimal_tick (i : nat) : Tick :=
  {| window_extent := window512; acquire_result := VK_SUCCESS;
     acquire_image_index := i; present_result := VK_SUBOPTIMAL_KHR |}.


(** The renderer after two ticks that acquired images 0 and 1. *)
Definition after_two_ticks : RVPT :=
  state_after (draw (demo_backend 3) (ok_tick 1)) after_first_tick.

(** ** Equations of the monad *)

Lemma prepend_nil {A} (p : list Event * Res A) : prepend [] p = p.
Proof. by destruct p. Qed.

Lemma prepend_prepend {A} t1 t2 (p : list Event * Res A) :
  prepend t1 (prepend t2 p) = prepend (t1 ++ t2) p.
Proof. unfold prepend; simpl. by rewrite app_assoc. Qed.

Lemma Done_inj {A} (a a' : A) s s' : Done a s = Done a' s' → a = a' ∧ s = s'.
Proof. by intros [= -> ->]. Qed.

Lemma run_bind {A B} (m : M A) (k : A → M B) st :
  (m ≫= k) st =
  match (m st).2 with
  | Done a st1 => prepend (m st).1 (k a st1)
  | Failed f => ((m st).1, Failed f)
  end.
Proof.
  unfold mbind, M_bind, prepend.
  destruct (m st) as [t1 [a st1|f]]; simpl; [|done].
  by destruct (k a st1).
Qed.

Lemma run_ret {A B} (a : A) (k : A → M B) st : (mret a ≫= k) st = k a st.
Proof. rewrite run_bind. simpl. apply prepend_nil. Qed.

Lemma run_emit {B} e (k : unit → M B) st : (emit e ≫= k) st = prepend [e] (k tt st).
Proof. by rewrite run_bind. Qed.

Lemma run_gets {A B} (p : RVPT → A) (k : A → M B) st : (gets p ≫= k) st = k (p st) st.
Proof. rewrite run_bind. simpl. apply prepend_nil. Qed.

Lemma run_modify {B} f (k : unit → M B) st : (modify f ≫= k) st = k tt (f st).
Proof. rewrite run_bind. simpl. apply prepend_nil. Qed.

Lemma run_fault {A B} f (k : A → M B) st : (fault f ≫= k) st = ([], Failed f).
Proof. by rewrite run_bind. Qed.

Lemma run_assoc {A B C} (m : M A) (k1 : A → M B) (k2 : B → M C) st :
  ((m ≫= k1) ≫= k2) st = (m ≫= (λ a, k1 a ≫= k2)) st.
Proof.
  rewrite !run_bind.
  destruct (m st) as [t1 [a st1|f]]; simpl; [|done].
  rewrite run_bind.
  destruct (k1 a st1) as [t2 [b st2|f]]; simpl; [|done].
  unfold prepend; simpl. by rewrite app_assoc.
Qed.

Lemma run_index {A B} (v : list A) i x (k : A → M B) st :
  v !! i = Some x → (index v i ≫= k) st = k x st.
Proof. intros H. unfold index. rewrite H. apply run_ret. Qed.

Lemma run_index_none {A B} (v : list A) i (k : A → M B) st :
  v !! i = None → (index v i ≫= k) st = ([], Failed Undefined).
Proof. intros H. unfold index. rewrite H. apply run_fault. Qed.

Lemma run_at {A B} (v : list A) i x (k : A → M B) st :
  v !! i = Some x → (at_ v i ≫= k) st = k x st.
Proof. intros H. unfold at_. rewrite H. apply run_ret. Qed.

Lemma run_deref {A B} (x : A) (k : A → M B) st : (deref (Some x) ≫= k) st = k x st.
Proof. apply run_ret. Qed.

Lemma run_fresh {B} (k : Handle → M B) st :
  (fresh ≫= k) st = k (next_handle st) (set_next_handle (S (next_handle st)) st).
Proof. unfold fresh. by rewrite run_assoc, run_gets, run_assoc, run_modify, run_ret. Qed.

Lemma run_current_per_frame_data {B} d (k : PerFrameData → M B) st :
  per_frame_data st !! current_frame_index st = Some d →
  (current_per_frame_data ≫= k) st = k d st.
Proof.
  intros H. unfold current_per_frame_data.
  rewrite run_assoc, run_gets, run_assoc, run_gets. by apply run_index.
Qed.

Lemma run_copy_to {B} get put data d (k : unit → M B) st :
  per_frame_data st !! current_frame_index st = Some d →
  (copy_to get put data ≫= k) st =
  prepend [EvCopyTo (buffer_handle (get d)) data]
    (k tt (set_per_frame_data
             (<[current_frame_index st := with_contents get put data d]>
                (per_frame_data st)) st)).
Proof.
  intros H. unfold copy_to.
  rewrite run_assoc, (run_current_per_frame_data d) by done.
  by rewrite run_assoc, run_emit, run_assoc, run_gets, run_modify.
Qed.

Lemma run_compute_or_graphics_queue {B} q (k : Queue → M B) st :
  compute_submit_queue st = Some q →
  (compute_or_graphics_queue ≫= k) st = k q st.
Proof.
  unfold compute_submit_queue, compute_or_graphics_queue. intros H.
  rewrite run_assoc, run_gets.
  destruct (compute_queue st) as [q'|].
  - injection H as ->. apply run_ret.
  - rewrite run_assoc, run_gets, H. apply run_deref.
Qed.

Lemma run_record_compute_command_buffer {B} d res (k : unit → M B) st :
  per_frame_data st !! current_frame_index st = Some d →
  rendering_resources st = Some res →
  (record_compute_command_buffer ≫= k) st = prepend (compute_commands res d) (k tt st).
Proof.
  intros Hd Hr. unfold record_compute_command_buffer, compute_commands.
  rewrite run_assoc, (run_current_per_frame_data d) by done.
  rewrite run_assoc, run_emit, run_assoc, run_gets, Hr, run_assoc, run_deref.
  rewrite run_assoc, run_emit, run_assoc, (run_current_per_frame_data d) by done.
  rewrite run_assoc, run_emit, run_assoc, (run_current_per_frame_data d) by done.
  rewrite run_assoc, run_emit, run_emit.
  by rewrite !prepend_prepend.
Qed.

Lemma run_record_command_buffer {B} d res fb sr idx (k : unit → M B) st :
  per_frame_data st !! current_frame_index st = Some d →
  rendering_resources st = Some res →
  framebuffers st !! idx = Some fb →
  (record_command_buffer sr idx ≫= k) st
  = prepend (graphics_commands st d sr res fb) (k tt st).
Proof.
  intros Hd Hr Hf. unfold record_command_buffer, graphics_commands.
  rewrite run_assoc, run_emit.
  rewrite run_assoc, (run_current_per_frame_data d) by done.
  rewrite run_assoc, run_emit, run_assoc, run_gets, run_assoc, run_gets.
  rewrite run_assoc, (run_at _ _ fb) by done.
  rewrite run_assoc, run_gets.
  rewrite run_assoc, run_emit, run_assoc, run_emit, run_assoc, run_emit.
  rewrite run_assoc, run_gets, Hr, run_assoc, run_deref.
  rewrite run_assoc, run_emit.
  rewrite run_assoc, (run_current_per_frame_data d) by done.
  rewrite run_assoc, run_emit, run_assoc, run_emit.
  rewrite run_assoc, run_gets, run_assoc, run_emit, run_assoc, run_emit, run_emit.
  by rewrite !prepend_prepend.
Qed.


Lemma set_per_frame_data_twice x y st :
  set_per_frame_data x (set_per_frame_data y st) = set_per_frame_data x st.
Proof. reflexivity. Qed.

(** Bring the state after an upload back to one update of one slot. *)
Ltac slot_simpl :=
  cbn [per_frame_data current_frame_index scene_camera random_numbers
       render_settings spheres set_per_frame_data];
  repeat match goal with
  | |- context [ {| per_frame_data := ?x; current_frame_index := current_frame_index ?s |} ] =>
      progress change {| compute_queue := compute_queue s;
               graphics_queue := graphics_queue s;
               present_queue := present_queue s;
               vkb_swapchain := vkb_swapchain s;
               swapchain_images := swapchain_images s;
               swapchain_image_views := swapchain_image_views s;
               framebuffers := framebuffers s;
               fullscreen_tri_render_pass := fullscreen_tri_render_pass s;
               sync_resources := sync_resources s;
               frames_inflight_fences := frames_inflight_fences s;
               rendering_resources := rendering_resources s;
               per_frame_data := x;
               current_frame_index := current_frame_index s;
               framebuffer_resized := framebuffer_resized s;
               scene_camera := scene_camera s;
               random_numbers := random_numbers s;
               render_settings := render_settings s;
               spheres := spheres s;
               descriptor_table := descriptor_table s;
               next_handle := next_handle s |}
        with (set_per_frame_data x s)
  end;
  rewrite ?list_insert_insert_eq.

(** *** The closed forms of [draw] *)

(** Lines 112 to 135: up to and including the acquire. *)
Lemma draw_until_acquire B t st d sr res q :
  tick_ready st d sr res q →
  draw B t st =
  prepend (raytrace_events st d res q ++ acquire_events st sr)
    (after_acquire B t sr (uploaded st d)).
Proof.
  intros [Hd Hs Hr Hq].
  assert (Hlt : current_frame_index st < length (per_frame_data st))
    by (eapply lookup_lt_Some; eauto).
  unfold draw.
  rewrite (run_current_per_frame_data d), run_emit by done.
  rewrite (run_current_per_frame_data d), run_emit by done.
  rewrite run_gets, (run_copy_to _ _ _ d) by done.
  rewrite run_gets.
  erewrite run_copy_to by (simpl; apply list_lookup_insert_eq; exact Hlt).
  slot_simpl.
  rewrite run_gets.
  erewrite run_copy_to by (simpl; apply list_lookup_insert_eq; exact Hlt).
  slot_simpl.
  rewrite run_gets.
  erewrite run_copy_to by (simpl; apply list_lookup_insert_eq; exact Hlt).
  slot_simpl.
  fold (upload st d). fold (uploaded st d).
  assert (Hd' : per_frame_data (uploaded st d) !! current_frame_index (uploaded st d)
                = Some (upload st d))
    by (simpl; apply list_lookup_insert_eq; exact Hlt).
  rewrite (run_record_compute_command_buffer (upload st d) res) by done.
  rewrite (run_compute_or_graphics_queue q) by done.
  rewrite (run_current_per_frame_data (upload st d)) by done.
  rewrite (run_current_per_frame_data (upload st d)) by done.
  rewrite run_emit, run_gets, run_gets.
  rewrite (run_index _ _ sr) by done.
  rewrite run_emit, run_emit, run_gets, run_emit.
  rewrite !prepend_prepend. reflexivity.
Qed.

(** The acquire reports [VK_ERROR_OUT_OF_DATE_KHR]: lines 137 to 141. *)
Lemma draw_out_of_date B t st d sr res q :
  tick_ready st d sr res q →
  acquire_result t = VK_ERROR_OUT_OF_DATE_KHR →
  draw B t st =
  prepend (raytrace_events st d res q ++ acquire_events st sr)
    ((swapchain_reinit B (window_extent t);; mret swapchain_out_of_date)
       (uploaded st d)).
Proof.
  intros Hready Ha. rewrite (draw_until_acquire B t st d sr res q Hready).
  unfold after_acquire. by rewrite Ha.
Qed.

(** The acquire succeeds and the image index is within the framebuffers
    and the fence table: lines 147 to 159, then what follows the present. *)
Lemma draw_acquired B t st d sr res q fb f :
  tick_ready st d sr res q →
  acquired (acquire_result t) = true →
  framebuffers st !! acquire_image_index t = Some fb →
  frames_inflight_fences st !! acquire_image_index t = Some f →
  draw B t st =
  prepend (raytrace_events st d res q ++ acquire_events st sr
           ++ graphics_commands st d sr res fb
           ++ guard_events f
           ++ submit_events sr (acquire_image_index t))
    (after_present B t (registered st d sr (acquire_image_index t))).
Proof.
  intros Hready Ha Hfb Hf.
  assert (Hlt : current_frame_index st < length (per_frame_data st))
    by (eapply lookup_lt_Some, ready_slot; eauto).
  rewrite (draw_until_acquire B t st d sr res q Hready).
  assert (Hood : VkResult_eqb (acquire_result t) VK_ERROR_OUT_OF_DATE_KHR = false)
    by (unfold acquired in Ha; by destruct (acquire_result t)).
  assert (Hok : negb (VkResult_eqb (acquire_result t) VK_SUCCESS)
                && negb (VkResult_eqb (acquire_result t) VK_SUBOPTIMAL_KHR) = false)
    by (unfold acquired in Ha; by destruct (acquire_result t)).
  unfold after_acquire. rewrite Hood, Hok, run_ret.
  erewrite (run_record_command_buffer (upload st d) res fb); [| |apply Hready|exact Hfb].
  2: { simpl. apply list_lookup_insert_eq. exact Hlt. }
  rewrite run_gets, (run_index _ _ f) by exact Hf.
  assert (Hidx : acquire_image_index t < length (frames_inflight_fences st))
    by (eapply lookup_lt_Some; eauto).
  unfold guard_events, submit_events, registered.
  destruct (Nat.eqb f VK_NULL_HANDLE).
  - rewrite run_ret, run_gets.
    cbn [frames_inflight_fences uploaded set_per_frame_data].
    destruct (decide _) as [_|Hn]; [|done].
    rewrite run_modify, run_emit, run_emit, run_emit.
    rewrite !prepend_prepend. by rewrite <- ?app_assoc.
  - rewrite run_emit, run_gets.
    cbn [frames_inflight_fences uploaded set_per_frame_data].
    destruct (decide _) as [_|Hn]; [|done].
    rewrite run_modify, run_emit, run_emit, run_emit.
    rewrite !prepend_prepend. by rewrite <- ?app_assoc.
Qed.

(** ** Frame conditions *)

Section Preserves.
Context {X : Type} (proj : RVPT → X).

Lemma preserves_ret {A} (a : A) : preserves proj (mret a).
Proof. intros st a' st' [= _ ->]. done. Qed.

Lemma preserves_emit e : preserves proj (emit e).
Proof. intros st a' st' [= _ ->]. done. Qed.

Lemma preserves_gets {A} (p : RVPT → A) : preserves proj (gets p).
Proof. intros st a' st' [= _ ->]. done. Qed.

Lemma preserves_fault {A} f : preserves proj (@fault A f).
Proof. intros st a' st' [=]. Qed.

Lemma preserves_modify f : (∀ st, proj (f st) = proj st) → preserves proj (modify f).
Proof. intros H st a' st' [= _ <-]. apply H. Qed.

Lemma preserves_bind {A B} (m : M A) (k : A → M B) :
  preserves proj m → (∀ a, preserves proj (k a)) → preserves proj (m ≫= k).
Proof.
  intros Hm Hk st b st'. rewrite run_bind.
  destruct (m st) as [t1 [a st1|f]] eqn:E; simpl; [|done].
  intros H. rewrite <- (Hm st a st1) by (by rewrite E).
  by apply (Hk a st1 b st').
Qed.

Lemma preserves_index {A} (v : list A) i : preserves proj (index v i).
Proof. unfold index. destruct (v !! i); [apply preserves_ret | apply preserves_fault]. Qed.

Lemma preserves_at {A} (v : list A) i : preserves proj (at_ v i).
Proof. unfold at_. destruct (v !! i); [apply preserves_ret | apply preserves_fault]. Qed.

Lemma preserves_deref {A} (o : option A) : preserves proj (deref o).
Proof. destruct o; [apply preserves_ret | apply preserves_fault]. Qed.

Lemma preserves_value {A} (o : option A) : preserves proj (value o).
Proof. destruct o; [apply preserves_ret | apply preserves_fault]. Qed.

Lemma preserves_for_loop body n i :
  (∀ j, preserves proj (body j)) → preserves proj (for_loop i n body).
Proof.
  intros Hb. revert i. induction n as [|n IH]; intros i; simpl.
  - apply preserves_ret.
  - apply preserves_bind; [apply Hb | intros _; apply IH].
Qed.
End Preserves.

(** Decompose a frame-condition goal along the structure of the code. *)
Ltac preserves_step :=
  match goal with
  | |- preserves _ (_ ≫= _) => apply preserves_bind; [|intros ?]
  | |- preserves _ (mret _) => apply preserves_ret
  | |- preserves _ (emit _) => apply preserves_emit
  | |- preserves _ (gets _) => apply preserves_gets
  | |- preserves _ (fault _) => apply preserves_fault
  | |- preserves _ (index _ _) => apply preserves_index
  | |- preserves _ (at_ _ _) => apply preserves_at
  | |- preserves _ (deref _) => apply preserves_deref
  | |- preserves _ (value _) => apply preserves_value
  | |- preserves _ (for_loop _ _ _) => apply preserves_for_loop; intros ?
  | |- preserves _ (modify _) => apply preserves_modify; intros ?; reflexivity
  | |- preserves _ (if ?b then _ else _) => destruct b
  | |- preserves _ (match ?o with _ => _ end) => destruct o
  end.

Ltac preserves_tac := repeat preserves_step.

Lemma preserves_fresh {X} (proj : RVPT → X) :
  (∀ h st, proj (set_next_handle h st) = proj st) → preserves proj fresh.
Proof.
  intros H. unfold fresh. preserves_tac.
  apply preserves_modify. intros; apply H.
Qed.


Lemma preserves_swapchain_get_images {X} (proj : RVPT → X) B :
  outside_swapchain proj → preserves proj (swapchain_get_images B).
Proof.
  intros (_ & _ & Hi & Hv & _). unfold swapchain_get_images.
  preserves_tac; apply preserves_modify; intros; auto.
Qed.

Lemma preserves_create_framebuffers {X} (proj : RVPT → X) :
  (∀ v st, proj (set_framebuffers v st) = proj st) →
  (∀ v st, proj (set_next_handle v st) = proj st) →
  preserves proj create_framebuffers.
Proof.
  intros Hf Hn. unfold create_framebuffers.
  preserves_tac; try (apply preserves_modify; intros; auto).
  by apply preserves_fresh.
Qed.

Lemma preserves_swapchain_reinit {X} (proj : RVPT → X) B w :
  outside_swapchain proj → preserves proj (swapchain_reinit B w).
Proof.
  intros H. unfold swapchain_reinit.
  preserves_tac;
    try (by apply preserves_swapchain_get_images);
    try (destruct H as (Hf & _ & _ & _ & Hn); by apply preserves_create_framebuffers);
    destruct H as (Hf & Hs & _); apply preserves_modify; intros; auto.
Qed.

(** ** Trace conditions *)

Section EmitsOnly.
Context (P : Event → Prop).

Lemma emits_only_ret {A} (a : A) : emits_only P (mret a).
Proof. intros st. constructor. Qed.

Lemma emits_only_emit e : P e → emits_only P (emit e).
Proof. intros H st. by repeat constructor. Qed.

Lemma emits_only_gets {A} (p : RVPT → A) : emits_only P (gets p).
Proof. intros st. constructor. Qed.

Lemma emits_only_fault {A} f : emits_only P (@fault A f).
Proof. intros st. constructor. Qed.

Lemma emits_only_modify f : emits_only P (modify f).
Proof. intros st. constructor. Qed.

Lemma emits_only_bind {A B} (m : M A) (k : A → M B) :
  emits_only P m → (∀ a, emits_only P (k a)) → emits_only P (m ≫= k).
Proof.
  intros Hm Hk st. rewrite run_bind. specialize (Hm st).
  destruct (m st) as [t1 [a st1|f]]; simpl in *; [|done].
  apply Forall_app. split; [done | apply Hk].
Qed.

Lemma emits_only_index {A} (v : list A) i : emits_only P (index v i).
Proof. unfold index. destruct (v !! i); [apply emits_only_ret | apply emits_only_fault]. Qed.

Lemma emits_only_at {A} (v : list A) i : emits_only P (at_ v i).
Proof. unfold at_. destruct (v !! i); [apply emits_only_ret | apply emits_only_fault]. Qed.

Lemma emits_only_deref {A} (o : option A) : emits_only P (deref o).
Proof. destruct o; [apply emits_only_ret | apply emits_only_fault]. Qed.

Lemma emits_only_value {A} (o : option A) : emits_only P (value o).
Proof. destruct o; [apply emits_only_ret | apply emits_only_fault]. Qed.

Lemma emits_only_for_loop body n i :
  (∀ j, emits_only P (body j)) → emits_only P (for_loop i n body).
Proof.
  intros Hb. revert i. induction n as [|n IH]; intros i; simpl.
  - apply emits_only_ret.
  - apply emits_only_bind; [apply Hb | intros _; apply IH].
Qed.

Lemma emits_only_fresh : emits_only P fresh.
Proof.
  unfold fresh. apply emits_only_bind; [apply emits_only_gets|intros h].
  apply emits_only_bind; [apply emits_only_modify|intros _; apply emits_only_ret].
Qed.
End EmitsOnly.

Ltac emits_step :=
  match goal with
  | |- emits_only _ (_ ≫= _) => apply emits_only_bind; [|intros ?]
  | |- emits_only _ (mret _) => apply emits_only_ret
  | |- emits_only _ (emit _) => by (apply emits_only_emit; simpl)
  | |- emits_only _ (gets _) => apply emits_only_gets
  | |- emits_only _ (fault _) => apply emits_only_fault
  | |- emits_only _ (modify _) => apply emits_only_modify
  | |- emits_only _ (index _ _) => apply emits_only_index
  | |- emits_only _ (at_ _ _) => apply emits_only_at
  | |- emits_only _ (deref _) => apply emits_only_deref
  | |- emits_only _ (value _) => apply emits_only_value
  | |- emits_only _ fresh => apply emits_only_fresh
  | |- emits_only _ (for_loop _ _ _) => apply emits_only_for_loop; intros ?
  | |- emits_only _ (if ?b then _ else _) => destruct b
  | |- emits_only _ (match ?o with _ => _ end) => destruct o
  end.

Ltac emits_tac := repeat emits_step.

Lemma emits_only_weaken {A} (P Q : Event → Prop) (m : M A) :
  (∀ e, P e → Q e) → emits_only P m → emits_only Q m.
Proof. intros H Hm st. eapply Forall_impl; [apply Hm | apply H]. Qed.

Lemma swapchain_get_images_silent B : emits_only (λ _, False) (swapchain_get_images B).
Proof. unfold swapchain_get_images. emits_tac. Qed.

Lemma create_framebuffers_events : emits_only swapchain_event create_framebuffers.
Proof. unfold create_framebuffers. emits_tac. Qed.

Lemma swapchain_reinit_events B w : emits_only swapchain_event (swapchain_reinit B w).
Proof.
  unfold swapchain_reinit. emits_tac.
  - eapply emits_only_weaken; [|apply swapchain_get_images_silent]. done.
  - apply create_framebuffers_events.
Qed.

(** ** The swapchain rebuild in closed form *)

Lemma run_framebuffer_loop n : ∀ i (st : RVPT),
  i + n ≤ length (swapchain_image_views st) →
  for_loop i n (λ i,
    views ← gets swapchain_image_views;
    view ← index views i;
    rp ← gets fullscreen_tri_render_pass;
    sc ← gets vkb_swapchain;
    h ← fresh;
    fbs ← gets framebuffers;
    modify (set_framebuffers
      (fbs ++ [ {| framebuffer := h; fb_render_pass := rp;
                   fb_extent := extent sc; fb_image_views := [view] |} ]))) st
  = ([], Done tt
       (set_next_handle (next_handle st + n)
          (set_framebuffers
             (framebuffers st ++
              new_framebuffers (fullscreen_tri_render_pass st)
                (extent (vkb_swapchain st)) (next_handle st)
                (take n (drop i (swapchain_image_views st)))) st))).
Proof.
  induction n as [|n IH]; intros i st Hle.
  - simpl. rewrite Nat.add_0_r, app_nil_r.
    by destruct st.
  - destruct (swapchain_image_views st !! i) as [v|] eqn:Hv.
    2: { apply lookup_ge_None in Hv. lia. }
    cbn [for_loop].
    rewrite run_assoc, run_gets, run_assoc, (run_index _ _ v) by done.
    rewrite run_assoc, run_gets, run_assoc, run_gets, run_assoc, run_fresh.
    rewrite run_assoc, run_gets, run_modify.
    rewrite IH by (simpl; lia).
    rewrite (drop_S _ _ _ Hv). 
    cbn [take new_framebuffers].
    cbn. rewrite <- app_assoc. cbn.
    by replace (S (next_handle st + n)) with (next_handle st + S n) by lia.
Qed.

Lemma run_destroy_framebuffers {A} (old : list Framebuffer) (k : unit → M A) st :
  ((if old is [] then mret tt else emit (EvDestroyFramebuffers old)) ≫= k) st =
  prepend (if old is [] then [] else [EvDestroyFramebuffers old]) (k tt st).
Proof. destruct old; [by rewrite run_ret, prepend_nil | by rewrite run_emit]. Qed.

Lemma run_create_framebuffers {A} (k : unit → M A) st :
  image_count (vkb_swapchain st) ≤ length (swapchain_image_views st) →
  (create_framebuffers ≫= k) st =
  prepend (if framebuffers st is [] then [] else [EvDestroyFramebuffers (framebuffers st)])
    (k tt (with_framebuffers st)).
Proof.
  intros Hle. unfold create_framebuffers.
  rewrite run_assoc, run_gets, run_assoc, run_destroy_framebuffers.
  rewrite run_assoc, run_modify, run_assoc, run_gets, run_bind.
  rewrite run_framebuffer_loop by (simpl; lia).
  cbn [fst snd]. by rewrite prepend_nil.
Qed.

Lemma run_swapchain_get_images {A} B (k : bool → M A) st :
  (swapchain_get_images B ≫= k) st = k (with_images B st).1 (with_images B st).2.
Proof.
  unfold swapchain_get_images, with_images.
  rewrite run_assoc, run_gets.
  destruct (get_images B (vkb_swapchain st)) as [imgs|]; [|apply run_ret].
  rewrite run_assoc, run_modify. cbn [vkb_swapchain set_swapchain_images].
  destruct (get_image_views B (vkb_swapchain st)) as [views|]; [|apply run_ret].
  by rewrite run_assoc, run_modify, run_ret.
Qed.

Lemma run_swapchain_reinit {A} B w (k : bool → M A) st :
  rebuild_defined B w st →
  (swapchain_reinit B w ≫= k) st =
  prepend (rebuild_events B w st) (k (rebuilt B w st).1 (rebuilt B w st).2).
Proof.
  unfold rebuild_defined, swapchain_reinit, rebuilt, rebuild_events. intros Hdef.
  rewrite run_assoc, run_gets, run_assoc, run_destroy_framebuffers.
  rewrite run_assoc, run_modify, run_assoc, run_gets, run_assoc, run_emit.
  rewrite run_assoc, run_gets, run_assoc, run_emit.
  cbn [swapchain_image_views vkb_swapchain set_framebuffers].
  destruct (build B w (Some (vkb_swapchain st))) as [sc|].
  - rewrite run_assoc, run_emit, run_assoc, run_modify.
    rewrite run_assoc, run_swapchain_get_images.
    rewrite run_assoc, run_create_framebuffers.
    + assert (Hnil : framebuffers
        (with_images B (set_vkb_swapchain sc (set_framebuffers [] st))).2 = []).
      { unfold with_images. by repeat case_match. }
      rewrite Hnil, prepend_nil, run_ret, !prepend_prepend.
      by rewrite <- !app_assoc.
    + assert (Hsc : vkb_swapchain
        (with_images B (set_vkb_swapchain sc (set_framebuffers [] st))).2 = sc).
      { unfold with_images. by repeat case_match. }
      assert (Hvs : swapchain_image_views
        (with_images B (set_vkb_swapchain sc (set_framebuffers [] st))).2
        = views_after B sc (swapchain_image_views st)).
      { unfold with_images, views_after. cbn [vkb_swapchain set_vkb_swapchain].
        by repeat case_match. }
      by rewrite Hsc, Hvs.
  - rewrite run_ret, !prepend_prepend. by rewrite <- !app_assoc.
Qed.

(** ** Slot creation in closed form *)

Lemma run_new_buffer {A} size (k : Buffer → M A) st :
  (new_buffer size ≫= k) st =
  k {| buffer_handle := next_handle st; buffer_size := size; buffer_contents := NoData |}
    (set_next_handle (S (next_handle st)) st).
Proof. unfold new_buffer. by rewrite run_assoc, run_fresh, run_ret. Qed.

Lemma run_update_descriptor_sets {A} ws (k : unit → M A) st :
  (update_descriptor_sets ws ≫= k) st =
  prepend [EvUpdateDescriptorSets ws]
    (k tt (set_descriptor_table (rev ws ++ descriptor_table st) st)).
Proof. unfold update_descriptor_sets. by rewrite run_assoc, run_emit, run_modify. Qed.

Lemma run_add_per_frame_data {A} g q res (k : unit → M A) st :
  graphics_queue st = Some g →
  compute_submit_queue st = Some q →
  rendering_resources st = Some res →
  (add_per_frame_data ≫= k) st =
  prepend
    [ EvUpdateDescriptorSets
        (sampling_writes (new_slot (next_handle st) q (length (spheres st))));
      EvUpdateDescriptorSets
        (compute_writes (new_slot (next_handle st) q (length (spheres st)))) ]
    (k tt (with_new_slot q st)).
Proof.
  intros Hg Hq Hr. unfold add_per_frame_data.
  rewrite run_assoc, run_gets, Hg, run_assoc, run_deref.
  rewrite run_assoc, run_fresh.
  rewrite run_assoc, run_new_buffer, run_assoc, run_new_buffer.
  rewrite run_assoc, run_new_buffer, run_assoc, run_gets, run_assoc, run_new_buffer.
  rewrite run_assoc, (run_compute_or_graphics_queue q) by exact Hq.
  rewrite run_assoc, run_fresh, run_assoc, run_fresh.
  rewrite run_assoc, run_gets. cbn [rendering_resources set_next_handle].
  rewrite Hr, run_assoc, run_deref, run_assoc, run_fresh.
  rewrite run_assoc, run_gets. cbn [rendering_resources set_next_handle].
  rewrite Hr, run_assoc, run_deref, run_assoc, run_fresh.
  rewrite run_assoc, run_update_descriptor_sets.
  rewrite run_assoc, run_update_descriptor_sets.
  rewrite run_modify, prepend_prepend.
  cbn [next_handle set_next_handle spheres buffer_handle].
  unfold with_new_slot, new_slot, sampling_writes, compute_writes.
  cbn [image_descriptor_set raytracing_descriptor_sets output_image image_handle
       camera_uniform random_uniform settings_uniform sphere_buffer buffer_handle].
  replace (next_handle st + 1) with (S (next_handle st)) by lia.
  replace (next_handle st + 2) with (S (S (next_handle st))) by lia.
  replace (next_handle st + 3) with (S (S (S (next_handle st)))) by lia.
  replace (next_handle st + 4) with (S (S (S (S (next_handle st))))) by lia.
  replace (next_handle st + 5) with (S (S (S (S (S (next_handle st)))))) by lia.
  replace (next_handle st + 6) with (S (S (S (S (S (S (next_handle st))))))) by lia.
  replace (next_handle st + 7) with (S (S (S (S (S (S (S (next_handle st)))))))) by lia.
  replace (next_handle st + 8) with (S (S (S (S (S (S (S (S (next_handle st))))))))) by lia.
  replace (next_handle st + 9) with (S (S (S (S (S (S (S (S (S (next_handle st)))))))))) by lia.
  reflexivity.
Qed.

Lemma record_command_buffer_events sr idx :
  emits_only (present_side sr) (record_command_buffer sr idx).
Proof. unfold record_command_buffer, current_per_frame_data. emits_tac. Qed.

Lemma swapchain_event_present_side sr e : swapchain_event e → present_side sr e.
Proof. by destruct e. Qed.

Lemma after_present_events B t sr : emits_only (present_side sr) (after_present B t).
Proof.
  unfold after_present. emits_tac.
  eapply emits_only_weaken; [apply swapchain_event_present_side|].
  apply swapchain_reinit_events.
Qed.

Lemma after_acquire_events B t sr : emits_only (present_side sr) (after_acquire B t sr).
Proof.
  unfold after_acquire. emits_tac;
    first [ apply record_command_buffer_events
          | apply after_present_events
          | eapply emits_only_weaken;
            [apply swapchain_event_present_side | apply swapchain_reinit_events] ].
Qed.

(** A filter that rejects every event of a trace leaves nothing. *)
Lemma filter_none (p : Event → bool) (P : Event → Prop) tr :
  (∀ e, P e → p e = false) → Forall P tr → List.filter p tr = [].
Proof.
  intros HP. induction 1 as [|e tr He _ IH]; [done|].
  simpl. by rewrite (HP e He).
Qed.

(** The trace of a ready tick: the compute part, the acquire, and then
    only calls of the present side. *)
Lemma draw_trace B t st d sr res q :
  tick_ready st d sr res q →
  ∃ rest, trace_of (draw B t) st
          = raytrace_events st d res q ++ acquire_events st sr ++ rest
          ∧ Forall (present_side sr) rest.
Proof.
  intros Hready. exists (after_acquire B t sr (uploaded st d)).1.
  unfold trace_of. rewrite (draw_until_acquire B t st d sr res q Hready).
  unfold prepend. cbn [fst]. rewrite <- app_assoc.
  split; [done | apply after_acquire_events].
Qed.

(** ** Independence from the compute queue *)

Section IgnoresComputeQueue.
Lemma icq_ret {A} (a : A) : ignores_compute_queue (mret a).
Proof. intros c st. reflexivity. Qed.

Lemma icq_emit e : ignores_compute_queue (emit e).
Proof. intros c st. reflexivity. Qed.

Lemma icq_fault {A} f : ignores_compute_queue (@fault A f).
Proof. intros c st. reflexivity. Qed.

Lemma icq_gets {A} (p : RVPT → A) :
  (∀ c st, p (set_compute_queue c st) = p st) → ignores_compute_queue (gets p).
Proof. intros H c st. unfold gets. by rewrite H. Qed.

Lemma icq_modify f :
  (∀ c st, f (set_compute_queue c st) = set_compute_queue c (f st)) →
  ignores_compute_queue (modify f).
Proof. intros H c st. unfold modify. by rewrite H. Qed.

Lemma icq_bind {A B} (m : M A) (k : A → M B) :
  ignores_compute_queue m → (∀ a, ignores_compute_queue (k a)) →
  ignores_compute_queue (m ≫= k).
Proof.
  intros Hm Hk c st. rewrite !run_bind. rewrite !(Hm c st). simpl.
  destruct (m st) as [t1 [a st1|f]]; simpl; [|done].
  rewrite !(Hk a c st1). unfold prepend. simpl.
  by destruct (k a st1) as [t2 [b st2|f]].
Qed.

Lemma icq_index {A} (v : list A) i : ignores_compute_queue (index v i).
Proof. unfold index. destruct (v !! i); [apply icq_ret | apply icq_fault]. Qed.

Lemma icq_at {A} (v : list A) i : ignores_compute_queue (at_ v i).
Proof. unfold at_. destruct (v !! i); [apply icq_ret | apply icq_fault]. Qed.

Lemma icq_deref {A} (o : option A) : ignores_compute_queue (deref o).
Proof. destruct o; [apply icq_ret | apply icq_fault]. Qed.

Lemma icq_for_loop body n i :
  (∀ j, ignores_compute_queue (body j)) → ignores_compute_queue (for_loop i n body).
Proof.
  intros Hb. revert i. induction n as [|n IH]; intros i; simpl.
  - apply icq_ret.
  - apply icq_bind; [apply Hb | intros _; apply IH].
Qed.
End IgnoresComputeQueue.

Ltac icq_step :=
  match goal with
  | |- ignores_compute_queue (_ ≫= _) => apply icq_bind; [|intros ?]
  | |- ignores_compute_queue (mret _) => apply icq_ret
  | |- ignores_compute_queue (emit _) => apply icq_emit
  | |- ignores_compute_queue (fault _) => apply icq_fault
  | |- ignores_compute_queue (gets _) => by (apply icq_gets)
  | |- ignores_compute_queue (modify _) => by (apply icq_modify)
  | |- ignores_compute_queue (index _ _) => apply icq_index
  | |- ignores_compute_queue (at_ _ _) => apply icq_at
  | |- ignores_compute_queue (deref _) => apply icq_deref
  | |- ignores_compute_queue (for_loop _ _ _) => apply icq_for_loop; intros ?
  | |- ignores_compute_queue (if ?b then _ else _) => destruct b
  | |- ignores_compute_queue (match ?o with _ => _ end) => destruct o
  end.

Ltac icq_tac := repeat icq_step.

Lemma icq_swapchain_reinit B w : ignores_compute_queue (swapchain_reinit B w).
Proof.
  unfold swapchain_reinit, swapchain_get_images, create_framebuffers, fresh.
  icq_tac.
Qed.

Lemma icq_after_acquire B t sr : ignores_compute_queue (after_acquire B t sr).
Proof.
  unfold after_acquire, after_present, record_command_buffer, current_per_frame_data.
  icq_tac; apply icq_swapchain_reinit.
Qed.

Lemma preserves_after_present {X} (proj : RVPT → X) B t :
  outside_swapchain proj →
  (∀ v st, proj (set_framebuffer_resized v st) = proj st) →
  (∀ v st, proj (set_current_frame_index v st) = proj st) →
  preserves proj (after_present B t).
Proof.
  intros Hs Hr Hc. unfold after_present.
  preserves_tac;
    first [ by apply preserves_swapchain_reinit
          | apply preserves_modify; intros; auto ].
Qed.

Lemma after_present_fences B t s r s' :
  result_of (after_present B t) s = Done r s' →
  frames_inflight_fences s' = frames_inflight_fences s.
Proof. by apply (preserves_after_present frames_inflight_fences B t). Qed.

(** When a tick that acquired an image finishes, the image's entry in
    the fence table is the command fence of the tick's sync resources,
    and the other entries are as before. *)
Lemma draw_registers_fence B t st d sr res q fb f r st' :
  tick_ready st d sr res q →
  acquired (acquire_result t) = true →
  framebuffers st !! acquire_image_index t = Some fb →
  frames_inflight_fences st !! acquire_image_index t = Some f →
  result_of (draw B t) st = Done r st' →
  frames_inflight_fences st'
  = <[acquire_image_index t := command_fence sr]> (frames_inflight_fences st).
Proof.
  intros Hready Ha Hfb Hf. unfold result_of.
  rewrite (draw_acquired B t st d sr res q fb f Hready Ha Hfb Hf).
  unfold prepend. cbn [snd]. intros Hdone.
  by rewrite (after_present_fences B t _ r st' Hdone).
Qed.

(** ** Partial correctness *)

Lemma hoare_bind {A B} P (m : M A) (k : A → M B) R Q :
  hoare P m R → (∀ a, hoare (R a) (k a) Q) → hoare P (m ≫= k) Q.
Proof.
  intros Hm Hk st b st' HP. rewrite run_bind.
  destruct (m st) as [t1 [a st1|f]] eqn:E; simpl; [|done].
  intros H. eapply (Hk a st1); [|done].
  eapply Hm; [done|]. by rewrite E.
Qed.

Lemma hoare_preserves {A X} (proj : RVPT → X) (P : X → Prop) (m : M A) :
  preserves proj m → hoare (λ st, P (proj st)) m (λ _ st, P (proj st)).
Proof. intros Hm st a st' HP H. by rewrite (Hm st a st' H). Qed.

Lemma hoare_consequence {A} (P P' : RVPT → Prop) (m : M A) (Q Q' : A → RVPT → Prop) :
  (∀ st, P' st → P st) → (∀ a st, Q a st → Q' a st) →
  hoare P m Q → hoare P' m Q'.
Proof. intros HP HQ H st a st' HP' Hd. apply HQ. eapply H; eauto. Qed.

(** The end of a tick: the cursor moves on by one, modulo the number of
    sync resources. *)
Lemma run_advance s :
  (n ← gets (λ st, length (sync_resources st));
   i ← gets current_frame_index;
   (if Nat.eqb n 0 then fault Undefined
    else modify (set_current_frame_index ((i + 1) `mod` n)));;
   mret success) s
  = if Nat.eqb (length (sync_resources s)) 0 then ([], Failed Undefined)
    else ([], Done success
            (set_current_frame_index
               ((current_frame_index s + 1) `mod` length (sync_resources s)) s)).
Proof.
  rewrite run_gets, run_gets.
  destruct (Nat.eqb (length (sync_resources s)) 0).
  - by rewrite run_fault.
  - by rewrite run_modify.
Qed.

Lemma after_present_done B t s r s' :
  result_of (after_present B t) s = Done r s' →
  r = success
  ∧ length (sync_resources s) ≠ 0
  ∧ sync_resources s' = sync_resources s
  ∧ current_frame_index s'
    = (current_frame_index s + 1) `mod` length (sync_resources s).
Proof.
  unfold result_of, after_present. rewrite run_gets, run_bind.
  match goal with
  | |- context [ prepend (?m0 s).1 _ ] => set (m := m0)
  end.
  assert (Hm : preserves (λ st, (sync_resources st, current_frame_index st)) m).
  { subst m. preserves_tac. by apply preserves_swapchain_reinit. }
  destruct (m s) as [tr [[] s1|f]] eqn:E; cbn [fst snd]; [|done].
  specialize (Hm s tt s1). rewrite E in Hm. specialize (Hm eq_refl).
  injection Hm as Hsr Hcur.
  unfold prepend. cbn [snd]. rewrite run_advance.
  destruct (Nat.eqb (length (sync_resources s1)) 0) eqn:En; cbn [snd]; [done|].
  intros [= <- <-]. cbn [sync_resources current_frame_index set_current_frame_index].
  rewrite Hcur, Hsr. apply Nat.eqb_neq in En. rewrite Hsr in En. done.
Qed.

Lemma fixed_parts_outside_swapchain : outside_swapchain fixed_parts.
Proof. by repeat split. Qed.

Lemma preserves_record_command_buffer {X} (proj : RVPT → X) sr idx :
  preserves proj (record_command_buffer sr idx).
Proof. unfold record_command_buffer, current_per_frame_data. preserves_tac. Qed.

Lemma preserves_after_acquire {X} (proj : RVPT → X) B t sr :
  outside_swapchain proj →
  (∀ v st, proj (set_framebuffer_resized v st) = proj st) →
  (∀ v st, proj (set_current_frame_index v st) = proj st) →
  (∀ v st, proj (set_frames_inflight_fences v st) = proj st) →
  preserves proj (after_acquire B t sr).
Proof.
  intros Hs Hr Hc Hf. unfold after_acquire.
  preserves_tac;
    first [ by apply preserves_swapchain_reinit
          | by apply preserves_after_present
          | apply preserves_record_command_buffer
          | apply preserves_modify; intros; auto ].
Qed.

(** What follows the acquire keeps the cursor on a sync resource. *)
Lemma after_acquire_cursor B t sr s r s' :
  current_frame_index s < length (sync_resources s) →
  result_of (after_acquire B t sr) s = Done r s' →
  current_frame_index s' < length (sync_resources s').
Proof.
  unfold result_of, after_acquire. intros Hlt.
  destruct (VkResult_eqb (acquire_result t) VK_ERROR_OUT_OF_DATE_KHR).
  - intros H.
    assert (Hp : preserves (λ st, (sync_resources st, current_frame_index st))
                   (swapchain_reinit B (window_extent t);; mret swapchain_out_of_date)).
    { preserves_tac. by apply preserves_swapchain_reinit. }
    specialize (Hp s r s' H). injection Hp as -> ->. done.
  - revert s r s' Hlt.
    change (hoare (λ s, current_frame_index s < length (sync_resources s))
      ((if negb (VkResult_eqb (acquire_result t) VK_SUCCESS)
           && negb (VkResult_eqb (acquire_result t) VK_SUBOPTIMAL_KHR)
        then fault Aborted else mret tt);;
       record_command_buffer sr (acquire_image_index t);;
       fences ← gets frames_inflight_fences;
       f ← index fences (acquire_image_index t);
       (if Nat.eqb f VK_NULL_HANDLE then mret tt else emit (EvWaitForFences f));;
       fences ← gets frames_inflight_fences;
       (if decide (acquire_image_index t < length fences)
        then modify (λ st, set_frames_inflight_fences
               (<[acquire_image_index t := command_fence sr]>
                  (frames_inflight_fences st)) st)
        else fault Undefined);;
       emit (EvFenceReset (command_fence sr));;
       emit (EvSyncSubmit sr);;
       emit (EvSyncPresent sr (acquire_image_index t));;
       after_present B t)
      (λ _ s', current_frame_index s' < length (sync_resources s'))).
    set (I := λ s : RVPT, current_frame_index s < length (sync_resources s)).
    assert (Hkeep : ∀ A (m : M A),
      preserves (λ st, (sync_resources st, current_frame_index st)) m →
      hoare I m (λ _, I)).
    { intros A m Hm. subst I.
      apply (hoare_preserves (λ st, (sync_resources st, current_frame_index st))
               (λ x, x.2 < length x.1) m Hm). }
    repeat match goal with
    | |- hoare _ (_ ≫= _) _ =>
        eapply hoare_bind;
          [ apply Hkeep; preserves_tac;
            try apply preserves_record_command_buffer;
            try (apply preserves_modify; intros; reflexivity)
          | intros ? ]
    end.
    intros s0 r0 s1 HI Hd. subst I.
    destruct (after_present_done B t s0 r0 s1 Hd) as (_ & Hn & Hsr & Hcur).
    rewrite Hcur, Hsr. by apply Nat.mod_upper_bound.
Qed.

(** ** The fencing monitor *)

Lemma fenced_app G pending t1 t2 :
  fenced G pending (t1 ++ t2)
  = fenced G pending t1 && fenced G (pending_after pending t1) t2.
Proof.
  revert pending. induction t1 as [|e t1 IH]; intros pending; [done|].
  cbn [app fenced pending_after fold_left]. rewrite IH.
  by rewrite andb_assoc.
Qed.

Lemma may_touch_unowned G pending h :
  (∀ g, g ∈ G → h ∉ g.2) → may_touch G pending h = true.
Proof.
  intros H. unfold may_touch. apply forallb_forall. intros g Hg.
  apply list_elem_of_In in Hg. apply orb_true_iff. left.
  apply negb_true_iff, bool_decide_eq_false. by apply H.
Qed.

Lemma fenced_unguarded G tr :
  Forall (unguarded G) tr → ∀ pending, fenced G pending tr = true.
Proof.
  induction 1 as [|e tr He _ IH]; intros pending; [done|].
  cbn [fenced]. rewrite IH, andb_true_r.
  destruct e; try done; by apply may_touch_unowned.
Qed.

(** Once the host has waited on a slot's fence it may touch the slot's
    objects, whatever was pending before. *)
Lemma may_touch_after_wait G pending f objs h :
  slots_separate G = true → (f, objs) ∈ G → h ∈ objs →
  may_touch G (filter (λ g, g ≠ f) pending) h = true.
Proof.
  intros Hsep Hin Hh. unfold may_touch. apply forallb_forall. intros g Hg.
  apply orb_true_iff.
  destruct (decide (h ∈ g.2)) as [Hown|Hown].
  - right. apply negb_true_iff, bool_decide_eq_false.
    unfold slots_separate in Hsep.
    rewrite forallb_forall in Hsep.
    specialize (Hsep (f, objs)). rewrite <- list_elem_of_In in Hsep.
    specialize (Hsep Hin). rewrite forallb_forall in Hsep.
    specialize (Hsep g Hg). rewrite forallb_forall in Hsep.
    specialize (Hsep h). rewrite <- list_elem_of_In in Hsep.
    specialize (Hsep Hh). cbn [fst snd] in Hsep.
    apply orb_true_iff in Hsep as [Hsep|Hsep].
    + apply negb_true_iff, bool_decide_eq_false in Hsep. done.
    + apply Nat.eqb_eq in Hsep.
      intros Hf. apply list_elem_of_filter in Hf. destruct Hf as [Hne _].
      apply Hne. by symmetry.
  - left. by apply negb_true_iff, bool_decide_eq_false.
Qed.

(** The compute part of a tick passes the monitor from any set of
    pending fences: it starts by waiting on the fence of its slot. *)
Lemma raytrace_events_fenced st d res q pending :
  slots_separate (fence_guards st) = true →
  d ∈ per_frame_data st →
  fenced (fence_guards st) pending (raytrace_events st d res q) = true.
Proof.
  intros Hsep Hd.
  assert (Hin : slot_guard d ∈ fence_guards st)
    by (unfold fence_guards; by apply list_elem_of_fmap_2).
  assert (Htouch : ∀ h, h ∈ guarded_objects d →
    may_touch (fence_guards st)
      (filter (λ g, g ≠ raytrace_work_fence d) pending) h = true).
  { intros h Hh. by eapply may_touch_after_wait. }
  unfold raytrace_events, compute_commands.
  cbn [app fenced pending_step].
  rewrite !Htouch; [done|unfold guarded_objects; repeat constructor..].
Qed.

Lemma present_side_unguarded st sr e :
  graphics_separate st = true → sr ∈ sync_resources st →
  present_side sr e → unguarded (fence_guards st) e.
Proof.
  intros Hsep Hsr He.
  assert (Hcb : ∀ g, g ∈ fence_guards st → cb_handle (command_buffer sr) ∉ g.2).
  { intros g Hg. unfold graphics_separate in Hsep.
    rewrite forallb_forall in Hsep. specialize (Hsep sr).
    rewrite <- list_elem_of_In in Hsep. specialize (Hsep Hsr).
    rewrite forallb_forall in Hsep. specialize (Hsep g).
    rewrite <- list_elem_of_In in Hsep. specialize (Hsep Hg).
    by apply negb_true_iff, bool_decide_eq_false in Hsep. }
  destruct e as [| | | |h c| | | | | | | | |]; try done.
  destruct c; simpl in He; try done; by subst h.
Qed.

(** One ready tick passes the monitor from any set of pending fences. *)
Lemma draw_fenced B t st d sr res q pending :
  tick_ready st d sr res q →
  slots_separate (fence_guards st) = true →
  graphics_separate st = true →
  fenced (fence_guards st) pending (trace_of (draw B t) st) = true.
Proof.
  intros Hready Hsep Hgsep.
  destruct (draw_trace B t st d sr res q Hready) as (rest & -> & Hrest).
  rewrite fenced_app. apply andb_true_iff. split.
  - apply raytrace_events_fenced; [done|].
    eapply list_elem_of_lookup_2, ready_slot, Hready.
  - apply fenced_unguarded.
    assert (Hsr : sr ∈ sync_resources st)
      by (eapply list_elem_of_lookup_2, ready_sync, Hready).
    apply Forall_app. split.
    + unfold acquire_events. repeat constructor.
      apply (present_side_unguarded st sr (EvCmd _ CmdReset)); done.
    + eapply Forall_impl; [exact Hrest|].
      intros e. by apply present_side_unguarded.
Qed.

(** *** What a tick keeps *)

Lemma renderer_ok_ready st :
  renderer_ok st → ∃ d sr res q, tick_ready st d sr res q.
Proof.
  intros [Hlen Hcur [res Hres] [q Hq]].
  destruct (lookup_lt_is_Some_2 (per_frame_data st) (current_frame_index st))
    as [d Hd]; [lia|].
  destruct (lookup_lt_is_Some_2 (sync_resources st) (current_frame_index st))
    as [sr Hsr]; [lia|].
  by exists d, sr, res, q.
Qed.

Lemma fixed_parts_uploaded st d :
  per_frame_data st !! current_frame_index st = Some d →
  fixed_parts (uploaded st d) = fixed_parts st.
Proof.
  intros Hd. unfold fixed_parts, fence_guards, uploaded.
  cbn [per_frame_data sync_resources rendering_resources compute_queue
       graphics_queue set_per_frame_data].
  rewrite list_fmap_insert, length_insert.
  change (slot_guard (upload st d)) with (slot_guard d).
  rewrite (list_insert_id (slot_guard <$> per_frame_data st)); [done|].
  by rewrite list_lookup_fmap, Hd.
Qed.

Lemma draw_maintains B t st r st' :
  renderer_ok st →
  result_of (draw B t) st = Done r st' →
  renderer_ok st' ∧ fixed_parts st' = fixed_parts st.
Proof.
  intros Hok Hdone.
  destruct (renderer_ok_ready st Hok) as (d & sr & res & q & Hready).
  unfold result_of in Hdone.
  rewrite (draw_until_acquire B t st d sr res q Hready) in Hdone.
  unfold prepend in Hdone. cbn [snd] in Hdone.
  assert (Hfix : fixed_parts st' = fixed_parts st).
  { rewrite <- (fixed_parts_uploaded st d) by apply Hready.
    by apply (preserves_after_acquire fixed_parts B t sr
                fixed_parts_outside_swapchain) in Hdone. }
  split; [|done].
  pose proof (after_acquire_cursor B t sr (uploaded st d) r st') as Hcur.
  destruct Hok as [Hlen Hc Hres Hq].
  specialize (Hcur Hc Hdone).
  unfold fixed_parts in Hfix. injection Hfix as Hg Hl Hs Hr Hcq Hgq.
  split.
  - by rewrite Hl, Hs.
  - done.
  - by rewrite Hr.
  - unfold compute_submit_queue. by rewrite Hcq, Hgq.
Qed.

Lemma trace_of_ticks_cons B t ts st :
  trace_of (ticks B (t :: ts)) st
  = trace_of (draw B t) st
    ++ match result_of (draw B t) st with
       | Done _ st' => trace_of (ticks B ts) st'
       | Failed _ => []
       end.
Proof.
  unfold trace_of, result_of. cbn [ticks]. rewrite run_bind.
  destruct (draw B t st) as [tr [r st'|f]]; cbn [fst snd].
  - rewrite run_bind. unfold prepend. cbn [fst].
    destruct (ticks B ts st') as [tr' [rs st''|f]]; cbn [fst snd]; [|done].
    by rewrite app_nil_r.
  - by rewrite app_nil_r.
Qed.

Lemma graphics_separate_fixed st st' :
  fixed_parts st' = fixed_parts st → graphics_separate st' = graphics_separate st.
Proof.
  unfold fixed_parts, graphics_separate. intros [= Hg _ Hs _ _ _]. by rewrite Hg, Hs.
Qed.

(** Any number of ticks passes the monitor. *)
Lemma ticks_fenced B ts : ∀ st pending,
  renderer_ok st →
  slots_separate (fence_guards st) = true →
  graphics_separate st = true →
  fenced (fence_guards st) pending (trace_of (ticks B ts) st) = true.
Proof.
  induction ts as [|t ts IH]; intros st pending Hok Hsep Hgsep; [done|].
  rewrite trace_of_ticks_cons, fenced_app.
  destruct (renderer_ok_ready st Hok) as (d & sr & res & q & Hready).
  rewrite (draw_fenced B t st d sr res q pending Hready Hsep Hgsep), andb_true_l.
  destruct (result_of (draw B t) st) as [r st'|f] eqn:E; [|done].
  destruct (draw_maintains B t st r st' Hok E) as [Hok' Hfix].
  assert (Hg : fence_guards st' = fence_guards st)
    by (unfold fixed_parts in Hfix; by injection Hfix).
  rewrite <- Hg. apply IH; [done| |].
  - by rewrite Hg.
  - by rewrite (graphics_separate_fixed st st').
Qed.

(** ** Ticks and descriptor sets *)

Lemma run_bind_ret {A} (m : M A) st : (m ≫= mret) st = m st.
Proof.
  rewrite run_bind. destruct (m st) as [tr [a st'|f]]; [|done].
  unfold prepend. simpl. by rewrite app_nil_r.
Qed.

Lemma run_current_per_frame_data_none {B} (k : PerFrameData → M B) st :
  per_frame_data st !! current_frame_index st = None →
  (current_per_frame_data ≫= k) st = ([], Failed Undefined).
Proof.
  intros H. unfold current_per_frame_data.
  rewrite run_assoc, run_gets, run_assoc, run_gets.
  unfold index. rewrite H. apply run_fault.
Qed.

Lemma preserves_copy_to_bound_objects get put data :
  (∀ d, slot_objects (with_contents get put data d) = slot_objects d) →
  preserves bound_objects (copy_to get put data).
Proof.
  intros Hsame st a st'. rewrite <- run_bind_ret.
  destruct (per_frame_data st !! current_frame_index st) as [d|] eqn:Hd.
  - rewrite (run_copy_to _ _ _ d) by done.
    unfold prepend, mret, M_ret. cbn [snd]. intros [= _ <-].
    unfold bound_objects. cbn [per_frame_data set_per_frame_data].
    rewrite list_fmap_insert, Hsame.
    apply list_insert_id. by rewrite list_lookup_fmap, Hd.
  - unfold copy_to. by rewrite run_assoc, run_current_per_frame_data_none.
Qed.

Lemma preserves_record_compute_command_buffer {X} (proj : RVPT → X) :
  preserves proj record_compute_command_buffer.
Proof. unfold record_compute_command_buffer, current_per_frame_data. preserves_tac. Qed.

Lemma preserves_compute_or_graphics_queue {X} (proj : RVPT → X) :
  preserves proj compute_or_graphics_queue.
Proof. unfold compute_or_graphics_queue. preserves_tac. Qed.

Lemma preserves_draw_bindings B t : preserves bindings (draw B t).
Proof.
  assert (Hcopy : ∀ get put data,
    (∀ d, slot_objects (with_contents get put data d) = slot_objects d) →
    preserves bindings (copy_to get put data)).
  { intros get put data Hsame st a st' H. unfold bindings. f_equal.
    - revert H. unfold copy_to, current_per_frame_data.
      generalize st a st'.
      change (preserves descriptor_table
        ((pfd ← gets per_frame_data; i ← gets current_frame_index; index pfd i) ≫=
         λ d, emit (EvCopyTo (buffer_handle (get d)) data);;
              i ← gets current_frame_index;
              modify (λ st, set_per_frame_data
                (<[i := put {| buffer_handle := buffer_handle (get d);
                               buffer_size := buffer_size (get d);
                               buffer_contents := data |} d]> (per_frame_data st)) st))).
      preserves_tac.
    - by apply (preserves_copy_to_bound_objects get put data Hsame st a st'). }
  assert (Hout : outside_swapchain bindings) by (by repeat split).
  unfold draw, current_per_frame_data.
  preserves_tac;
    first [ by apply Hcopy
          | apply preserves_record_compute_command_buffer
          | apply preserves_compute_or_graphics_queue
          | apply preserves_record_command_buffer
          | by apply preserves_swapchain_reinit
          | apply preserves_modify; intros; reflexivity ].
Qed.

Lemma preserves_ticks {X} (proj : RVPT → X) B ts :
  (∀ t, preserves proj (draw B t)) → preserves proj (ticks B ts).
Proof.
  intros Hdraw. induction ts as [|t ts IH]; cbn [ticks]; preserves_tac; auto.
Qed.

Lemma draw_no_descriptor_update B t : emits_only not_descriptor_update (draw B t).
Proof.
  unfold draw, copy_to, record_compute_command_buffer, compute_or_graphics_queue,
    current_per_frame_data.
  emits_tac;
    first [ eapply emits_only_weaken; [|apply swapchain_reinit_events]; by intros []
          | eapply emits_only_weaken; [|apply record_command_buffer_events];
            by intros [] ].
Qed.

Lemma emits_only_ticks P B ts :
  (∀ t, emits_only P (draw B t)) → emits_only P (ticks B ts).
Proof.
  intros Hdraw. induction ts as [|t ts IH]; cbn [ticks]; emits_tac; auto.
Qed.

(** ** The fence table *)

Ltac preserves_all :=
  repeat first
    [ preserves_step
    | apply preserves_fresh; intros; reflexivity
    | apply preserves_modify; intros; reflexivity ].

Lemma preserves_copy_to {X} (proj : RVPT → X) get put data :
  (∀ v st, proj (set_per_frame_data v st) = proj st) →
  preserves proj (copy_to get put data).
Proof.
  intros H. unfold copy_to, current_per_frame_data. preserves_tac.
  apply preserves_modify. intros. apply H.
Qed.

(** A tick keeps the length of the fence table. *)
Lemma preserves_draw_fence_table_length B t :
  preserves (λ st, length (frames_inflight_fences st)) (draw B t).
Proof.
  assert (Hout : outside_swapchain (λ st, length (frames_inflight_fences st)))
    by (by repeat split).
  unfold draw, current_per_frame_data.
  preserves_tac;
    first [ by apply preserves_copy_to
          | apply preserves_record_compute_command_buffer
          | apply preserves_compute_or_graphics_queue
          | apply preserves_record_command_buffer
          | by apply preserves_swapchain_reinit
          | apply preserves_modify; intros; reflexivity
          | apply preserves_modify; intros; apply length_insert ].
Qed.

Lemma hoare_modify (P : RVPT → Prop) f (Q : unit → RVPT → Prop) :
  (∀ st, P st → Q tt (f st)) → hoare P (modify f) Q.
Proof. intros H st [] st' HP [= <-]. by apply H. Qed.

Lemma preserves_swapchain_init {X} (proj : RVPT → X) B w :
  outside_swapchain proj → preserves proj (swapchain_init B w).
Proof.
  intros H. unfold swapchain_init.
  preserves_tac; first [ by apply preserves_swapchain_get_images
                       | destruct H as (_ & Hs & _); apply preserves_modify; intros; auto ].
Qed.

Lemma preserves_add_per_frame_data {X} (proj : RVPT → X) :
  (∀ v st, proj (set_next_handle v st) = proj st) →
  (∀ v st, proj (set_descriptor_table v st) = proj st) →
  (∀ v st, proj (set_per_frame_data v st) = proj st) →
  preserves proj add_per_frame_data.
Proof.
  intros Hn Hd Hp.
  unfold add_per_frame_data, new_buffer, update_descriptor_sets,
    compute_or_graphics_queue.
  preserves_tac;
    first [ by apply preserves_fresh
          | apply preserves_modify; intros; auto ].
Qed.

(** [initialize] sizes the fence table to the image count of the
    swapchain it built, filled with null handles. *)
Lemma initialize_fence_table B D N w st0 b st :
  result_of (initialize B D N w) st0 = Done b st →
  frames_inflight_fences st
  = resize (image_count (vkb_swapchain st)) VK_NULL_HANDLE (frames_inflight_fences st0).
Proof.
  set (F0 := frames_inflight_fences st0).
  intros Hdone.
  assert (H : hoare (λ s, frames_inflight_fences s = F0) (initialize B D N w)
    (λ _ s, frames_inflight_fences s
            = resize (image_count (vkb_swapchain s)) VK_NULL_HANDLE F0)).
  { unfold initialize.
    assert (Hkeep : ∀ A (m : M A), preserves frames_inflight_fences m →
      hoare (λ s, frames_inflight_fences s = F0) m
            (λ _ s, frames_inflight_fences s = F0)).
    { intros A m Hm. apply (hoare_preserves frames_inflight_fences (λ x, x = F0) m Hm). }
    eapply hoare_bind; [apply Hkeep; unfold context_init; preserves_all|intros init].
    eapply hoare_bind;
      [apply Hkeep; apply preserves_swapchain_init; by repeat split|intros init2].
    eapply hoare_bind;
      [apply Hkeep; unfold new_sync_resources; preserves_all|intros ?].
    eapply hoare_bind.
    { apply (hoare_modify _ _ (λ _ s, frames_inflight_fences s
        = resize (image_count (vkb_swapchain s)) VK_NULL_HANDLE F0)).
      intros s Hs. cbn [frames_inflight_fences vkb_swapchain set_frames_inflight_fences].
      by rewrite Hs. }
    intros ?.
    apply (hoare_preserves (λ s, (frames_inflight_fences s, vkb_swapchain s))
      (λ x, x.1 = resize (image_count x.2) VK_NULL_HANDLE F0)).
    unfold create_rendering_resources.
    preserves_all;
      first [ by apply preserves_create_framebuffers
            | by apply preserves_add_per_frame_data ]. }
  by apply (H st0 b st).
Qed.

(** With the image index past the end of the fence table, [draw] runs
    into the undefined behaviour of [operator[]] once the graphics pass is
    recorded. *)
Lemma draw_fence_table_overrun B t st d sr res q fb :
  tick_ready st d sr res q →
  acquired (acquire_result t) = true →
  framebuffers st !! acquire_image_index t = Some fb →
  length (frames_inflight_fences st) ≤ acquire_image_index t →
  draw B t st
  = (raytrace_events st d res q ++ acquire_events st sr
     ++ graphics_commands st d sr res fb, Failed Undefined).
Proof.
  intros Hready Ha Hfb Hlen.
  assert (Hlt : current_frame_index st < length (per_frame_data st))
    by (eapply lookup_lt_Some, ready_slot; eauto).
  rewrite (draw_until_acquire B t st d sr res q Hready).
  assert (Hood : VkResult_eqb (acquire_result t) VK_ERROR_OUT_OF_DATE_KHR = false)
    by (unfold acquired in Ha; by destruct (acquire_result t)).
  assert (Hok : negb (VkResult_eqb (acquire_result t) VK_SUCCESS)
                && negb (VkResult_eqb (acquire_result t) VK_SUBOPTIMAL_KHR) = false)
    by (unfold acquired in Ha; by destruct (acquire_result t)).
  unfold after_acquire. rewrite Hood, Hok, run_ret.
  erewrite (run_record_command_buffer (upload st d) res fb); [| |apply Hready|exact Hfb].
  2: { simpl. apply list_lookup_insert_eq. exact Hlt. }
  rewrite run_gets.
  cbn [frames_inflight_fences uploaded set_per_frame_data].
  rewrite run_index_none by (by apply lookup_ge_None_2).
  unfold prepend. cbn [fst snd]. by rewrite !app_nil_r, <- app_assoc.
Qed.

(** ** Two rebuilds in a row *)

Lemma new_framebuffers_shape rp e vs : ∀ h,
  framebuffer_shape <$> new_framebuffers rp e h vs = replicate (length vs) (rp, e, 1).
Proof. induction vs as [|v vs IH]; intros h; [done|]. cbn. by rewrite IH. Qed.

Lemma with_framebuffers_shape s :
  swapchain_shape (with_framebuffers s)
  = (swapchain_dims (vkb_swapchain s), length (swapchain_images s),
     length (swapchain_image_views s),
     replicate (length (take (image_count (vkb_swapchain s)) (swapchain_image_views s)))
       (fullscreen_tri_render_pass s, extent (vkb_swapchain s), 1)).
Proof.
  unfold swapchain_shape, with_framebuffers.
  cbn [vkb_swapchain swapchain_images swapchain_image_views framebuffers
       set_next_handle set_framebuffers].
  by rewrite new_framebuffers_shape.
Qed.

Lemma rebuilt_twice B w st :
  regular_backend B →
  rebuild_defined B w st →
  rebuild_defined B w (rebuilt B w st).2
  ∧ swapchain_shape (rebuilt B w (rebuilt B w st).2).2
    = swapchain_shape (rebuilt B w st).2
  ∧ (rebuilt B w (rebuilt B w st).2).1 = (rebuilt B w st).1.
Proof.
  intros [Hb Hi Hv]. unfold rebuild_defined, rebuilt.
  destruct (build B w (Some (vkb_swapchain st))) as [sc1|] eqn:E1; cbn [fst snd].
  - intros Hdef.
    set (s1 := with_images B (set_vkb_swapchain sc1 (set_framebuffers [] st))).
    assert (Hsc1 : vkb_swapchain (with_framebuffers s1.2) = sc1).
    { subst s1. unfold with_images, with_framebuffers.
      cbn [vkb_swapchain set_vkb_swapchain]. by repeat case_match. }
    rewrite Hsc1.
    specialize (Hb w (Some (vkb_swapchain st)) (Some sc1)). rewrite E1 in Hb.
    destruct (build B w (Some sc1)) as [sc2|] eqn:E2; [|done].
    assert (Hdims : swapchain_dims sc1 = swapchain_dims sc2).
    { cbn in Hb. injection Hb as H1 H2 H3. unfold swapchain_dims.
      by rewrite H1, H2, H3. }
    clear Hb. cbn [fst snd].
    specialize (Hi sc1 sc2 Hdims). specialize (Hv sc1 sc2 Hdims).
    assert (Hcount : image_count sc2 = image_count sc1)
      by (unfold swapchain_dims in Hdims; congruence).
    assert (Hext : extent sc2 = extent sc1)
      by (unfold swapchain_dims in Hdims; congruence).
    rewrite !with_framebuffers_shape.
    subst s1. unfold with_images, with_framebuffers, views_after in *.
    cbn [vkb_swapchain swapchain_images swapchain_image_views framebuffers
         fullscreen_tri_render_pass set_next_handle set_framebuffers
         set_vkb_swapchain set_swapchain_images set_swapchain_image_views fst snd] in *.
    destruct (get_images B sc1) as [i1|], (get_images B sc2) as [i2|];
      try discriminate; cbn [fst snd] in *;
      [destruct (get_image_views B sc1) as [v1|], (get_image_views B sc2) as [v2|];
         try discriminate|];
      cbn [fst snd vkb_swapchain swapchain_images swapchain_image_views framebuffers
           fullscreen_tri_render_pass set_next_handle set_framebuffers
           set_vkb_swapchain set_swapchain_images set_swapchain_image_views] in *;
      simplify_eq/=; rewrite ?length_take in *;
      split_and!; try lia; unfold swapchain_dims;
      rewrite ?Hcount, ?Hext; congruence.
  - intros _. cbn [vkb_swapchain set_framebuffers]. rewrite E1. done.
Qed.

(** ** Small facts used by the claims *)

Lemma forallb_app_true {A} (p : A → bool) l1 l2 :
  forallb p l1 = true → forallb p l2 = true → forallb p (l1 ++ l2) = true.
Proof. intros H1 H2. rewrite forallb_app, H1, H2. done. Qed.

Lemma count_app p l1 l2 : count p (l1 ++ l2) = count p l1 + count p l2.
Proof. unfold count. by rewrite List.filter_app, length_app. Qed.

Lemma rebuild_events_no_graphics B w st :
  forallb (λ e, negb (graphics_step e)) (rebuild_events B w st) = true.
Proof. unfold rebuild_events. by repeat case_match. Qed.

Lemma rebuilt_frame_pool B w st : frame_pool (rebuilt B w st).2 = frame_pool st.
Proof. unfold rebuilt, with_images. by repeat case_match. Qed.

Lemma outside_swapchain_state_ok : outside_swapchain outside_swapchain_state.
Proof. by repeat split. Qed.

Lemma floor_is_ceil_iff_divides (a : Z) :
  (a / 16 = ceil_div a 16 ↔ (16 | a))%Z.
Proof.
  unfold ceil_div. split.
  - intros H. apply Z.mod_divide; [lia|].
    pose proof (Z.div_mod a 16 ltac:(lia)).
    pose proof (Z.mod_pos_bound a 16 ltac:(lia)).
    pose proof (Z.div_mod (a + 16 - 1) 16 ltac:(lia)).
    pose proof (Z.mod_pos_bound (a + 16 - 1) 16 ltac:(lia)).
    lia.
  - intros [k ->]. replace (k * 16 + 16 - 1)%Z with (15 + k * 16)%Z by lia.
    rewrite Z.div_mul, Z.div_add by lia. done.
Qed.

Lemma context_init_compute_queue D st0 st1 :
  result_of (context_init D) st0 = Done true st1 →
  compute_queue st1 =
    match dedicated_compute_index D with
    | Some ci => Some {| queue_family := ci |}
    | None => compute_queue st0
    end
  ∧ graphics_queue st1 = (λ gi, {| queue_family := gi |}) <$> graphics_index D.
Proof.
  unfold result_of, context_init.
  destruct (instance_ok D), (surface_ok D), (physical_device_ok D), (device_ok D);
    cbn [negb]; try (by intros [=]).
  destruct (graphics_index D) as [gi|]; [|by intros [=]].
  rewrite run_modify.
  destruct (present_index D) as [pi|]; [|by intros [=]].
  rewrite run_modify.
  destruct (dedicated_compute_index D) as [ci|].
  - rewrite run_modify. intros [= <-]. done.
  - rewrite run_ret. intros [= <-]. done.
Qed.

Lemma tick_ready_set_compute_queue st d sr res q c :
  tick_ready st d sr res q →
  tick_ready (set_compute_queue (Some c) st) d sr res c.
Proof. intros [Hd Hs Hr Hq]. by split. Qed.

Lemma count_none (p : Event → bool) (P : Event → Prop) tr :
  (∀ e, P e → p e = false) → Forall P tr → count p tr = 0.
Proof. intros HP H. unfold count. by rewrite (filter_none p P tr HP H). Qed.

Lemma after_present_swapchain_events B t : emits_only swapchain_event (after_present B t).
Proof. unfold after_present. emits_tac. apply swapchain_reinit_events. Qed.

Lemma result_of_swapchain_reinit B w st :
  rebuild_defined B w st →
  result_of (swapchain_reinit B w) st = Done (rebuilt B w st).1 (rebuilt B w st).2.
Proof.
  intros Hdef. unfold result_of.
  rewrite <- run_bind_ret, (run_swapchain_reinit B w mret st Hdef). done.
Qed.

Lemma demo_backend_regular n : regular_backend (demo_backend n).
Proof.
  split.
  - intros w old1 old2. done.
  - intros sc1 sc2 [= _ _ Hc]. cbn. by rewrite !length_seq, Hc.
  - intros sc1 sc2 [= _ _ Hc]. cbn. by rewrite !length_seq, Hc.
Qed.

Lemma demo_rebuild_defined :
  rebuild_defined (demo_backend 3) window512 (demo_state 2 3 None).
Proof. vm_compute. lia. Qed.

(** ** The frame pool that [initialize] builds *)

Lemma grows_ret {A} (a : A) : grows (mret a).
Proof. intros st a' st' [= _ ->]. done. Qed.

Lemma grows_emit e : grows (emit e).
Proof. intros st a' st' [= _ ->]. done. Qed.

Lemma grows_gets {A} (p : RVPT → A) : grows (gets p).
Proof. intros st a' st' [= _ ->]. done. Qed.

Lemma grows_fault {A} f : grows (@fault A f).
Proof. intros st a' st' [=]. Qed.

Lemma grows_modify f :
  (∀ st, next_handle st ≤ next_handle (f st)) → grows (modify f).
Proof. intros H st a' st' [= _ <-]. apply H. Qed.

Lemma grows_bind {A B} (m : M A) (k : A → M B) :
  grows m → (∀ a, grows (k a)) → grows (m ≫= k).
Proof.
  intros Hm Hk st b st'. rewrite run_bind.
  destruct (m st) as [t1 [a st1|f]] eqn:E; simpl; [|done].
  intros H. etrans; [apply (Hm st a st1); by rewrite E|].
  by apply (Hk a st1 b st').
Qed.

Lemma grows_index {A} (v : list A) i : grows (index v i).
Proof. unfold index. destruct (v !! i); [apply grows_ret | apply grows_fault]. Qed.

Lemma grows_deref {A} (o : option A) : grows (deref o).
Proof. destruct o; [apply grows_ret | apply grows_fault]. Qed.

Lemma grows_value {A} (o : option A) : grows (value o).
Proof. destruct o; [apply grows_ret | apply grows_fault]. Qed.

Lemma grows_for_loop body n i : (∀ j, grows (body j)) → grows (for_loop i n body).
Proof.
  intros Hb. revert i. induction n as [|n IH]; intros i; simpl.
  - apply grows_ret.
  - apply grows_bind; [apply Hb | intros _; apply IH].
Qed.

Lemma grows_fresh : grows fresh.
Proof.
  intros st a st'. rewrite <- run_bind_ret, run_fresh.
  intros [= _ <-]. cbn. lia.
Qed.

Ltac grows_step :=
  match goal with
  | |- grows (_ ≫= _) => apply grows_bind; [|intros ?]
  | |- grows (mret _) => apply grows_ret
  | |- grows (emit _) => apply grows_emit
  | |- grows (gets _) => apply grows_gets
  | |- grows (fault _) => apply grows_fault
  | |- grows fresh => apply grows_fresh
  | |- grows (index _ _) => apply grows_index
  | |- grows (deref _) => apply grows_deref
  | |- grows (value _) => apply grows_value
  | |- grows (for_loop _ _ _) => apply grows_for_loop; intros ?
  | |- grows (modify _) => apply grows_modify; intros ?; reflexivity
  | |- grows (if ?b then _ else _) => destruct b
  | |- grows (match ?o with _ => _ end) => destruct o
  end.

Ltac grows_tac := repeat grows_step.

Lemma grows_create_framebuffers : grows create_framebuffers.
Proof. unfold create_framebuffers. grows_tac. Qed.

Lemma grows_swapchain_init B w : grows (swapchain_init B w).
Proof. unfold swapchain_init, swapchain_get_images. grows_tac. Qed.

Lemma grows_context_init D : grows (context_init D).
Proof. unfold context_init. grows_tac. Qed.

Lemma grows_create_rendering_resources : grows create_rendering_resources.
Proof. unfold create_rendering_resources. grows_tac. Qed.

(** A step that keeps the frame pool and only gives out handles keeps
    the pool well formed. *)
Lemma handles_ok_grow st st' :
  (sync_resources st', per_frame_data st') = (sync_resources st, per_frame_data st) →
  next_handle st ≤ next_handle st' →
  handles_ok st → handles_ok st'.
Proof.
  intros [= Hs Hp] Hle [H1 H2 H3 H4].
  split; unfold fence_guards in *; rewrite ?Hs, ?Hp.
  - done.
  - intros g h Hg Hh. specialize (H2 g h Hg Hh). lia.
  - intros s Hin. specialize (H3 s Hin). lia.
  - done.
Qed.

Lemma pool_filled_step {A} (m : M A) a b :
  preserves (λ st, (sync_resources st, per_frame_data st, current_frame_index st)) m →
  grows m →
  hoare (pool_filled a b) m (λ _, pool_filled a b).
Proof.
  intros Hp Hg st x st' [H1 H2 H3 H4] Hdone.
  specialize (Hp st x st' Hdone). injection Hp as Hs Hd Hc.
  split; [by rewrite Hs | by rewrite Hd | by rewrite Hc |].
  apply (handles_ok_grow st st'); [by rewrite Hs, Hd | by eapply Hg | done].
Qed.

Lemma hoare_for_loop (I : nat → RVPT → Prop) body n : ∀ i k,
  (∀ j k', hoare (I k') (body j) (λ _, I (S k'))) →
  hoare (I k) (for_loop i n body) (λ _, I (k + n)).
Proof.
  induction n as [|n IH]; intros i k Hb; cbn [for_loop].
  - intros st a st' HI [= _ <-]. by rewrite Nat.add_0_r.
  - eapply hoare_bind; [apply Hb|intros ?].
    replace (k + S n) with (S k + n) by lia. by apply IH.
Qed.

Lemma run_new_sync_resources {A} g p sc (k : SyncResources → M A) st :
  (new_sync_resources g p sc ≫= k) st =
  k {| sr_graphics_queue := g; sr_present_queue := p; sr_swapchain := sc;
       image_avail_sem := next_handle st;
       render_finish_sem := S (next_handle st);
       command_fence := S (S (next_handle st));
       command_buffer := {| cb_handle := S (S (S (next_handle st))); cb_queue := g |} |}
    (set_next_handle (S (S (S (S (next_handle st))))) st).
Proof.
  unfold new_sync_resources.
  rewrite run_assoc, run_fresh, run_assoc, run_fresh.
  rewrite run_assoc, run_fresh, run_assoc, run_fresh, run_ret. done.
Qed.

(** One more sync resources, before any slot exists. *)
Lemma sync_loop_body_filled k :
  hoare (pool_filled k 0)
    (gq ← gets graphics_queue;
     g ← value gq;
     pq ← gets present_queue;
     p ← value pq;
     sc ← gets vkb_swapchain;
     s ← new_sync_resources g p (swapchain sc);
     modify (λ st, set_sync_resources (sync_resources st ++ [s]) st))
    (λ _, pool_filled (S k) 0).
Proof.
  intros st a st' [H1 H2 H3 [_ _ Hb _]].
  unfold value. rewrite run_gets.
  destruct (graphics_queue st) as [g|]; [|by rewrite run_fault].
  rewrite run_ret, run_gets.
  destruct (present_queue st) as [p|]; [|by rewrite run_fault].
  rewrite run_ret, run_gets, run_new_sync_resources.
  intros [= _ <-].
  assert (Hnil : per_frame_data st = []) by (by apply nil_length_inv).
  split; cbn [sync_resources per_frame_data current_frame_index next_handle
              set_sync_resources set_next_handle]; try done.
  - rewrite length_app, H1. cbn. lia.
  - split; unfold fence_guards;
      cbn [sync_resources per_frame_data current_frame_index next_handle
           set_sync_resources set_next_handle]; rewrite ?Hnil.
    + intros g0 g' h Hg. by apply elem_of_nil in Hg.
    + intros g0 h Hg. by apply elem_of_nil in Hg.
    + intros s Hs. apply elem_of_app in Hs as [Hs|Hs].
      * specialize (Hb s Hs). lia.
      * apply list_elem_of_singleton in Hs. subst s. cbn. lia.
    + intros s g0 _ Hg. by apply elem_of_nil in Hg.
Qed.

Lemma hoare_and {A} (P1 P2 : RVPT → Prop) (m : M A) (Q1 Q2 : RVPT → Prop) :
  hoare P1 m (λ _, Q1) → hoare P2 m (λ _, Q2) →
  hoare (λ st, P1 st ∧ P2 st) m (λ _ st, Q1 st ∧ Q2 st).
Proof. intros H1 H2 st a st' [HP1 HP2] Hd. split; [by eapply H1 | by eapply H2]. Qed.

Lemma hoare_ghost {A X} (p : RVPT → X) (P : RVPT → Prop) (m : M A) Q :
  (∀ x, hoare (λ st, P st ∧ p st = x) m Q) → hoare P m Q.
Proof. intros H st a st' HP Hd. by apply (H (p st) st a st'). Qed.

Lemma hoare_gets_deref {A B} (p : RVPT → option A) (P : RVPT → Prop)
    (k : A → M B) Q :
  (∀ x, hoare (λ st, P st ∧ p st = Some x) (k x) Q) →
  hoare P (o ← gets p; x ← deref o; k x) Q.
Proof.
  intros H st a st' HP. rewrite run_gets.
  destruct (p st) as [x|] eqn:E.
  - rewrite run_deref. by apply (H x).
  - unfold deref. by rewrite run_fault.
Qed.

Lemma hoare_ret {A} (P : RVPT → Prop) (a : A) : hoare P (mret a) (λ _, P).
Proof. by intros st a' st' HP [= _ <-]. Qed.

(** One more slot. *)
Lemma slot_loop_body_filled N k gq q res :
  hoare (λ st, pool_filled N k st
               ∧ (rendering_resources st, compute_submit_queue st, graphics_queue st)
                 = (Some res, Some q, Some gq))
    add_per_frame_data
    (λ _ st, pool_filled N (S k) st
             ∧ (rendering_resources st, compute_submit_queue st, graphics_queue st)
               = (Some res, Some q, Some gq)).
Proof.
  intros st a st' [[H1 H2 H3 [Hsep Hbelow Hgb Hga]] [= Hr Hq Hgq]].
  rewrite <- run_bind_ret, (run_add_per_frame_data gq q res) by done.
  unfold prepend, mret, M_ret. cbn [snd]. intros [= _ <-].
  set (n := next_handle st) in *.
  set (d := new_slot n q (length (spheres st))).
  assert (HG : fence_guards (with_new_slot q st) = fence_guards st ++ [slot_guard d]).
  { unfold fence_guards, with_new_slot.
    cbn [per_frame_data set_per_frame_data]. by rewrite fmap_app. }
  assert (Hnew : ∀ h, h ∈ (slot_guard d).2 → n < h < n + 9).
  { intros h Hh. unfold d, slot_guard, guarded_objects, new_slot in Hh. cbn in Hh.
    repeat (apply elem_of_cons in Hh as [->|Hh]; [lia|]). by apply elem_of_nil in Hh. }
  split.
  2: { unfold with_new_slot, compute_submit_queue in *.
       cbn [rendering_resources compute_queue graphics_queue set_per_frame_data
            set_descriptor_table set_next_handle].
       by rewrite Hr, Hq, Hgq. }
  split.
  - done.
  - unfold with_new_slot. cbn [per_frame_data set_per_frame_data].
    rewrite length_app, H2. cbn. lia.
  - done.
  - split; rewrite ?HG;
      cbn [sync_resources next_handle with_new_slot set_per_frame_data
           set_descriptor_table set_next_handle].
    + intros g g' h Hg Hg' Hh Hh'.
      apply elem_of_app in Hg as [Hg|Hg], Hg' as [Hg'|Hg'].
      * by apply (Hsep g g' h).
      * apply list_elem_of_singleton in Hg'. subst g'.
        specialize (Hbelow g h Hg Hh). specialize (Hnew h Hh'). lia.
      * apply list_elem_of_singleton in Hg. subst g.
        specialize (Hbelow g' h Hg' Hh'). specialize (Hnew h Hh). lia.
      * apply list_elem_of_singleton in Hg, Hg'. by subst.
    + intros g h Hg Hh. apply elem_of_app in Hg as [Hg|Hg].
      * specialize (Hbelow g h Hg Hh). fold n. lia.
      * apply list_elem_of_singleton in Hg. subst g.
        specialize (Hnew h Hh). fold n. lia.
    + intros s Hs. specialize (Hgb s Hs). fold n. lia.
    + intros s g Hs Hg. apply elem_of_app in Hg as [Hg|Hg].
      * by apply Hga.
      * apply list_elem_of_singleton in Hg. subst g. intros Hin.
        specialize (Hgb s Hs). specialize (Hnew _ Hin). lia.
Qed.

Lemma new_RVPT_filled : pool_filled 0 0 new_RVPT.
Proof.
  split; try done. split; cbn.
  - intros g g' h Hg. by apply elem_of_nil in Hg.
  - intros g h Hg. by apply elem_of_nil in Hg.
  - intros s Hs. by apply elem_of_nil in Hs.
  - intros s g Hs. by apply elem_of_nil in Hs.
Qed.

Lemma pool_filled_set_rendering_resources a b v st :
  pool_filled a b st → pool_filled a b (set_rendering_resources v st).
Proof. intros [H1 H2 H3 [H4 H5 H6 H7]]. by repeat split. Qed.

(** [initialize] leaves as many slots as sync resources, with handles
    that keep the slots apart, the pipelines created and a queue for the
    compute work. *)
Lemma initialize_pool B D N w b st :
  result_of (initialize B D N w) new_RVPT = Done b st →
  pool_filled N N st
  ∧ is_Some (rendering_resources st)
  ∧ is_Some (compute_submit_queue st).
Proof.
  intros Hdone.
  assert (H : hoare (pool_filled 0 0) (initialize B D N w)
    (λ _ s, pool_filled N N s ∧ is_Some (rendering_resources s)
            ∧ is_Some (compute_submit_queue s))).
  2: { by apply (H new_RVPT b st new_RVPT_filled). }
  clear Hdone. unfold initialize.
  eapply hoare_bind;
    [apply pool_filled_step;
       [unfold context_init; preserves_all | apply grows_context_init]
    |intros init].
  eapply hoare_bind;
    [apply pool_filled_step;
       [apply preserves_swapchain_init; by repeat split | apply grows_swapchain_init]
    |intros init2].
  cbv zeta.
  eapply hoare_bind;
    [apply (hoare_for_loop (λ k, pool_filled k 0)); intros j k;
     apply sync_loop_body_filled
    |intros ?].
  cbn [Nat.add].
  eapply hoare_bind;
    [apply pool_filled_step; [preserves_all | grows_tac] | intros ?].
  eapply hoare_bind;
    [apply pool_filled_step; [preserves_all | grows_tac] | intros rp].
  eapply hoare_bind;
    [apply pool_filled_step; [preserves_all | grows_tac] | intros ?].
  apply hoare_gets_deref. intros g.
  apply (hoare_ghost compute_queue). intros cq.
  set (q := match cq with Some c => c | None => g end).
  set (J := λ s : RVPT, pool_filled N 0 s
                        ∧ (compute_queue s, graphics_queue s) = (cq, Some g)).
  apply (hoare_consequence J _ _ (λ _ s, pool_filled N N s
           ∧ is_Some (rendering_resources s) ∧ is_Some (compute_submit_queue s)) _).
  { intros s [[Hp Hg] Hc]. split; [done|]. by rewrite Hg, Hc. }
  { done. }
  assert (Hkeep : ∀ A (m : M A),
    preserves (λ s, (sync_resources s, per_frame_data s, current_frame_index s)) m →
    grows m →
    preserves (λ s, (compute_queue s, graphics_queue s)) m →
    hoare J m (λ _, J)).
  { intros A m H1 H2 H3. subst J. apply hoare_and.
    - by apply pool_filled_step.
    - apply (hoare_preserves (λ s, (compute_queue s, graphics_queue s))
               (λ x, x = (cq, Some g)) m H3). }
  eapply hoare_bind.
  { apply Hkeep; [by apply preserves_create_framebuffers
                 | apply grows_create_framebuffers
                 | by apply preserves_create_framebuffers]. }
  intros ?.
  eapply hoare_bind; [apply Hkeep; [preserves_all | grows_tac | preserves_all]|intros ?].
  eapply hoare_bind.
  { apply Hkeep; [unfold create_rendering_resources; preserves_all
                 | apply grows_create_rendering_resources
                 | unfold create_rendering_resources; preserves_all]. }
  intros rr.
  set (I := λ (k : nat) (s : RVPT), pool_filled N k s
    ∧ (rendering_resources s, compute_submit_queue s, graphics_queue s)
      = (Some rr, Some q, Some g)).
  eapply hoare_bind.
  { apply (hoare_modify J _ (λ _, I 0)).
    intros s [Hp [= Hc Hg]]. subst I. split.
    - by apply pool_filled_set_rendering_resources.
    - unfold compute_submit_queue.
      cbn [rendering_resources compute_queue graphics_queue set_rendering_resources].
      rewrite Hc, Hg. subst q. by destruct cq. }
  intros ?.
  eapply hoare_bind.
  { apply (hoare_for_loop I). intros j k. subst I. apply slot_loop_body_filled. }
  intros ?. cbn [Nat.add].
  eapply hoare_bind.
  { subst I. apply hoare_and.
    - apply pool_filled_step; [preserves_all | grows_tac].
    - apply (hoare_preserves
               (λ s, (rendering_resources s, compute_submit_queue s, graphics_queue s))
               (λ x, x = (Some rr, Some q, Some g))).
      preserves_all. }
  intros ?.
  eapply hoare_consequence; [| |apply hoare_ret].
  - intros s Hs. exact Hs.
  - intros _ s [Hp [= Hr Hq _]]. cbn beta. by rewrite Hr, Hq.
Qed.

Lemma separate_slots_separate G : separate G → slots_separate G = true.
Proof.
  intros Hsep. unfold slots_separate.
  apply forallb_forall. intros g Hg. apply forallb_forall. intros g' Hg'.
  apply forallb_forall. intros h Hh.
  apply list_elem_of_In in Hg, Hg', Hh.
  destruct (decide (h ∈ g'.2)) as [Hin|Hout].
  - apply orb_true_iff. right. apply Nat.eqb_eq. by apply (Hsep g g' h).
  - apply orb_true_iff. left. by apply negb_true_iff, bool_decide_eq_false.
Qed.

(** After [initialize] with at least one frame in flight the renderer is
    ready for its ticks. *)
Lemma initialize_renderer_ok B D N w b st :
  result_of (initialize B D N w) new_RVPT = Done b st →
  0 < N →
  renderer_ok st
  ∧ slots_separate (fence_guards st) = true
  ∧ graphics_separate st = true.
Proof.
  intros Hdone HN.
  destruct (initialize_pool B D N w b st Hdone)
    as ([Hsync Hslots Hcur [Hsep Hb Hgb Hga]] & Hres & Hq).
  split_and!.
  - split; [by rewrite Hsync, Hslots | rewrite Hcur, Hsync; lia | done | done].
  - by apply separate_slots_separate.
  - unfold graphics_separate. apply forallb_forall. intros s Hs.
    apply forallb_forall. intros g Hg.
    apply list_elem_of_In in Hs, Hg.
    apply negb_true_iff, bool_decide_eq_false. by apply Hga.
Qed.

(** * Properties of the tick, of initialization and of the shader reload *)

Lemma VkResult_eqb_eq a b : VkResult_eqb a b = true ↔ a = b.
Proof. by destruct a, b. Qed.

Lemma VkResult_eqb_neq a b : VkResult_eqb a b = false ↔ a ≠ b.
Proof. by destruct a, b. Qed.

Lemma uploaded_slot st d :
  per_frame_data st !! current_frame_index st = Some d →
  per_frame_data (uploaded st d) !! current_frame_index (uploaded st d)
  = Some (upload st d).
Proof.
  intros Hd. simpl. apply list_lookup_insert_eq. by eapply lookup_lt_Some.
Qed.

Lemma tick_ready_uploaded st d sr res q :
  tick_ready st d sr res q → tick_ready (uploaded st d) (upload st d) sr res q.
Proof.
  intros [Hd Hs Hr Hq]. split; [by apply uploaded_slot|done..].
Qed.

Lemma after_acquire_error B t sr s :
  acquired (acquire_result t) = false →
  acquire_result t ≠ VK_ERROR_OUT_OF_DATE_KHR →
  after_acquire B t sr s = ([], Failed Aborted).
Proof.
  intros Ha Hood. unfold after_acquire.
  apply VkResult_eqb_neq in Hood. rewrite Hood.
  unfold acquired in Ha. apply orb_false_iff in Ha as [-> ->].
  cbn [negb andb]. by rewrite run_fault.
Qed.

(** X1.  An acquire that reports anything but success, suboptimal or
    out-of-date stops [draw] at the assertion of line 145: the compute
    work of the slot has been submitted by then, and nothing is recorded
    into the graphics command buffer, submitted to the graphics queue or
    presented. *)
Theorem draw_acquire_error B t st d sr res q :
  tick_ready st d sr res q →
  acquired (acquire_result t) = false →
  acquire_result t ≠ VK_ERROR_OUT_OF_DATE_KHR →
  draw B t st
  = (raytrace_events st d res q ++ acquire_events st sr, Failed Aborted).
Proof.
  intros Hready Ha Hood.
  rewrite (draw_until_acquire B t st d sr res q Hready).
  rewrite (after_acquire_error B t sr _ Ha Hood).
  unfold prepend. cbn [fst snd]. by rewrite app_nil_r.
Qed.

Lemma draw_acquire_error_witness :
  result_of (draw (demo_backend 3) timeout_tick) (demo_state 2 3 None)
  = Failed Aborted.
Proof.
  unfold result_of.
  erewrite draw_acquire_error;
    [ reflexivity | split; vm_compute; reflexivity | reflexivity | discriminate ].
Defined.



(** The graphics pass for an image without a framebuffer: the command
    buffer is begun, the barrier recorded, and [framebuffers.at] throws. *)
Lemma run_record_command_buffer_missing {B} d sr idx (k : unit → M B) st :
  per_frame_data st !! current_frame_index st = Some d →
  length (framebuffers st) ≤ idx →
  (record_command_buffer sr idx ≫= k) st = (graphics_prologue d sr, Failed Thrown).
Proof.
  intros Hd Hlen. unfold record_command_buffer.
  rewrite run_assoc, run_emit.
  rewrite run_assoc, (run_current_per_frame_data d) by done.
  rewrite run_assoc, run_emit.
  rewrite run_assoc, run_gets, run_assoc, run_gets.
  unfold at_. rewrite (lookup_ge_None_2 _ _ Hlen).
  rewrite run_assoc, run_fault.
  reflexivity.
Qed.

Lemma acquired_cases r :
  acquired r = true →
  VkResult_eqb r VK_ERROR_OUT_OF_DATE_KHR = false
  ∧ negb (VkResult_eqb r VK_SUCCESS) && negb (VkResult_eqb r VK_SUBOPTIMAL_KHR) = false.
Proof. unfold acquired. by destruct r. Qed.

Lemma after_acquire_missing_framebuffer B t sr s d :
  acquired (acquire_result t) = true →
  per_frame_data s !! current_frame_index s = Some d →
  length (framebuffers s) ≤ acquire_image_index t →
  after_acquire B t sr s = (graphics_prologue d sr, Failed Thrown).
Proof.
  intros Ha Hd Hlen. destruct (acquired_cases _ Ha) as [Hood Hok].
  unfold after_acquire. rewrite Hood, Hok, run_ret.
  by rewrite (run_record_command_buffer_missing d).
Qed.

(** X3.  An acquired image index that has no framebuffer makes [draw]
    throw at [framebuffers.at], line 504: the graphics command buffer is
    left begun with the barrier recorded and never ended, and nothing is
    submitted to the graphics queue or presented. *)
Theorem draw_missing_framebuffer B t st d sr res q :
  tick_ready st d sr res q →
  acquired (acquire_result t) = true →
  length (framebuffers st) ≤ acquire_image_index t →
  draw B t st
  = (raytrace_events st d res q ++ acquire_events st sr ++ graphics_prologue d sr,
     Failed Thrown).
Proof.
  intros Hready Ha Hlen.
  rewrite (draw_until_acquire B t st d sr res q Hready).
  rewrite (after_acquire_missing_framebuffer B t sr (uploaded st d) (upload st d));
    [|exact Ha|apply uploaded_slot, Hready|exact Hlen].
  unfold prepend. cbn [fst snd]. by rewrite <- app_assoc.
Qed.

Lemma draw_missing_framebuffer_witness :
  result_of (draw (demo_backend 3) far_tick) (demo_state 2 3 None) = Failed Thrown.
Proof.
  unfold result_of.
  erewrite draw_missing_framebuffer;
    [ reflexivity | split; vm_compute; reflexivity | reflexivity
    | vm_compute; lia ].
Defined.

(** ** A rebuild that fails *)


Lemma run_swapchain_reinit_fails {A} B w (k : bool → M A) st :
  build B w (Some (vkb_swapchain st)) = None →
  (swapchain_reinit B w ≫= k) st
  = prepend
      ((if framebuffers st is [] then [] else [EvDestroyFramebuffers (framebuffers st)])
       ++ [ EvDestroyImageViews (swapchain_image_views st);
            EvBuildSwapchain w (Some (vkb_swapchain st)) ])
      (k false (set_framebuffers [] st)).
Proof.
  intros Hb.
  rewrite run_swapchain_reinit by (unfold rebuild_defined; by rewrite Hb).
  unfold rebuild_events, rebuilt. rewrite Hb. by rewrite app_nil_r.
Qed.

(** X4.  [draw] drops the flag [swapchain_reinit] returns.  When the
    builder fails during the rebuild of a stale tick, [draw] still returns
    [swapchain_out_of_date]; the old swapchain is kept and not destroyed,
    its image views have been destroyed, and no framebuffer is left.  A
    tick that is run from the state this leaves and acquires an image
    throws at [framebuffers.at], whatever the backend then answers. *)
Theorem draw_rebuild_fails B t st d sr res q :
  tick_ready st d sr res q →
  acquire_result t = VK_ERROR_OUT_OF_DATE_KHR →
  build B (window_extent t) (Some (vkb_swapchain st)) = None →
  draw B t st
  = (raytrace_events st d res q ++ acquire_events st sr
     ++ (if framebuffers st is [] then [] else [EvDestroyFramebuffers (framebuffers st)])
     ++ [ EvDestroyImageViews (swapchain_image_views st);
          EvBuildSwapchain (window_extent t) (Some (vkb_swapchain st)) ],
     Done swapchain_out_of_date (set_framebuffers [] (uploaded st d)))
  ∧ ∀ B' t', acquired (acquire_result t') = true →
      result_of (draw B' t') (set_framebuffers [] (uploaded st d)) = Failed Thrown.
Proof.
  intros Hready Ha Hb. split.
  - rewrite (draw_out_of_date B t st d sr res q Hready Ha).
    rewrite run_swapchain_reinit_fails by exact Hb.
    unfold prepend, mret, M_ret. cbn [fst snd framebuffers swapchain_image_views
      vkb_swapchain uploaded set_per_frame_data].
    by rewrite app_nil_r, <- !app_assoc.
  - intros B' t' Ha'.
    assert (Hready' : tick_ready (set_framebuffers [] (uploaded st d))
                        (upload st d) sr res q).
    { destruct (tick_ready_uploaded st d sr res q Hready) as [H1 H2 H3 H4].
      by split. }
    unfold result_of.
    rewrite (draw_until_acquire B' t' _ _ _ _ _ Hready').
    rewrite (after_acquire_missing_framebuffer B' t' sr _ (upload (set_framebuffers [] (uploaded st d)) (upload st d)));
      [done|exact Ha'|apply uploaded_slot, Hready'|cbn; lia].
Qed.

Lemma draw_rebuild_fails_witness :
  ∃ st', result_of (draw failing_backend stale_tick) (demo_state 2 3 None)
         = Done swapchain_out_of_date st'
         ∧ framebuffers st' = []
         ∧ result_of (draw failing_backend (ok_tick 0)) st' = Failed Thrown.
Proof.
  edestruct (draw_rebuild_fails failing_backend stale_tick (demo_state 2 3 None))
    as [Hdraw Hnext];
    [ split; vm_compute; reflexivity | reflexivity | reflexivity | ].
  eexists. unfold result_of at 1. rewrite Hdraw. split; [reflexivity|].
  split; [reflexivity|]. by apply Hnext.
Defined.

(** ** How often a tick rebuilds, and the resize flag *)









Lemma trace_of_prepend {A} tr (p : list Event * Res A) :
  (prepend tr p).1 = tr ++ p.1.
Proof. done. Qed.

Lemma result_of_prepend {A} tr (p : list Event * Res A) : (prepend tr p).2 = p.2.
Proof. done. Qed.





(** ** The cursor *)

Lemma after_acquire_done B t sr c SR :
  VkResult_eqb (acquire_result t) VK_ERROR_OUT_OF_DATE_KHR = false →
  hoare (λ s, (sync_resources s, current_frame_index s) = (SR, c))
    (after_acquire B t sr)
    (λ r s', r = success
             ∧ current_frame_index s' = (c + 1) `mod` length SR
             ∧ sync_resources s' = SR).
Proof.
  intros Hood. unfold after_acquire. rewrite Hood.
  set (I := λ s : RVPT, (sync_resources s, current_frame_index s) = (SR, c)).
  assert (Hkeep : ∀ A (m : M A),
    preserves (λ st, (sync_resources st, current_frame_index st)) m →
    hoare I m (λ _, I)).
  { intros A m Hm. subst I.
    apply (hoare_preserves (λ st, (sync_resources st, current_frame_index st))
             (λ x, x = (SR, c)) m Hm). }
  repeat match goal with
  | |- hoare _ (_ ≫= _) _ =>
      eapply hoare_bind;
        [ apply Hkeep; preserves_tac;
          try apply preserves_record_command_buffer;
          try (apply preserves_modify; intros; reflexivity)
        | intros ? ]
  end.
  intros s0 r0 s1 HI Hd. subst I. injection HI as Hsr Hc.
  destruct (after_present_done B t s0 r0 s1 Hd) as (Hr & Hn & Hsr' & Hcur).
  rewrite Hcur, Hsr', Hsr, Hc. done.
Qed.

(** What a tick that returns has done to the cursor. *)
Lemma draw_done B t st r st' :
  renderer_ok st →
  result_of (draw B t) st = Done r st' →
  r = verdict t
  ∧ current_frame_index st'
    = if VkResult_eqb (acquire_result t) VK_ERROR_OUT_OF_DATE_KHR
      then current_frame_index st
      else (current_frame_index st + 1) `mod` length (sync_resources st).
Proof.
  intros Hok. destruct (renderer_ok_ready st Hok) as (d & sr & res & q & Hready).
  unfold result_of, verdict.
  rewrite (draw_until_acquire B t st d sr res q Hready), result_of_prepend.
  destruct (VkResult_eqb (acquire_result t) VK_ERROR_OUT_OF_DATE_KHR) eqn:Hood.
  - unfold after_acquire. rewrite Hood. intros H.
    assert (Hp : preserves current_frame_index
      (swapchain_reinit B (window_extent t);; mret swapchain_out_of_date)).
    { preserves_tac. by apply preserves_swapchain_reinit. }
    rewrite (Hp _ _ _ H). split; [|done].
    revert H. rewrite run_bind.
    destruct ((swapchain_reinit B (window_extent t) (uploaded st d)).2); [|done].
    rewrite result_of_prepend. by intros [= <- _].
  - intros H.
    destruct (after_acquire_done B t sr (current_frame_index st) (sync_resources st)
                Hood (uploaded st d) r st' eq_refl H) as (Hr & Hc & _).
    done.
Qed.

Lemma presenting_cons t ts :
  presenting (t :: ts)
  = (if VkResult_eqb (acquire_result t) VK_ERROR_OUT_OF_DATE_KHR then 0 else 1)
    + presenting ts.
Proof.
  unfold presenting. cbn [List.filter].
  by destruct (VkResult_eqb (acquire_result t) VK_ERROR_OUT_OF_DATE_KHR).
Qed.

(** X6.  The cursor goes round the frames in flight: over any run of
    ticks that all return, each tick returns [swapchain_out_of_date] if
    its acquire was stale and [success] otherwise, and the cursor has
    advanced by the number of ticks that were not stale, modulo the number
    of frames in flight.  A stale tick leaves the cursor where it is. *)
Theorem ticks_cursor B ts : ∀ st rs st',
  renderer_ok st →
  result_of (ticks B ts) st = Done rs st' →
  rs = verdict <$> ts
  ∧ current_frame_index st'
    = (current_frame_index st + presenting ts) `mod` length (sync_resources st).
Proof.
  induction ts as [|t ts IH]; intros st rs st' Hok.
  - intros [= <- <-]. split; [done|].
    rewrite Nat.add_0_r, Nat.mod_small; [done|apply Hok].
  - unfold result_of. cbn [ticks]. rewrite run_bind.
    destruct ((draw B t st).2) as [r st1|] eqn:Hdraw; [|done].
    rewrite result_of_prepend, run_bind.
    destruct ((ticks B ts st1).2) as [rs1 st2|] eqn:Hticks; [|done].
    rewrite result_of_prepend. intros [= <- <-].
    destruct (draw_maintains B t st r st1 Hok Hdraw) as [Hok1 Hfix].
    destruct (draw_done B t st r st1 Hok Hdraw) as [Hr Hc].
    destruct (IH st1 rs1 st2 Hok1 Hticks) as [Hrs Hc2].
    assert (Hsr : sync_resources st1 = sync_resources st)
      by (by injection Hfix).
    split; [by rewrite Hr, Hrs|].
    rewrite Hc2, Hc, Hsr, presenting_cons.
    destruct (VkResult_eqb (acquire_result t) VK_ERROR_OUT_OF_DATE_KHR).
    + done.
    + rewrite Nat.Div0.add_mod_idemp_l. f_equal. lia.
Qed.

Lemma ticks_cursor_witness :
  ∃ st', result_of (ticks (demo_backend 3) [ok_tick 0; stale_tick; ok_tick 1; ok_tick 2])
           (demo_state 2 3 None)
         = Done [success; swapchain_out_of_date; success; success] st'
         ∧ current_frame_index st' = 1.
Proof.
  set (ts := [ok_tick 0; stale_tick; ok_tick 1; ok_tick 2]).
  destruct (result_of (ticks (demo_backend 3) ts) (demo_state 2 3 None))
    as [rs st'|f] eqn:E; [|by vm_compute in E].
  destruct (ticks_cursor (demo_backend 3) ts (demo_state 2 3 None) rs st')
    as [Hrs Hc]; [split; vm_compute; try lia; eauto | exact E |].
  exists st'. split; [by rewrite Hrs | rewrite Hc; reflexivity].
Defined.

(** ** The steady state *)

Lemma result_of_ticks_cons B t ts st :
  result_of (ticks B (t :: ts)) st
  = match result_of (draw B t) st with
    | Done r st1 =>
        match result_of (ticks B ts) st1 with
        | Done rs st2 => Done (r :: rs) st2
        | Failed f => Failed f
        end
    | Failed f => Failed f
    end.
Proof.
  unfold result_of. cbn [ticks]. rewrite run_bind.
  destruct ((draw B t st).2) as [r st1|]; [|done].
  rewrite result_of_prepend, run_bind.
  by destruct ((ticks B ts st1).2).
Qed.

Lemma after_present_steady B t s :
  rebuilds_after_present t s = false →
  present_result t = VK_SUCCESS →
  length (sync_resources s) ≠ 0 →
  after_present B t s
  = ([], Done success
       (set_current_frame_index
          ((current_frame_index s + 1) `mod` length (sync_resources s)) s)).
Proof.
  intros Hno Hp Hn. unfold after_present, rebuilds_after_present in *.
  rewrite run_gets, Hno, Hp. cbn [VkResult_eqb negb].
  rewrite run_ret, run_advance.
  by destruct (Nat.eqb_spec (length (sync_resources s)) 0).
Qed.







(** * Framebuffers and the swapchain *)

Lemma hoare_true {A} (P : RVPT → Prop) (m : M A) : hoare P m (λ _ _, True).
Proof. by intros st a st' _ _. Qed.

Lemma hoare_stable {A X} (proj : RVPT → X) (J : RVPT → Prop) (m : M A) :
  (∀ st st', proj st' = proj st → J st → J st') →
  preserves proj m → hoare J m (λ _, J).
Proof. intros HJ Hm st a st' H Hd. apply (HJ st); [by eapply Hm|done]. Qed.

(** The loop of [create_framebuffers] runs past the views. *)
Lemma run_framebuffer_loop_fails n : ∀ i (st : RVPT),
  i ≤ length (swapchain_image_views st) →
  length (swapchain_image_views st) < i + n →
  (for_loop i n (λ i,
    views ← gets swapchain_image_views;
    view ← index views i;
    rp ← gets fullscreen_tri_render_pass;
    sc ← gets vkb_swapchain;
    h ← fresh;
    fbs ← gets framebuffers;
    modify (set_framebuffers
      (fbs ++ [ {| framebuffer := h; fb_render_pass := rp;
                   fb_extent := extent sc; fb_image_views := [view] |} ]))) st).2
  = Failed Undefined.
Proof.
  induction n as [|n IH]; intros i st Hle Hlt; [lia|].
  cbn [for_loop]. rewrite run_assoc, run_gets.
  destruct (swapchain_image_views st !! i) as [v|] eqn:Ev.
  - rewrite run_assoc, (run_index _ _ v) by done.
    rewrite run_assoc, run_gets, run_assoc, run_gets, run_assoc, run_fresh.
    rewrite run_assoc, run_gets, run_modify.
    apply lookup_lt_Some in Ev.
    apply IH; cbn [swapchain_image_views set_framebuffers set_next_handle].
    + lia.
    + lia.
  - by rewrite run_assoc, run_index_none.
Qed.

Lemma result_of_create_framebuffers st :
  result_of create_framebuffers st
  = if decide (image_count (vkb_swapchain st) ≤ length (swapchain_image_views st))
    then Done tt (with_framebuffers st) else Failed Undefined.
Proof.
  unfold result_of. destruct (decide _) as [Hle|Hgt].
  - rewrite <- run_bind_ret, run_create_framebuffers by done.
    by rewrite result_of_prepend.
  - unfold create_framebuffers.
    rewrite run_gets, run_destroy_framebuffers, result_of_prepend, run_modify, run_gets.
    apply run_framebuffer_loop_fails;
      cbn [swapchain_image_views vkb_swapchain set_framebuffers]; lia.
Qed.

Lemma new_framebuffers_contents rp e vs : ∀ h,
  framebuffer_contents <$> new_framebuffers rp e h vs = (λ v, (rp, e, [v])) <$> vs.
Proof. induction vs as [|v vs IH]; intros h; [done|]. cbn. by rewrite IH. Qed.

Lemma with_framebuffers_match st :
  image_count (vkb_swapchain st) ≤ length (swapchain_image_views st) →
  framebuffers_match (with_framebuffers st).
Proof.
  intros Hle. split; [done|].
  unfold with_framebuffers.
  cbn [framebuffers vkb_swapchain swapchain_image_views fullscreen_tri_render_pass
       set_framebuffers set_next_handle].
  apply new_framebuffers_contents.
Qed.

Lemma create_framebuffers_match P :
  hoare P create_framebuffers (λ _, framebuffers_match).
Proof.
  intros st [] st' _. fold (result_of create_framebuffers st).
  rewrite result_of_create_framebuffers.
  destruct (decide _) as [Hle|]; [|done].
  intros [= <-]. by apply with_framebuffers_match.
Qed.

(** X8.  [create_framebuffers] reads past the end of
    [swapchain_image_views] exactly when the swapchain has more images
    than there are views.  Otherwise it leaves one framebuffer per image,
    in order, each over the view of the same index, with the render pass
    and the extent of the swapchain. *)
Theorem create_framebuffers_defined st :
  match result_of create_framebuffers st with
  | Done _ st' =>
      image_count (vkb_swapchain st) ≤ length (swapchain_image_views st)
      ∧ length (framebuffers st') = image_count (vkb_swapchain st)
      ∧ framebuffers_match st'
      ∧ (vkb_swapchain st', swapchain_image_views st') =
        (vkb_swapchain st, swapchain_image_views st)
  | Failed f =>
      f = Undefined
      ∧ length (swapchain_image_views st) < image_count (vkb_swapchain st)
  end.
Proof.
  rewrite result_of_create_framebuffers.
  destruct (decide _) as [Hle|Hgt].
  - split_and!; [done| |by apply with_framebuffers_match|done].
    pose proof (with_framebuffers_match st Hle) as [_ Hm].
    apply (f_equal length) in Hm. rewrite !length_fmap, length_take in Hm.
    cbn [vkb_swapchain swapchain_image_views with_framebuffers set_framebuffers
         set_next_handle] in Hm.
    rewrite Hm. lia.
  - split; [done|lia].
Qed.

Lemma framebuffers_match_stable st st' :
  swapchain_parts st' = swapchain_parts st →
  framebuffers_match st → framebuffers_match st'.
Proof.
  intros [= H1 H2 H3 H4]. unfold framebuffers_match. by rewrite H1, H2, H3, H4.
Qed.

Lemma framebuffers_sound_stable st st' :
  swapchain_parts st' = swapchain_parts st →
  framebuffers_sound st → framebuffers_sound st'.
Proof.
  intros H [Hm|He]; [left; by apply (framebuffers_match_stable st)|right].
  injection H as H1 _ _ _. by rewrite H1.
Qed.

Lemma swapchain_reinit_sound B w P :
  hoare P (swapchain_reinit B w) (λ _, framebuffers_sound).
Proof.
  unfold swapchain_reinit.
  eapply hoare_bind; [apply hoare_true|intros old].
  eapply hoare_bind; [apply hoare_true|intros ?].
  eapply hoare_bind;
    [apply (hoare_modify _ _ (λ _ s, framebuffers s = [])); done|intros ?].
  assert (Hkeep : ∀ A (m : M A), preserves framebuffers m →
    hoare (λ s, framebuffers s = []) m (λ _ s, framebuffers s = [])).
  { intros A m Hm. apply (hoare_preserves framebuffers (λ x, x = []) m Hm). }
  eapply hoare_bind; [apply Hkeep; preserves_tac|intros views].
  eapply hoare_bind; [apply Hkeep; preserves_tac|intros ?].
  eapply hoare_bind; [apply Hkeep; preserves_tac|intros old_sc].
  eapply hoare_bind; [apply Hkeep; preserves_tac|intros ?].
  destruct (build B w (Some old_sc)) as [sc|].
  - eapply hoare_bind; [apply hoare_true|intros ?].
    eapply hoare_bind; [apply hoare_true|intros ?].
    eapply hoare_bind; [apply hoare_true|intros out].
    eapply hoare_bind; [apply create_framebuffers_match|intros ?].
    intros s r s' Hm [= _ <-]. by left.
  - intros s r s' He [= _ <-]. by right.
Qed.

Ltac preserves_draw_step :=
  solve [ unfold current_per_frame_data; preserves_tac;
          first [ by apply preserves_copy_to
                | apply preserves_record_compute_command_buffer
                | apply preserves_compute_or_graphics_queue
                | apply preserves_record_command_buffer
                | apply preserves_modify; intros; reflexivity ] ].

Lemma draw_sound B t :
  hoare framebuffers_sound (draw B t) (λ _, framebuffers_sound).
Proof.
  assert (Hkeep : ∀ A (m : M A), preserves swapchain_parts m →
    hoare framebuffers_sound m (λ _, framebuffers_sound)).
  { intros A m. apply (hoare_stable swapchain_parts), framebuffers_sound_stable. }
  unfold draw.
  repeat match goal with
  | |- hoare _ (_ ≫= _) _ =>
      eapply hoare_bind; [apply Hkeep; preserves_draw_step | intros ?]
  end.
  cbv zeta. destruct (VkResult_eqb (acquire_result t) VK_ERROR_OUT_OF_DATE_KHR).
  { eapply hoare_bind; [apply swapchain_reinit_sound|intros ?]. apply hoare_ret. }
  repeat match goal with
  | |- hoare _ (_ ≫= _) _ =>
      eapply hoare_bind; [apply Hkeep; preserves_draw_step | intros ?]
  end.
  eapply hoare_bind.
  { destruct (_ || _ || _).
    - eapply hoare_bind; [apply Hkeep; preserves_draw_step|intros ?].
      eapply hoare_bind; [apply swapchain_reinit_sound|intros ?]. apply hoare_ret.
    - apply Hkeep. preserves_draw_step. }
  intros ?. apply Hkeep. preserves_all.
Qed.

Lemma ticks_sound B ts :
  hoare framebuffers_sound (ticks B ts) (λ _, framebuffers_sound).
Proof.
  induction ts as [|t ts IH]; cbn [ticks].
  - apply hoare_ret.
  - eapply hoare_bind; [apply draw_sound|intros r].
    eapply hoare_bind; [apply IH|intros rs]. apply hoare_ret.
Qed.

Lemma initialize_match B D N w P :
  hoare P (initialize B D N w) (λ _, framebuffers_match).
Proof.
  unfold initialize.
  do 2 (eapply hoare_bind; [apply hoare_true|intros ?]). cbv zeta.
  do 6 (eapply hoare_bind; [apply hoare_true|intros ?]).
  eapply hoare_bind; [apply create_framebuffers_match|intros ?].
  apply (hoare_stable swapchain_parts framebuffers_match);
    [apply framebuffers_match_stable|].
  unfold create_rendering_resources.
  preserves_all. by apply preserves_add_per_frame_data.
Qed.

(** X9.  The framebuffers follow the swapchain and
    [swapchain_image_views].  When [initialize] returns there is one
    framebuffer per image of the swapchain, the [i]-th over the [i]-th
    entry of [swapchain_image_views], with the render pass and the extent
    of the swapchain; and after any run of ticks that return this still
    holds, or no framebuffer is left at all (a rebuild whose builder
    failed).  Nothing is said here on whether those entries are views of
    the current swapchain. *)
Theorem framebuffers_fit_swapchain B D N w s0 b st0 :
  result_of (initialize B D N w) s0 = Done b st0 →
  framebuffers_match st0
  ∧ ∀ B' ts rs st,
      result_of (ticks B' ts) st0 = Done rs st → framebuffers_sound st.
Proof.
  intros Hinit.
  assert (Hm : framebuffers_match st0)
    by (by apply (initialize_match B D N w (λ _, True) s0 b st0)).
  split; [done|].
  intros B' ts rs st Hticks.
  apply (ticks_sound B' ts st0 rs st); [by left|done].
Qed.

Lemma framebuffers_fit_swapchain_witness :
  framebuffers_match (demo_state 2 3 None).
Proof.
  edestruct (framebuffers_fit_swapchain (demo_backend 3) (demo_device None) 2
               window512 new_RVPT) as [H _]; [|exact H].
  vm_compute. reflexivity.
Defined.

(** * Initialization *)

(** [context_init] makes no backend call of the trace and never faults;
    it returns whether every stage succeeded, and when a stage fails the
    present queue is left as it was. *)
Lemma context_init_run D st :
  ∃ st1, context_init D st = ([], Done (context_ok D) st1)
         ∧ (context_ok D = false → present_queue st1 = present_queue st)
         ∧ (context_ok D = true →
            is_Some (graphics_queue st1) ∧ is_Some (present_queue st1)).
Proof.
  unfold context_init, context_ok.
  destruct (instance_ok D); [|by eexists].
  destruct (surface_ok D); [|by eexists].
  destruct (physical_device_ok D); [|by eexists].
  destruct (device_ok D); [|by eexists].
  cbn [negb andb].
  destruct (graphics_index D) as [gi|]; [|by eexists].
  rewrite run_modify.
  destruct (present_index D) as [pi|]; [|by eexists].
  rewrite run_modify.
  destruct (dedicated_compute_index D) as [ci|].
  - rewrite run_modify. eexists. split; [reflexivity|]. by split.
  - rewrite run_ret. eexists. split; [reflexivity|]. by split.
Qed.

Lemma run_swapchain_init {A} B w (k : bool → M A) st :
  (swapchain_init B w ≫= k) st
  = prepend [EvBuildSwapchain w None]
      match build B w None with
      | None => k false st
      | Some sc => k (with_images B (set_vkb_swapchain sc st)).1
                     (with_images B (set_vkb_swapchain sc st)).2
      end.
Proof.
  unfold swapchain_init. rewrite run_assoc, run_emit.
  destruct (build B w None) as [sc|].
  - by rewrite run_assoc, run_modify, run_swapchain_get_images.
  - by rewrite run_ret.
Qed.

Lemma with_images_queues B st :
  (graphics_queue (with_images B st).2, present_queue (with_images B st).2)
  = (graphics_queue st, present_queue st).
Proof.
  unfold with_images.
  destruct (get_images B _); [|done]. by destruct (get_image_views B _).
Qed.

Lemma with_images_flag B w sc st :
  build B w None = Some sc →
  (with_images B (set_vkb_swapchain sc st)).1 = swapchain_ok B w.
Proof.
  intros Hb. unfold with_images, swapchain_ok. rewrite Hb.
  cbn [vkb_swapchain set_vkb_swapchain].
  destruct (get_images B sc); [|done]. by destruct (get_image_views B sc).
Qed.

(** The first round of the loop of lines 35 to 39 without a present
    queue. *)
Lemma sync_loop_throws {A} n body' (k : unit → M A) st :
  present_queue st = None →
  (for_loop 0 (S n) (λ _,
     gq ← gets graphics_queue;
     g ← value gq;
     pq ← gets present_queue;
     p ← value pq;
     body' g p) ≫= k) st = ([], Failed Thrown).
Proof.
  intros Hp. cbn [for_loop]. rewrite !run_assoc, run_gets.
  unfold value. destruct (graphics_queue st).
  - rewrite run_assoc, run_ret, run_assoc, run_gets, Hp. by rewrite !run_assoc, run_fault.
  - by rewrite !run_assoc, run_fault.
Qed.

Lemma initialize_without_context B D N w st0 :
  context_ok D = false →
  0 < N →
  present_queue st0 = None →
  initialize B D N w st0 = ([EvBuildSwapchain w None], Failed Thrown).
Proof.
  intros Hctx HN Hp.
  destruct (context_init_run D st0) as (st1 & Hrun & Hfail & _).
  specialize (Hfail Hctx).
  unfold initialize.
  rewrite run_bind, Hrun. cbn [fst snd]. rewrite prepend_nil.
  rewrite run_swapchain_init. cbv zeta.
  destruct N as [|n]; [lia|].
  destruct (build B w None) as [sc|].
  - rewrite sync_loop_throws; [done|].
    pose proof (with_images_queues B (set_vkb_swapchain sc st1)) as [= _ ->].
    cbn. by rewrite Hfail.
  - rewrite sync_loop_throws; [done|]. by rewrite Hfail.
Qed.

(** X10.  [initialize] does not return [false] when [context_init]
    fails.  It goes on to call the swapchain builder, and with at least
    one frame in flight the first [sync_resources.emplace_back] throws
    [std::bad_optional_access] at [graphics_queue.value()] or
    [present_queue.value()]. *)
Theorem initialize_context_failure B D N w st0 :
  context_ok D = false →
  0 < N →
  present_queue st0 = None →
  initialize B D N w st0 = ([EvBuildSwapchain w None], Failed Thrown).
Proof. apply initialize_without_context. Qed.

Lemma initialize_context_failure_witness :
  result_of (initialize (demo_backend 3) headless_device 2 window512) new_RVPT
  = Failed Thrown.
Proof.
  unfold result_of.
  rewrite initialize_context_failure; [reflexivity | reflexivity | lia | reflexivity].
Defined.

Lemma returns_bind {A B} (m : M A) (k : A → M B) b :
  (∀ a, returns (k a) b) → returns (m ≫= k) b.
Proof.
  intros Hk st b' st'. rewrite run_bind.
  destruct (m st) as [tr [a st1|f]]; cbn [fst snd]; [|done].
  rewrite result_of_prepend. apply Hk.
Qed.

Lemma returns_ret {A} (a : A) : returns (mret a) a.
Proof. by intros st a' st' [= <- _]. Qed.

Lemma initialize_returns_run B D N w b st :
  0 < N →
  result_of (initialize B D N w) new_RVPT = Done b st →
  context_ok D = true ∧ b = swapchain_ok B w.
Proof.
  intros HN. unfold result_of.
  destruct (context_ok D) eqn:Hctx.
  2: { by rewrite initialize_without_context. }
  intros H. split; [done|]. revert H.
  destruct (context_init_run D new_RVPT) as (st1 & Hrun & _).
  unfold initialize.
  rewrite run_bind, Hrun. cbn [fst snd]. rewrite prepend_nil, Hctx.
  rewrite run_swapchain_init, result_of_prepend. cbv zeta. cbn [andb].
  assert (Hret : ∀ b2 : bool, @returns bool
    (for_loop 0 N (λ _,
       gq ← gets graphics_queue;
       g ← value gq;
       pq ← gets present_queue;
       p ← value pq;
       sc ← gets vkb_swapchain;
       s ← new_sync_resources g p (swapchain sc);
       modify (λ st, set_sync_resources (sync_resources st ++ [s]) st));;
     modify (λ st, set_frames_inflight_fences
       (resize (image_count (vkb_swapchain st)) VK_NULL_HANDLE
               (frames_inflight_fences st)) st);;
     rp ← fresh;
     modify (set_fullscreen_tri_render_pass rp);;
     gq ← gets graphics_queue;
     _ ← deref gq;
     create_framebuffers;;
     modify (λ st, set_spheres (spheres st ++ initial_spheres) st);;
     rr ← create_rendering_resources;
     modify (set_rendering_resources (Some rr));;
     for_loop 0 N (λ _, add_per_frame_data);;
     modify (λ st, set_random_numbers (resize 1024 0%Z (random_numbers st)) st);;
     mret b2) b2).
  { intros b2. repeat (apply returns_bind; intros ?). apply returns_ret. }
  destruct (build B w None) as [sc|] eqn:Hb.
  - intros H. apply Hret in H. subst b. by apply with_images_flag.
  - intros H. apply Hret in H. subst b. unfold swapchain_ok. by rewrite Hb.
Qed.

(** X11.  With at least one frame in flight, when [initialize] returns,
    every stage of [context_init] has succeeded and the value returned is
    that of [swapchain_init]: [false] is returned only when the swapchain
    builder or one of the two image queries fails. *)
Theorem initialize_returns B D N w b st :
  0 < N →
  result_of (initialize B D N w) new_RVPT = Done b st →
  context_ok D = true ∧ b = swapchain_ok B w.
Proof. apply initialize_returns_run. Qed.

Lemma initialize_returns_witness :
  ∃ st, result_of (initialize (demo_backend 3) (demo_device None) 2 window512) new_RVPT
        = Done true st.
Proof.
  destruct (result_of (initialize (demo_backend 3) (demo_device None) 2 window512)
              new_RVPT) as [b st|f] eqn:E; [|by vm_compute in E].
  destruct (initialize_returns (demo_backend 3) (demo_device None) 2 window512 b st)
    as [_ Hb]; [lia | exact E |].
  exists st. by rewrite Hb.
Defined.

(** ** The stages of [initialize] *)

(** When [initialize] returns, it has run the loop of lines 59 to 62
    from a state without slots or descriptor writes, with the sixteen
    spheres, the pipelines, the graphics queue and a queue for the compute
    work, and it has sized the random numbers afterwards. *)
Lemma initialize_stages B D N w b st :
  result_of (initialize B D N w) new_RVPT = Done b st →
  ∃ s1 s2 g q res,
    per_frame_data s1 = [] ∧ descriptor_table s1 = []
    ∧ spheres s1 = initial_spheres ∧ random_numbers s1 = []
    ∧ rendering_resources s1 = Some res ∧ compute_submit_queue s1 = Some q
    ∧ graphics_queue s1 = Some g
    ∧ result_of (for_loop 0 N (λ _, add_per_frame_data)) s1 = Done tt s2
    ∧ st = set_random_numbers (resize 1024 0%Z (random_numbers s2)) s2.
Proof.
  intros Hdone.
  set (Q := λ (_ : bool) (st : RVPT), ∃ s1 s2 g q res,
    per_frame_data s1 = [] ∧ descriptor_table s1 = []
    ∧ spheres s1 = initial_spheres ∧ random_numbers s1 = []
    ∧ rendering_resources s1 = Some res ∧ compute_submit_queue s1 = Some q
    ∧ graphics_queue s1 = Some g
    ∧ result_of (for_loop 0 N (λ _, add_per_frame_data)) s1 = Done tt s2
    ∧ st = set_random_numbers (resize 1024 0%Z (random_numbers s2)) s2).
  set (F := λ s : RVPT,
    (per_frame_data s, descriptor_table s, spheres s, random_numbers s)).
  assert (H : hoare (λ s, F s = ([], [], [], [])) (initialize B D N w) Q).
  2: { by apply (H new_RVPT b st). }
  clear Hdone. unfold initialize.
  assert (Hkeep : ∀ A (m : M A), preserves F m →
    hoare (λ s, F s = ([], [], [], [])) m (λ _ s, F s = ([], [], [], []))).
  { intros A m Hm. apply (hoare_preserves F (λ x, x = ([], [], [], [])) m Hm). }
  eapply hoare_bind; [apply Hkeep; unfold context_init; preserves_all|intros init].
  eapply hoare_bind;
    [apply Hkeep; apply preserves_swapchain_init; by repeat split|intros init2].
  cbv zeta.
  eapply hoare_bind;
    [apply Hkeep; unfold new_sync_resources; preserves_all|intros ?].
  eapply hoare_bind; [apply Hkeep; preserves_all|intros ?].
  eapply hoare_bind; [apply Hkeep; preserves_all|intros rp].
  eapply hoare_bind; [apply Hkeep; preserves_all|intros ?].
  apply hoare_gets_deref. intros g.
  apply (hoare_ghost compute_queue). intros cq.
  set (q := match cq with Some c => c | None => g end).
  set (K := λ sph (s : RVPT), late_parts s = ([], [], sph, [], cq, Some g)).
  assert (HkeepK : ∀ sph A (m : M A), preserves late_parts m →
    hoare (K sph) m (λ _, K sph)).
  { intros sph A m Hm. subst K.
    apply (hoare_preserves late_parts (λ x, x = ([], [], sph, [], cq, Some g)) m Hm). }
  apply (hoare_consequence (K []) _ _ Q _).
  { intros s [[HF Hg] Hc]. subst K F. unfold late_parts. cbn beta in *.
    injection HF as -> -> -> ->. by rewrite Hg, Hc. }
  { done. }
  eapply hoare_bind;
    [apply HkeepK; by apply preserves_create_framebuffers|intros ?].
  eapply hoare_bind.
  { apply (hoare_modify _ _ (λ _, K initial_spheres)).
    intros s Hs. subst K. unfold late_parts in *. cbn beta in *.
    injection Hs as H1 H2 H3 H4 H5 H6.
    cbn [per_frame_data descriptor_table spheres random_numbers compute_queue
         graphics_queue set_spheres].
    by rewrite H1, H2, H3, H4, H5, H6. }
  intros ?.
  eapply hoare_bind;
    [apply HkeepK; unfold create_rendering_resources; preserves_all|intros rr].
  eapply hoare_bind.
  { apply (hoare_modify _ _
      (λ _ s, K initial_spheres s ∧ rendering_resources s = Some rr)).
    intros s Hs. split; [|done]. exact Hs. }
  intros ?.
  intros s b' st' [HK Hrr]. rewrite run_bind.
  destruct ((for_loop 0 N (λ _, add_per_frame_data) s).2) as [[] s2|] eqn:Hloop;
    [|done].
  rewrite result_of_prepend, run_modify. intros [= _ <-].
  subst K Q. unfold late_parts in HK. cbn beta in *.
  injection HK as H1 H2 H3 H4 H5 H6.
  exists s, s2, g, q, rr. split_and!; try done.
  unfold compute_submit_queue. rewrite H5, H6. subst q. by destruct cq.
Qed.

(** ** Frame conditions on the slots *)

Lemma preserves_copy_to_slots {X} (f : PerFrameData → X) get put data :
  (∀ d, f (with_contents get put data d) = f d) →
  preserves (λ st, f <$> per_frame_data st) (copy_to get put data).
Proof.
  intros Hsame st a st'. rewrite <- run_bind_ret.
  destruct (per_frame_data st !! current_frame_index st) as [d|] eqn:Hd.
  - rewrite (run_copy_to _ _ _ d) by done.
    unfold prepend, mret, M_ret. cbn [snd]. intros [= _ <-].
    cbn [per_frame_data set_per_frame_data].
    rewrite list_fmap_insert, Hsame.
    apply list_insert_id. by rewrite list_lookup_fmap, Hd.
  - unfold copy_to. by rewrite run_assoc, run_current_per_frame_data_none.
Qed.

(** A tick keeps whatever of the slots the four uploads do not touch. *)
Lemma preserves_draw_slots {X} (f : PerFrameData → X) B t :
  (∀ data d, f (with_contents camera_uniform put_camera_uniform data d) = f d) →
  (∀ data d, f (with_contents random_uniform put_random_uniform data d) = f d) →
  (∀ data d, f (with_contents settings_uniform put_settings_uniform data d) = f d) →
  (∀ data d, f (with_contents sphere_buffer put_sphere_buffer data d) = f d) →
  preserves (λ st, f <$> per_frame_data st) (draw B t).
Proof.
  intros H1 H2 H3 H4.
  assert (Hout : outside_swapchain (λ st, f <$> per_frame_data st))
    by (by repeat split).
  unfold draw, current_per_frame_data.
  preserves_tac;
    first [ by apply preserves_copy_to_slots
          | apply preserves_record_compute_command_buffer
          | apply preserves_compute_or_graphics_queue
          | apply preserves_record_command_buffer
          | by apply preserves_swapchain_reinit
          | apply preserves_modify; intros; reflexivity ].
Qed.

(** A tick keeps every part of the renderer outside the slots, the
    cursor, the fence table, the resize flag and the swapchain. *)
Lemma preserves_draw_outside {X} (g : RVPT → X) B t :
  outside_swapchain g →
  (∀ v st, g (set_per_frame_data v st) = g st) →
  (∀ v st, g (set_framebuffer_resized v st) = g st) →
  (∀ v st, g (set_current_frame_index v st) = g st) →
  (∀ v st, g (set_frames_inflight_fences v st) = g st) →
  preserves g (draw B t).
Proof.
  intros Hout Hp Hr Hc Hf.
  unfold draw, current_per_frame_data.
  preserves_tac;
    first [ by apply preserves_copy_to
          | apply preserves_record_compute_command_buffer
          | apply preserves_compute_or_graphics_queue
          | apply preserves_record_command_buffer
          | by apply preserves_swapchain_reinit
          | apply preserves_modify; intros; auto ].
Qed.

Lemma preserves_pair {A X Y} (p1 : RVPT → X) (p2 : RVPT → Y) (m : M A) :
  preserves p1 m → preserves p2 m → preserves (λ st, (p1 st, p2 st)) m.
Proof. intros H1 H2 st a st' H. by rewrite (H1 _ _ _ H), (H2 _ _ _ H). Qed.

Lemma Forall_fmap_eq {A X} (f : A → X) (P P' : A → Prop) :
  (∀ a a', f a' = f a → P a → P' a') →
  ∀ l l', f <$> l' = f <$> l → Forall P l → Forall P' l'.
Proof.
  intros HP l. induction l as [|a l IH]; intros [|a' l'] [=] Hl.
  - done.
  - apply Forall_cons in Hl as [Ha Hl].
    apply Forall_cons. split; [by apply (HP a)|by apply IH].
Qed.

(** ** The uploads fit the buffers *)

Lemma sizes_fit_stable st st' :
  upload_parts st' = upload_parts st →
  Forall (sizes_fit st) (per_frame_data st) →
  Forall (sizes_fit st') (per_frame_data st').
Proof.
  intros [= Hs Hr Hsp].
  apply (Forall_fmap_eq buffer_sizes (sizes_fit st)); [|done].
  intros d d' [= H1 H2]. unfold sizes_fit. by rewrite Hr, Hsp, H1, H2.
Qed.

Lemma preserves_draw_upload_parts B t : preserves upload_parts (draw B t).
Proof.
  apply preserves_pair.
  - by apply preserves_draw_slots.
  - apply preserves_draw_outside; by repeat split.
Qed.

(** One more slot, with buffers for the spheres there are. *)
Lemma slot_loop_body_sizes g q res :
  hoare (λ st, (rendering_resources st, compute_submit_queue st, spheres st,
                graphics_queue st)
               = (Some res, Some q, initial_spheres, Some g)
               ∧ Forall (λ d, buffer_sizes d = (4096, sizeof_Sphere * 16)%Z)
                   (per_frame_data st))
    add_per_frame_data
    (λ _ st, (rendering_resources st, compute_submit_queue st, spheres st,
              graphics_queue st)
             = (Some res, Some q, initial_spheres, Some g)
             ∧ Forall (λ d, buffer_sizes d = (4096, sizeof_Sphere * 16)%Z)
                 (per_frame_data st)).
Proof.
  intros st a st' ([= Hr Hq Hs Hg] & Hall).
  rewrite <- run_bind_ret, (run_add_per_frame_data g q res) by done.
  unfold prepend, mret, M_ret. cbn [snd]. intros [= _ <-].
  unfold with_new_slot, compute_submit_queue in *.
  cbn [rendering_resources compute_queue graphics_queue spheres per_frame_data
       set_per_frame_data set_descriptor_table set_next_handle].
  rewrite Hr, Hq, Hs, Hg. split; [done|].
  apply Forall_app. split; [done|]. by apply Forall_singleton.
Qed.

Lemma initialize_sizes B D N w b st :
  result_of (initialize B D N w) new_RVPT = Done b st →
  Forall (sizes_fit st) (per_frame_data st).
Proof.
  intros Hdone.
  destruct (initialize_stages B D N w b st Hdone)
    as (s1 & s2 & g & q & res & Hp & _ & Hsp & _ & Hr & Hq & Hg & Hloop & ->).
  pose proof (hoare_for_loop
    (λ _ st, (rendering_resources st, compute_submit_queue st, spheres st,
              graphics_queue st)
             = (Some res, Some q, initial_spheres, Some g)
             ∧ Forall (λ d, buffer_sizes d = (4096, sizeof_Sphere * 16)%Z)
                 (per_frame_data st))
    (λ _, add_per_frame_data) N 0 0
    (λ _ _, slot_loop_body_sizes g q res) s1 tt s2) as H.
  destruct H as ([= _ _ Hsp2 _] & Hall); [|exact Hloop|].
  { rewrite Hr, Hq, Hsp, Hp, Hg. by split. }
  cbn [per_frame_data set_random_numbers].
  eapply Forall_impl; [exact Hall|].
  intros d [= H1 H2]. unfold sizes_fit, payload_size.
  cbn [random_numbers spheres set_random_numbers].
  rewrite length_resize, Hsp2, H1, H2. done.
Qed.

(** X12.  The uploads of a tick fill their buffers exactly.  When
    [initialize] returns, and after any run of ticks that return, the
    random numbers take the 4096 bytes of every slot's [random_uniform]
    and the spheres take the bytes of every slot's [sphere_buffer], which
    was sized by [sizeof(Sphere) * spheres.size()] when the slot was
    made. *)
Theorem uploads_fit_buffers B D N w b st0 :
  result_of (initialize B D N w) new_RVPT = Done b st0 →
  ∀ B' ts rs st,
    result_of (ticks B' ts) st0 = Done rs st →
    Forall (sizes_fit st) (per_frame_data st).
Proof.
  intros Hinit B' ts rs st Hticks.
  apply (sizes_fit_stable st0).
  - apply (preserves_ticks upload_parts B' ts (preserves_draw_upload_parts B') _ _ _ Hticks).
  - by apply (initialize_sizes B D N w b).
Qed.

Lemma uploads_fit_buffers_witness :
  Forall (sizes_fit after_first_tick) (per_frame_data after_first_tick).
Proof.
  apply (uploads_fit_buffers (demo_backend 3) (demo_device None) 2 window512 true
           (demo_state 2 3 None) ltac:(vm_compute; reflexivity)
           (demo_backend 3) [ok_tick 0] [success]).
  vm_compute. reflexivity.
Defined.

(** ** What the descriptor sets resolve to *)

Lemma bound_at_app_other ws table set binding :
  Forall (λ w, dst_set w ≠ set) ws →
  bound_at (ws ++ table) set binding = bound_at table set binding.
Proof.
  intros Hws. unfold bound_at. rewrite List.filter_app.
  replace (List.filter _ ws) with (@nil DescriptorWrite); [done|].
  symmetry. induction Hws as [|w ws Hw _ IH]; [done|].
  cbn [List.filter]. apply Nat.eqb_neq in Hw. by rewrite Hw.
Qed.

Lemma resolved_stable table d d' :
  slot_objects d' = slot_objects d →
  resolved table d = slot_bindings d → resolved table d' = slot_bindings d'.
Proof.
  intros [= H1 H2 H3 H4 H5 H6 H7]. unfold resolved, slot_bindings.
  by rewrite H1, H2, H3, H4, H5, H6, H7.
Qed.

Lemma new_slot_resolved n q k table :
  resolved (rev (compute_writes (new_slot n q k))
            ++ rev (sampling_writes (new_slot n q k)) ++ table) (new_slot n q k)
  = slot_bindings (new_slot n q k).
Proof.
  unfold resolved, slot_bindings, bound_at, compute_writes, sampling_writes, new_slot.
  cbn [rev app fmap list_fmap List.filter dst_set dst_binding bound_object
       image_descriptor_set raytracing_descriptor_sets output_image image_handle
       camera_uniform random_uniform settings_uniform sphere_buffer buffer_handle].
  rewrite !Nat.eqb_refl.
  rewrite (proj2 (Nat.eqb_neq (n + 8) (n + 7))) by lia.
  cbn [andb Nat.eqb List.filter head fmap option_fmap option_map bound_object].
  reflexivity.
Qed.

Lemma slot_loop_body_resolved g q res :
  hoare (λ st, (rendering_resources st, compute_submit_queue st, graphics_queue st)
               = (Some res, Some q, Some g)
               ∧ Forall (slot_resolved st) (per_frame_data st))
    add_per_frame_data
    (λ _ st, (rendering_resources st, compute_submit_queue st, graphics_queue st)
             = (Some res, Some q, Some g)
             ∧ Forall (slot_resolved st) (per_frame_data st)).
Proof.
  intros st a st' ([= Hr Hq Hg] & Hall).
  rewrite <- run_bind_ret, (run_add_per_frame_data g q res) by done.
  unfold prepend, mret, M_ret. cbn [snd]. intros [= _ <-].
  set (n := next_handle st). set (k := length (spheres st)).
  split.
  { unfold with_new_slot, compute_submit_queue in *.
    cbn [rendering_resources compute_queue graphics_queue
         set_per_frame_data set_descriptor_table set_next_handle].
    by rewrite Hr, Hq, Hg. }
  unfold with_new_slot. fold n k.
  cbn [per_frame_data set_per_frame_data].
  apply Forall_app. split.
  - eapply Forall_impl; [exact Hall|].
    intros d (Hres & H1 & H2). fold n in H1, H2.
    unfold slot_resolved.
    cbn [descriptor_table next_handle set_per_frame_data set_descriptor_table
         set_next_handle].
    split_and!; [|lia|lia].
    rewrite <- Hres. unfold resolved.
    rewrite !app_assoc.
    assert (Hother : ∀ s, s < n →
      Forall (λ w, dst_set w ≠ s)
        (rev (compute_writes (new_slot n q k)) ++ rev (sampling_writes (new_slot n q k)))).
    { intros s Hs. unfold compute_writes, sampling_writes, new_slot. cbn.
      repeat (apply Forall_cons; split; [cbn; lia|]). by apply Forall_nil. }
    cbn [fmap list_fmap].
    by rewrite !(bound_at_app_other _ _ _ _ (Hother _ H1)),
               !(bound_at_app_other _ _ _ _ (Hother _ H2)).
  - apply Forall_singleton. unfold slot_resolved.
    cbn [descriptor_table next_handle set_per_frame_data set_descriptor_table
         set_next_handle].
    split_and!; [apply new_slot_resolved|cbn; lia|cbn; lia].
Qed.

Lemma initialize_resolved B D N w b st :
  result_of (initialize B D N w) new_RVPT = Done b st →
  Forall (λ d, resolved (descriptor_table st) d = slot_bindings d) (per_frame_data st).
Proof.
  intros Hdone.
  destruct (initialize_stages B D N w b st Hdone)
    as (s1 & s2 & g & q & res & Hp & _ & _ & _ & Hr & Hq & Hg & Hloop & ->).
  pose proof (hoare_for_loop
    (λ _ st, (rendering_resources st, compute_submit_queue st, graphics_queue st)
             = (Some res, Some q, Some g)
             ∧ Forall (slot_resolved st) (per_frame_data st))
    (λ _, add_per_frame_data) N 0 0
    (λ _ _, slot_loop_body_resolved g q res) s1 tt s2) as H.
  destruct H as (_ & Hall); [|exact Hloop|].
  { rewrite Hr, Hq, Hp, Hg. by split. }
  cbn [per_frame_data descriptor_table set_random_numbers].
  eapply Forall_impl; [exact Hall|]. by intros d [? _].
Qed.

(** X13.  Every slot's descriptor sets resolve to the slot's own objects.
    When [initialize] returns, and after any run of ticks that return,
    binding 0 of a slot's sampling set and bindings 0 to 4 of its compute
    set are bound, on the device, to that slot's output image, camera,
    random, settings and sphere buffers: the writes made for one slot are
    not overwritten by those of another. *)
Theorem descriptor_sets_resolve B D N w b st0 :
  result_of (initialize B D N w) new_RVPT = Done b st0 →
  ∀ B' ts rs st,
    result_of (ticks B' ts) st0 = Done rs st →
    Forall (λ d, resolved (descriptor_table st) d = slot_bindings d)
      (per_frame_data st).
Proof.
  intros Hinit B' ts rs st Hticks.
  pose proof (preserves_ticks bindings B' ts (preserves_draw_bindings B') _ _ _ Hticks)
    as [= Ht Hb].
  rewrite Ht.
  apply (Forall_fmap_eq slot_objects
           (λ d, resolved (descriptor_table st0) d = slot_bindings d)
           _ (λ _ _, resolved_stable _ _ _) _ _ Hb).
  by apply (initialize_resolved B D N w b).
Qed.

Lemma descriptor_sets_resolve_witness :
  Forall (λ d, resolved (descriptor_table after_first_tick) d = slot_bindings d)
    (per_frame_data after_first_tick).
Proof.
  apply (descriptor_sets_resolve (demo_backend 3) (demo_device None) 2 window512 true
           (demo_state 2 3 None) ltac:(vm_compute; reflexivity)
           (demo_backend 3) [ok_tick 0] [success]).
  vm_compute. reflexivity.
Defined.

(** ** The renderer [initialize] leaves *)

Lemma preserves_initialize_flag B D N w :
  preserves framebuffer_resized (initialize B D N w).
Proof.
  unfold initialize, context_init, new_sync_resources, create_rendering_resources.
  preserves_all;
    first [ apply preserves_swapchain_init; by repeat split
          | by apply preserves_create_framebuffers
          | by apply preserves_add_per_frame_data ].
Qed.

(** X14.  What [initialize] leaves when it returns: as many sync
    resources and slots as there are frames in flight, the cursor on the
    first, the sixteen spheres of the scene, 1024 random numbers that are
    all zero, a fence table with one null entry per swapchain image, and
    no resize pending. *)
Theorem initialize_state B D N w b st :
  result_of (initialize B D N w) new_RVPT = Done b st →
  length (sync_resources st) = N
  ∧ length (per_frame_data st) = N
  ∧ current_frame_index st = 0
  ∧ spheres st = initial_spheres
  ∧ random_numbers st = replicate 1024 0%Z
  ∧ frames_inflight_fences st
    = replicate (image_count (vkb_swapchain st)) VK_NULL_HANDLE
  ∧ framebuffer_resized st = false.
Proof.
  intros Hdone.
  destruct (initialize_pool B D N w b st Hdone) as ([Hs Hp Hc _] & _ & _).
  pose proof (initialize_fence_table B D N w new_RVPT b st Hdone) as Hf.
  pose proof (preserves_initialize_flag B D N w new_RVPT b st Hdone) as Hflag.
  destruct (initialize_stages B D N w b st Hdone)
    as (s1 & s2 & g & q & res & _ & _ & Hsp & Hrn & _ & _ & _ & Hloop & Hst).
  assert (Hkeep : preserves (λ s, (spheres s, random_numbers s))
                    (for_loop 0 N (λ _, add_per_frame_data))).
  { apply preserves_for_loop. intros _. by apply preserves_add_per_frame_data. }
  specialize (Hkeep s1 tt s2 Hloop). injection Hkeep as Hsp2 Hrn2.
  split_and!; try done.
  - rewrite Hst. cbn [spheres set_random_numbers]. by rewrite Hsp2.
  - rewrite Hst. cbn [random_numbers set_random_numbers].
    by rewrite Hrn2, Hrn, resize_nil.
  - rewrite Hf. cbn [frames_inflight_fences new_RVPT]. by rewrite resize_nil.
Qed.

Lemma initialize_state_witness :
  length (per_frame_data (demo_state 2 3 None)) = 2
  ∧ frames_inflight_fences (demo_state 2 3 None) = [0; 0; 0].
Proof.
  destruct (initialize_state (demo_backend 3) (demo_device None) 2 window512 true
              (demo_state 2 3 None) ltac:(vm_compute; reflexivity))
    as (_ & Hp & _ & _ & _ & Hf & _).
  split; [exact Hp|]. rewrite Hf. reflexivity.
Defined.

(** * The per-frame update *)

Lemma set_random_numbers_same st : set_random_numbers (random_numbers st) st = st.
Proof. by destruct st. Qed.

Lemma set_random_numbers_twice x y st :
  set_random_numbers x (set_random_numbers y st) = set_random_numbers x st.
Proof. done. Qed.

(** The loop of line 74 within the vector. *)
Lemma run_update_loop rnd n : ∀ i (st : RVPT),
  i + n ≤ length (random_numbers st) →
  for_loop i n (λ i,
    v ← gets random_numbers;
    if decide (i < length v)
    then modify (λ st, set_random_numbers (<[i := rnd i]> (random_numbers st)) st)
    else fault Undefined) st
  = ([], Done tt
       (set_random_numbers
          (take i (random_numbers st) ++ (rnd <$> seq i n)
           ++ drop (i + n) (random_numbers st)) st)).
Proof.
  induction n as [|n IH]; intros i st Hle; cbn [for_loop].
  - cbn [seq fmap list_fmap app]. rewrite Nat.add_0_r, take_drop.
    by rewrite set_random_numbers_same.
  - rewrite run_assoc, run_gets.
    destruct (decide (i < length (random_numbers st))) as [Hlt|]; [|lia].
    rewrite run_modify, IH
      by (cbn [random_numbers set_random_numbers]; rewrite length_insert; lia).
    cbn [random_numbers set_random_numbers].
    rewrite set_random_numbers_twice.
    rewrite (take_S_r _ _ (rnd i)) by (by apply list_lookup_insert_eq).
    rewrite take_insert_ge, drop_insert_lt by lia.
    cbn [seq fmap list_fmap]. rewrite <- app_assoc. cbn [app].
    by replace (S i + n) with (i + S n) by lia.
Qed.

(** The loop of line 74 running past the end of the vector. *)
Lemma run_update_loop_fails rnd n : ∀ i (st : RVPT),
  i ≤ length (random_numbers st) →
  length (random_numbers st) < i + n →
  for_loop i n (λ i,
    v ← gets random_numbers;
    if decide (i < length v)
    then modify (λ st, set_random_numbers (<[i := rnd i]> (random_numbers st)) st)
    else fault Undefined) st
  = ([], Failed Undefined).
Proof.
  induction n as [|n IH]; intros i st Hle Hlt; [lia|].
  cbn [for_loop]. rewrite run_assoc, run_gets.
  destruct (decide (i < length (random_numbers st))) as [Hi|Hi].
  - rewrite run_modify.
    apply IH; cbn [random_numbers set_random_numbers]; rewrite length_insert; lia.
  - by rewrite run_fault.
Qed.

Lemma update_run rnd st :
  update rnd st
  = if decide (1024 ≤ length (random_numbers st))
    then ([], Done true
            (set_random_numbers
               ((rnd <$> seq 0 1024) ++ drop 1024 (random_numbers st)) st))
    else ([], Failed Undefined).
Proof.
  unfold update. rewrite run_bind.
  destruct (decide _) as [Hle|Hgt].
  - rewrite run_update_loop by lia. cbn [fst snd]. by rewrite prepend_nil.
  - rewrite run_update_loop_fails by lia. done.
Qed.

(** X15.  [update] overwrites exactly the first 1024 random numbers with
    the numbers drawn, in order, keeps the rest of the vector and of the
    renderer, makes no backend call and returns [true].  On a vector of
    fewer than 1024 entries, as before [initialize], it writes past the
    end. *)
Theorem update_overwrites rnd st :
  update rnd st
  = if decide (1024 ≤ length (random_numbers st))
    then ([], Done true
            (set_random_numbers
               ((rnd <$> seq 0 1024) ++ drop 1024 (random_numbers st)) st))
    else ([], Failed Undefined).
Proof. apply update_run. Qed.

(** X16.  After [initialize], [update] is defined, and the numbers it
    drew are the ones the next tick uploads into the [random_uniform]
    buffer of the current slot. *)
Theorem update_feeds_draw B D N w b st0 rnd :
  result_of (initialize B D N w) new_RVPT = Done b st0 →
  0 < N →
  ∃ st1 d,
    update rnd st0 = ([], Done true st1)
    ∧ random_numbers st1 = rnd <$> seq 0 1024
    ∧ per_frame_data st1 !! current_frame_index st1 = Some d
    ∧ ∀ B' t, EvCopyTo (buffer_handle (random_uniform d))
                       (Words (rnd <$> seq 0 1024))
              ∈ trace_of (draw B' t) st1.
Proof.
  intros Hinit HN.
  destruct (initialize_renderer_ok B D N w b st0 Hinit HN) as (Hok & _ & _).
  destruct (renderer_ok_ready st0 Hok) as (d & sr & res & q & [Hd Hs Hr Hq]).
  assert (Hrn : random_numbers st0 = replicate 1024 0%Z).
  { destruct (initialize_stages B D N w b st0 Hinit)
      as (s1 & s2 & g' & q' & res' & _ & _ & _ & Hrn & _ & _ & _ & Hloop & Hst).
    assert (Hkeep : preserves random_numbers (for_loop 0 N (λ _, add_per_frame_data))).
    { apply preserves_for_loop. intros _. by apply preserves_add_per_frame_data. }
    rewrite Hst. cbn [random_numbers set_random_numbers].
    by rewrite (Hkeep s1 tt s2 Hloop), Hrn, resize_nil. }
  set (st1 := set_random_numbers (rnd <$> seq 0 1024) st0).
  exists st1, d. split_and!.
  - rewrite update_run.
    destruct (decide _) as [_|Hn]; [|rewrite Hrn, length_replicate in Hn; lia].
    rewrite drop_ge by (rewrite Hrn, length_replicate; lia).
    by rewrite app_nil_r.
  - done.
  - exact Hd.
  - intros B' t.
    assert (Hready : tick_ready st1 d sr res q) by (by split).
    unfold trace_of. rewrite (draw_until_acquire B' t st1 d sr res q Hready).
    rewrite trace_of_prepend. unfold raytrace_events.
    cbn [random_numbers st1 set_random_numbers].
    rewrite <- !app_assoc. cbn [app].
    do 3 (apply elem_of_cons; right). apply elem_of_cons. by left.
Qed.

Lemma update_feeds_draw_witness :
  ∃ st1, update (λ i, Z.of_nat i) (demo_state 2 3 None) = ([], Done true st1)
         ∧ random_numbers st1 !! 7 = Some 7%Z.
Proof.
  destruct (update_feeds_draw (demo_backend 3) (demo_device None) 2 window512 true
              (demo_state 2 3 None) (λ i, Z.of_nat i)
              ltac:(vm_compute; reflexivity) ltac:(lia))
    as (st1 & d & Hu & Hr & _).
  exists st1. split; [exact Hu|]. rewrite Hr. reflexivity.
Defined.

(** * [replace_all] *)

Lemma substitute_skip from to s : ∀ k,
  substitute from to k s = substitute from to 0 (drop k s).
Proof.
  induction s as [|c s IH]; intros [|k]; try done.
  cbn [substitute drop]. apply IH.
Qed.

(** Behind an occurrence of [from] the pass goes on with what follows
    it. *)
Lemma substitute_occurrence from to post :
  from ≠ [] →
  substitute from to 0 (from ++ post) = to ++ substitute from to 0 post.
Proof.
  intros Hne. destruct from as [|c f]; [done|].
  cbn [app substitute].
  destruct (decide _) as [_|Hn]; [|destruct Hn; by exists post].
  rewrite substitute_skip.
  replace (length (c :: f) - 1) with (length f) by (cbn [length]; lia).
  by rewrite drop_app_length.
Qed.

Lemma find_at_None from to s : ∀ i,
  from ≠ [] → find_at from s i = None → substitute from to 0 s = s.
Proof.
  induction s as [|c s IH]; intros i Hne; [done|].
  cbn [find_at substitute]. destruct (decide _); [done|].
  intros H. by rewrite (IH (S i)).
Qed.

Lemma find_at_Some from to s : ∀ i p,
  from ≠ [] → find_at from s i = Some p →
  ∃ pre post, s = pre ++ from ++ post ∧ p = i + length pre
              ∧ substitute from to 0 s = pre ++ to ++ substitute from to 0 post.
Proof.
  induction s as [|c s IH]; intros i p Hne.
  - cbn [find_at]. by destruct from.
  - cbn [find_at]. destruct (decide (from `prefix_of` c :: s)) as [[post Hp]|Hn].
    + intros [= <-]. exists [], post. split_and!; [done|cbn; lia|].
      rewrite Hp. by apply substitute_occurrence.
    + intros H. destruct (IH (S i) p Hne H) as (pre & post & -> & -> & Hs).
      exists (c :: pre), post. split_and!; [done|cbn; lia|].
      cbn [substitute app]. destruct (decide _) as [Hy|_]; [done|].
      by rewrite Hs.
Qed.

(** No occurrence of [from] at all. *)
Lemma find_at_no_occurrence from s i :
  from ≠ [] → (∀ pre post, s ≠ pre ++ from ++ post) → find_at from s i = None.
Proof.
  intros Hne Hno. destruct (find_at from s i) as [p|] eqn:E; [|done].
  destruct (find_at_Some from [] s i p Hne E) as (pre & post & Hs & _).
  by destruct (Hno pre post).
Qed.

(** The loop from a string of which [done] is dealt with and [rest] is
    still to be searched, with more rounds than [rest] has characters. *)
Lemma replace_all_loop_run from to : ∀ rounds done rest,
  from ≠ [] →
  length rest < rounds →
  replace_all_loop rounds (done ++ rest) from to (length done)
  = Some (done ++ substitute from to 0 rest).
Proof.
  induction rounds as [|rounds IH]; intros done rest Hne Hlt; [lia|].
  cbn [replace_all_loop]. unfold str_find.
  destruct (decide (length done ≤ length (done ++ rest))) as [_|Hn];
    [|rewrite length_app in Hn; lia].
  rewrite drop_app_length.
  destruct (find_at from rest (length done)) as [p|] eqn:E.
  - destruct (find_at_Some from to rest _ p Hne E) as (pre & post & -> & -> & Hs).
    unfold str_replace.
    replace (take (length done + length pre) (done ++ pre ++ from ++ post))
      with (done ++ pre)
      by (rewrite app_assoc, <- length_app; by rewrite take_app_length).
    replace (drop (length done + length pre + length from)
               (done ++ pre ++ from ++ post)) with post
      by (rewrite !app_assoc, <- !length_app; by rewrite drop_app_length).
    replace (length done + length pre + length to)
      with (length ((done ++ pre) ++ to)) by (rewrite !length_app; lia).
    rewrite app_assoc, IH, Hs; [by rewrite <- !app_assoc|done|].
    rewrite !length_app in Hlt. destruct from; [done|]. cbn in Hlt. lia.
  - by rewrite (find_at_None from to rest _ Hne E).
Qed.

Lemma replace_all_run str from to :
  replace_all str from to
  = Some (if from is [] then str else substitute from to 0 str).
Proof.
  unfold replace_all. destruct from as [|c f]; [done|].
  apply (replace_all_loop_run (c :: f) to (S (length str)) [] str); [done|lia].
Qed.

(** X17.  [replace_all] always returns: its loop ends within one round
    more than the string has characters, however many more it is given,
    also when [to] contains [from].  What it leaves in [str] is the result
    of one pass from left to right that replaces the occurrences of
    [from] as it meets them and never looks again at the text it put in;
    an empty [from] leaves [str] as it is. *)
Theorem replace_all_returns str from to :
  replace_all str from to
  = Some (if from is [] then str else substitute from to 0 str)
  ∧ ∀ rounds, from ≠ [] → length str < rounds →
      replace_all_loop rounds str from to 0 = replace_all str from to.
Proof.
  split; [apply replace_all_run|].
  intros rounds Hne Hlt. rewrite replace_all_run.
  destruct from as [|c f]; [done|].
  apply (replace_all_loop_run (c :: f) to rounds [] str); [done|done].
Qed.

Lemma substitute_char c to s :
  substitute [c] to 0 s = concat ((λ x, if decide (x = c) then to else [x]) <$> s).
Proof.
  induction s as [|x s IH]; [done|].
  cbn [substitute fmap list_fmap concat length Nat.sub].
  destruct (decide ([c] `prefix_of` x :: s)) as [[k Hk]|Hn].
  - injection Hk as -> _. rewrite decide_True by done. by rewrite IH.
  - rewrite decide_False.
    + cbn [app]. by rewrite IH.
    + intros ->. destruct Hn. by exists s.
Qed.

Lemma substitute_char_absent c to s :
  c ∉ to → c ∉ substitute [c] to 0 s.
Proof.
  intros Hto. rewrite substitute_char.
  induction s as [|x s IH]; cbn [fmap list_fmap concat].
  - apply not_elem_of_nil.
  - intros Hin. apply elem_of_app in Hin as [Hin|Hin]; [|done].
    destruct (decide (x = c)) as [->|Hne]; [done|].
    apply list_elem_of_singleton in Hin. by subst.
Qed.

(** X18.  Replacing a single character: every occurrence of the character
    is replaced, once, by [to], and every other character is kept, also
    when [to] contains the character; and when [to] does not contain it,
    the character does not occur in the result. *)
Theorem replace_all_char str c to :
  replace_all str [c] to
  = Some (concat ((λ x, if decide (x = c) then to else [x]) <$> str))
  ∧ (c ∉ to → ∀ r, replace_all str [c] to = Some r → c ∉ r).
Proof.
  split.
  - rewrite replace_all_run. by rewrite substitute_char.
  - intros Hto r. rewrite replace_all_run. intros [= <-].
    by apply substitute_char_absent.
Qed.

(** X19.  A string in which [from] does not occur is left as it is. *)
Theorem replace_all_no_occurrence str from to :
  (∀ pre post, str ≠ pre ++ from ++ post) →
  replace_all str from to = Some str.
Proof.
  intros Hno. unfold replace_all. destruct from as [|c f]; [done|].
  cbn [replace_all_loop]. unfold str_find.
  rewrite decide_True by lia. rewrite drop_0.
  by rewrite find_at_no_occurrence.
Qed.

Lemma replace_all_no_occurrence_witness :
  replace_all (chars "abc") (chars "x") (chars "yy") = Some (chars "abc").
Proof.
  apply replace_all_no_occurrence.
  intros [|a [|b [|c [|d pre]]]] post; cbn; intros [=].
Defined.

(** * Shader reload and teardown *)

Lemma split_behind_prefix {A} (P : A → Prop) ws : ∀ ds pre e post,
  ws ++ ds = pre ++ e :: post → Forall P ws → ¬ P e → ∃ pre', pre = ws ++ pre'.
Proof.
  induction ws as [|w ws IH]; intros ds pre e post Heq Hws He.
  - by exists pre.
  - apply Forall_cons in Hws as [Hw Hws].
    destruct pre as [|x pre]; cbn in Heq.
    + injection Heq as -> _. done.
    + injection Heq as -> Heq.
      destruct (IH ds pre e post Heq Hws He) as [pre' ->]. by exists pre'.
Qed.

(** The calls of [after_idle]: a wait on every queue there is, then
    [rest], when both the graphics and the present queue exist. *)
Lemma after_idle_run {A} st rest (done stop : A) :
  match graphics_queue st, present_queue st with
  | Some g, Some p =>
      ∃ waits, after_idle st rest done stop = (waits ++ rest, done)
               ∧ Forall (λ c, is_wait_idle c = true) waits
               ∧ ∀ q, q ∈ queues st → WaitIdle q ∈ waits
  | _, _ =>
      ∃ waits, after_idle st rest done stop = (waits, stop)
               ∧ Forall (λ c, is_wait_idle c = true) waits
  end.
Proof.
  unfold after_idle, queues.
  set (compute := if compute_queue st is Some c then [WaitIdle c] else []).
  assert (Hc : Forall (λ c, is_wait_idle c = true) compute)
    by (subst compute; destruct (compute_queue st);
        repeat (apply Forall_cons; split; [done|]); by apply Forall_nil).
  destruct (graphics_queue st) as [g|].
  2: { by exists compute. }
  destruct (present_queue st) as [p|].
  2: { exists (compute ++ [WaitIdle g]). split; [done|].
       apply Forall_app. split; [done|]. by apply Forall_singleton. }
  exists (compute ++ [WaitIdle g; WaitIdle p]). split_and!.
  - by rewrite <- app_assoc.
  - apply Forall_app. split; [done|].
    repeat (apply Forall_cons; split; [done|]). by apply Forall_nil.
  - intros q Hq. subst compute.
    destruct (compute_queue st) as [c|]; cbn [omap list_omap id] in Hq; cbn [app].
    + repeat (apply elem_of_cons in Hq as [->|Hq];
              [rewrite !elem_of_cons; tauto|]).
      by apply elem_of_nil in Hq.
    + repeat (apply elem_of_cons in Hq as [->|Hq];
              [rewrite !elem_of_cons; tauto|]).
      by apply elem_of_nil in Hq.
Qed.

(** X20.  [shutdown] destroys nothing before it has waited on every
    queue the renderer has.  When it returns, the slots, the sync
    resources, the framebuffers and the pipelines are gone, and a tick
    after it reads [per_frame_data[current_frame_index]] of an empty
    vector before it makes any call.  Without a graphics or a present
    queue it stops at the [->] on the empty optional, and has destroyed
    nothing. *)
Theorem shutdown_waits st :
  match shutdown st with
  | (tr, Done _ st') =>
      (∀ pre e post, tr = pre ++ e :: post → is_wait_idle e = false →
         ∀ q, q ∈ queues st → WaitIdle q ∈ pre)
      ∧ (per_frame_data st', sync_resources st', framebuffers st',
         rendering_resources st') = ([], [], [], None)
      ∧ ∀ B t, draw B t st' = ([], Failed Undefined)
  | (tr, Failed f) =>
      f = Undefined
      ∧ Forall (λ c, is_wait_idle c = true) tr
      ∧ (graphics_queue st = None ∨ present_queue st = None)
  end.
Proof.
  unfold shutdown.
  match goal with
  | |- context [ after_idle st ?rest ?d ?s ] =>
      pose proof (after_idle_run st rest d s) as H;
      set (r := rest) in *; set (dn := d) in *
  end.
  destruct (graphics_queue st) as [g|] eqn:Eg.
  2: { destruct H as (waits & -> & Hw). split_and!; [done|done|by left]. }
  destruct (present_queue st) as [p|] eqn:Ep.
  2: { destruct H as (waits & -> & Hw). split_and!; [done|done|by right]. }
  destruct H as (waits & -> & Hw & Hq). subst dn. split_and!.
  - intros pre e post Hsplit He q Hin.
    destruct (split_behind_prefix (λ c, is_wait_idle c = true) waits r pre e post
                Hsplit Hw) as [pre' ->]; [by rewrite He|].
    apply elem_of_app. left. by apply Hq.
  - done.
  - intros B t. unfold draw. by rewrite run_current_per_frame_data_none.
Qed.

(** The calls of [compile_shaders] are prints and calls of the shell, and
    there always are some: [replace_all] returns. *)
Lemma compile_shaders_run p sf :
  ∃ calls, compile_shaders p sf = Some calls
           ∧ Forall (λ c, (∃ s, c = Cout s) ∨ (∃ s, c = System s)) calls.
Proof.
  destruct p; cbn [compile_shaders].
  - rewrite replace_all_run. cbn [mbind option_bind].
    eexists. split; [reflexivity|].
    repeat (apply Forall_cons; split; [eauto|]). by apply Forall_nil.
  - eexists. split; [reflexivity|].
    repeat (apply Forall_cons; split; [eauto|]). by apply Forall_nil.
  - eexists. split; [reflexivity|]. by apply Forall_nil.
Qed.

(** X21.  [reload_shaders] always ends.  It calls the shell only when a
    source folder is set, and it recompiles the pipelines only then, as
    its last call, after it has waited on every queue the renderer has. *)
Theorem reload_shaders_order p sf st :
  (reload_shaders p sf st).2 ≠ Loops
  ∧ (∀ cmd, System cmd ∈ (reload_shaders p sf st).1 → sf ≠ [])
  ∧ (∀ pre post,
       (reload_shaders p sf st).1 = pre ++ RecompilePipelines :: post →
       sf ≠ [] ∧ post = [] ∧ (reload_shaders p sf st).2 = Returns
       ∧ ∀ q, q ∈ queues st → WaitIdle q ∈ pre).
Proof.
  unfold reload_shaders.
  destruct (decide (sf = [])) as [->|Hne]; cbn [fst snd].
  { split_and!; [done| |].
    - intros cmd Hin. by apply list_elem_of_singleton in Hin.
    - intros [|? [|? ?]] post; by intros [=]. }
  destruct (compile_shaders_run p sf) as (calls & -> & Hcalls).
  pose proof (after_idle_run st [RecompilePipelines] Returns (Stops Undefined)) as H.
  assert (Hnr : Forall (λ c, c ≠ RecompilePipelines) calls).
  { eapply Forall_impl; [exact Hcalls|]. by intros c [[s ->]|[s ->]]. }
  assert (Hwr : ∀ waits, Forall (λ c, is_wait_idle c = true) waits →
                Forall (λ c, c ≠ RecompilePipelines) waits).
  { intros waits Hw. eapply Forall_impl; [exact Hw|]. by intros c Hc ->. }
  assert (Hstop : ∀ waits, Forall (λ c, is_wait_idle c = true) waits →
    ∀ pre post, calls ++ waits ≠ pre ++ RecompilePipelines :: post).
  { intros waits Hw pre post Heq.
    assert (Hall : Forall (λ c, c ≠ RecompilePipelines) (calls ++ waits))
      by (apply Forall_app; split; [done|by apply Hwr]).
    rewrite Heq in Hall. apply Forall_app in Hall as [_ Hall].
    by apply Forall_cons in Hall as [Hall _]. }
  destruct (graphics_queue st) as [g|].
  2: { destruct H as (waits & -> & Hw). cbn [fst snd].
       split_and!; [done|done|]. intros pre post Heq. by destruct (Hstop waits Hw pre post). }
  destruct (present_queue st) as [p'|].
  2: { destruct H as (waits & -> & Hw). cbn [fst snd].
       split_and!; [done|done|]. intros pre post Heq. by destruct (Hstop waits Hw pre post). }
  destruct H as (waits & -> & Hw & Hq). cbn [fst snd].
  split_and!; [done|done|].
  intros pre post Heq. rewrite app_assoc in Heq.
  destruct (split_behind_prefix (λ c, c ≠ RecompilePipelines) (calls ++ waits)
              [RecompilePipelines] pre RecompilePipelines post Heq)
    as [pre' ->]; [apply Forall_app; split; [done|by apply Hwr]|by intros ?|].
  rewrite <- (app_assoc (calls ++ waits) pre') in Heq. apply app_inv_head in Heq.
  destruct pre' as [|x [|y pre']]; try by (cbn in Heq; destruct pre'; discriminate).
  2: { by destruct post. }
  injection Heq as <-. split_and!; [done|done|done|].
  intros q Hin. rewrite app_nil_r. apply elem_of_app. right. by apply Hq.
Qed.

Lemma chars_without_slash_1 : slash ∉ chars "cd ".
Proof. by apply (bool_decide_unpack _). Qed.

Lemma chars_without_slash_2 : slash ∉ chars "\\assets\\shaders && ".
Proof. by apply (bool_decide_unpack _). Qed.

Lemma chars_without_slash_3 : slash ∉ chars "\\scripts\\compile_shaders.bat".
Proof. by apply (bool_decide_unpack _). Qed.

Lemma chars_without_slash_4 : slash ∉ chars "\\".
Proof. by apply (bool_decide_unpack _). Qed.

(** X22.  On Windows the command [reload_shaders] hands to the shell
    contains no [/]: every one in the source folder has been replaced by
    two backslashes, and the rest of the command has none. *)
Theorem reload_shaders_windows sf st cmd :
  System cmd ∈ (reload_shaders WIN32 sf st).1 → slash ∉ cmd.
Proof.
  unfold reload_shaders.
  destruct (decide (sf = [])) as [->|Hne]; cbn [fst snd].
  { intros Hin. by apply list_elem_of_singleton in Hin. }
  unfold compile_shaders. rewrite replace_all_run.
  change (chars "/") with [slash]. unfold mbind, option_bind. cbv beta iota.
  set (db := substitute [slash] (chars "\\") 0 sf).
  assert (Hdb : slash ∉ db) by apply substitute_char_absent, chars_without_slash_4.
  pose proof (after_idle_run st [RecompilePipelines] Returns (Stops Undefined)) as H.
  assert (Hrest : ∀ waits, Forall (λ c, is_wait_idle c = true) waits →
                  System cmd ∉ waits ++ [RecompilePipelines]).
  { intros waits Hw Hin. apply elem_of_app in Hin as [Hin|Hin].
    - rewrite Forall_forall in Hw. by specialize (Hw _ Hin).
    - by apply list_elem_of_singleton in Hin. }
  assert (Hcmd : ∀ tail, System cmd ∉ tail →
    System cmd ∈ [Cout ((chars "cd " ++ db ++ chars "\\assets\\shaders && "
                          ++ db ++ chars "\\scripts\\compile_shaders.bat") ++ [newline]);
                  System (chars "cd " ++ db ++ chars "\\assets\\shaders && "
                          ++ db ++ chars "\\scripts\\compile_shaders.bat")] ++ tail →
    slash ∉ cmd).
  { intros tail Htail Hin.
    apply elem_of_app in Hin as [Hin|Hin]; [|done].
    apply elem_of_cons in Hin as [Hin|Hin]; [done|].
    apply list_elem_of_singleton in Hin.
    assert (E : cmd = chars "cd " ++ db ++ chars "\\assets\\shaders && "
                      ++ db ++ chars "\\scripts\\compile_shaders.bat")
      by (by injection Hin).
    rewrite E, !not_elem_of_app. split_and!;
      auto using chars_without_slash_1, chars_without_slash_2, chars_without_slash_3. }
  destruct (graphics_queue st) as [g|].
  2: { destruct H as (waits & -> & Hw). cbn [fst]. apply Hcmd.
       intros Hin. rewrite Forall_forall in Hw. by specialize (Hw _ Hin). }
  destruct (present_queue st) as [p'|].
  2: { destruct H as (waits & -> & Hw). cbn [fst]. apply Hcmd.
       intros Hin. rewrite Forall_forall in Hw. by specialize (Hw _ Hin). }
  destruct H as (waits & -> & Hw & _). cbn [fst]. apply Hcmd. by apply Hrest.
Qed.

Lemma reload_shaders_windows_witness :
  slash ∉ chars "cd C:\\rvpt\\assets\\shaders && C:\\rvpt\\scripts\\compile_shaders.bat".
Proof.
  apply (reload_shaders_windows (chars "C:/rvpt") compute_state).
  vm_compute. apply elem_of_cons. right. apply elem_of_cons. by left.
Defined.

(** ** A rebuild whose image queries fail *)

Lemma new_framebuffers_views rp e vs : ∀ h,
  fb_image_views <$> new_framebuffers rp e h vs = (λ v, [v]) <$> vs.
Proof. induction vs as [|v vs IH]; intros h; [done|]. cbn. by rewrite IH. Qed.

(** X23.  When the builder gives a new swapchain but one of the two image
    queries fails, the rebuild returns [false] and still runs
    [create_framebuffers]: [swapchain_image_views] keeps the views of the
    old swapchain, which the rebuild has destroyed, and the new
    framebuffers are made over them. *)
Theorem rebuild_over_destroyed_views B w st sc :
  build B w (Some (vkb_swapchain st)) = Some sc →
  get_images B sc = None ∨ get_image_views B sc = None →
  image_count sc ≤ length (swapchain_image_views st) →
  ∃ st',
    swapchain_reinit B w st = (rebuild_events B w st, Done false st')
    ∧ EvDestroyImageViews (swapchain_image_views st) ∈ rebuild_events B w st
    ∧ vkb_swapchain st' = sc
    ∧ swapchain_image_views st' = swapchain_image_views st
    ∧ fb_image_views <$> framebuffers st'
      = (λ v, [v]) <$> take (image_count sc) (swapchain_image_views st).
Proof.
  intros Hb Hq Hle.
  assert (Hviews : views_after B sc (swapchain_image_views st)
                   = swapchain_image_views st).
  { unfold views_after. destruct Hq as [-> | ->]; [done|by destruct (get_images B sc)]. }
  assert (Hdef : rebuild_defined B w st).
  { unfold rebuild_defined. by rewrite Hb, Hviews. }
  exists (rebuilt B w st).2.
  assert (Hr : (rebuilt B w st).1 = false
               ∧ vkb_swapchain (rebuilt B w st).2 = sc
               ∧ swapchain_image_views (rebuilt B w st).2 = swapchain_image_views st
               ∧ framebuffers (rebuilt B w st).2
                 = new_framebuffers (fullscreen_tri_render_pass st) (extent sc)
                     (next_handle st)
                     (take (image_count sc) (swapchain_image_views st))).
  { unfold rebuilt. rewrite Hb. unfold with_images.
    cbn [vkb_swapchain set_vkb_swapchain set_framebuffers].
    destruct Hq as [-> | Hq].
    - by split_and!.
    - destruct (get_images B sc); rewrite ?Hq; by split_and!. }
  destruct Hr as (Hfalse & Hsc & Hv & Hfb).
  split_and!.
  - rewrite <- run_bind_ret, run_swapchain_reinit by done.
    unfold prepend, mret, M_ret. cbn [fst snd]. by rewrite app_nil_r, Hfalse.
  - unfold rebuild_events. apply elem_of_app. right.
    apply elem_of_app. left. apply elem_of_cons. by left.
  - done.
  - done.
  - rewrite Hfb. apply new_framebuffers_views.
Qed.

Lemma rebuild_over_destroyed_views_witness :
  ∃ st', result_of (swapchain_reinit viewless_backend window512) viewless_state
         = Done false st'
         ∧ fb_image_views <$> framebuffers st'
           = (λ v, [v]) <$> swapchain_image_views viewless_state.
Proof.
  edestruct (rebuild_over_destroyed_views viewless_backend window512 viewless_state)
    as (st' & Hrun & _ & _ & _ & Hfb);
    [ vm_compute; reflexivity | right; vm_compute; reflexivity | vm_compute; lia | ].
  exists st'. unfold result_of. rewrite Hrun. split; [reflexivity|].
  rewrite Hfb. vm_compute. reflexivity.
Defined.

(** ** Examples *)

Lemma replace_all_returns_witness :
  replace_all (chars "xax") (chars "x") (chars "yx") = Some (chars "yxayx")
  ∧ replace_all_loop 9 (chars "xax") (chars "x") (chars "yx") 0 = Some (chars "yxayx").
Proof.
  destruct (replace_all_returns (chars "xax") (chars "x") (chars "yx")) as [H1 H2].
  split.
  - rewrite H1. reflexivity.
  - rewrite (H2 9); [rewrite H1; reflexivity | discriminate | vm_compute; lia].
Defined.

Lemma replace_all_char_witness :
  ∃ r, replace_all (chars "a/b/c") [slash] (chars "\\") = Some r ∧ slash ∉ r.
Proof.
  destruct (replace_all_char (chars "a/b/c") slash (chars "\\")) as [H1 H2].
  eexists. split; [exact H1|].
  apply (H2 chars_without_slash_4 _ H1).
Defined.

Lemma shutdown_waits_witness :
  ∃ tr st', shutdown compute_state = (tr, Done tt st')
            ∧ draw (demo_backend 2) (ok_tick 0) st' = ([], Failed Undefined).
Proof.
  pose proof (shutdown_waits compute_state) as H.
  destruct (shutdown compute_state) as [tr [[] st'|f]] eqn:E.
  - destruct H as (_ & _ & Hdraw). exists tr, st'. split; [reflexivity|apply Hdraw].
  - destruct H as (_ & _ & [Hq|Hq]); vm_compute in Hq; discriminate.
Defined.

Lemma reload_shaders_order_witness :
  WaitIdle {| queue_family := 2 |}
  ∈ [ System (chars "cd /p/assets/shaders && bash /p/scripts/compile_shaders.sh");
      WaitIdle {| queue_family := 2 |};
      WaitIdle {| queue_family := 0 |};
      WaitIdle {| queue_family := 0 |} ].
Proof.
  destruct (reload_shaders_order unix (chars "/p") compute_state) as (_ & _ & H).
  apply (H _ []).
  - vm_compute. reflexivity.
  - vm_compute. apply elem_of_cons. by left.
Defined.

(** * The render loop *)

Lemma length_new_framebuffers rp e vs : ∀ h,
  length (new_framebuffers rp e h vs) = length vs.
Proof. induction vs as [|v vs IH]; intros h; [done|]. cbn. by rewrite IH. Qed.

(** With a reliable backend a rebuild is always defined, succeeds, and
    leaves a framebuffer per image. *)
Lemma rebuilt_reliable n B w st :
  reliable_backend n B →
  rebuild_defined B w st
  ∧ (rebuilt B w st).1 = true
  ∧ length (framebuffers (rebuilt B w st).2) = n.
Proof.
  intros [Hb Hi Hv].
  destruct (Hb w (Some (vkb_swapchain st))) as (sc & Hsc & Hn).
  destruct (Hi sc Hn) as [imgs Himgs].
  destruct (Hv sc Hn) as (views & Hviews & Hlen).
  unfold rebuild_defined, rebuilt, views_after, with_images. rewrite Hsc.
  cbn [vkb_swapchain set_vkb_swapchain set_framebuffers].
  rewrite Himgs, Hviews. split_and!; [lia|done|].
  unfold with_framebuffers.
  cbn [framebuffers vkb_swapchain swapchain_image_views fullscreen_tri_render_pass
       next_handle set_framebuffers set_next_handle set_swapchain_image_views
       set_swapchain_images set_vkb_swapchain fst snd].
  rewrite length_new_framebuffers, length_take. lia.
Qed.

Lemma swapchain_init_reliable n B w P :
  reliable_backend n B →
  hoare P (swapchain_init B w) (λ _ s, image_count (vkb_swapchain s) = n).
Proof.
  intros [Hb _ _] st b st' _. rewrite <- run_bind_ret, run_swapchain_init.
  destruct (Hb w None) as (sc & -> & Hn).
  rewrite result_of_prepend. unfold mret, M_ret. intros [= _ <-].
  unfold with_images. cbn [vkb_swapchain set_vkb_swapchain].
  destruct (get_images B sc); [|done]. by destruct (get_image_views B sc).
Qed.

Lemma initialize_image_count n B D N w P :
  reliable_backend n B →
  hoare P (initialize B D N w) (λ _ s, image_count (vkb_swapchain s) = n).
Proof.
  intros HB. unfold initialize.
  eapply hoare_bind; [apply hoare_true|intros ?].
  eapply hoare_bind; [by apply swapchain_init_reliable|intros ?].
  cbv zeta.
  apply (hoare_preserves vkb_swapchain (λ sc, image_count sc = n)).
  unfold new_sync_resources, create_rendering_resources.
  preserves_all;
    first [ by apply preserves_create_framebuffers
          | by apply preserves_add_per_frame_data ].
Qed.

Lemma initialize_loop_ready n B D N w b st :
  reliable_backend n B →
  result_of (initialize B D N w) new_RVPT = Done b st →
  0 < N →
  loop_ready n st.
Proof.
  intros HB Hinit HN.
  destruct (initialize_renderer_ok B D N w b st Hinit HN) as (Hok & _ & _).
  pose proof (initialize_image_count n B D N w (λ _, True) HB new_RVPT b st I Hinit)
    as Hn.
  pose proof (initialize_match B D N w (λ _, True) new_RVPT b st I Hinit) as [Hle Hm].
  pose proof (initialize_fence_table B D N w new_RVPT b st Hinit) as Hf.
  cbn beta in Hn. split_and!; [done| |].
  - apply (f_equal length) in Hm. rewrite !length_fmap, length_take in Hm. lia.
  - by rewrite Hf, length_resize.
Qed.

(** One tick of the loop. *)
Lemma draw_runs n B t st :
  reliable_backend n B →
  loop_ready n st →
  healthy n t →
  ∃ r st', result_of (draw B t) st = Done r st' ∧ loop_ready n st'.
Proof.
  intros HB (Hok & Hfb & Hfif) (Hacq & Hpres & Hidx).
  destruct (renderer_ok_ready st Hok) as (d & sr & res & q & Hready).
  assert (Hnext : ∀ r st', result_of (draw B t) st = Done r st' →
    length (framebuffers st') = n → loop_ready n st').
  { intros r st' Hres Hlen. split_and!; [|done|].
    - by destruct (draw_maintains B t st r st' Hok Hres).
    - by rewrite (preserves_draw_fence_table_length B t st r st' Hres). }
  destruct Hacq as [Ha|Hood].
  - destruct (lookup_lt_is_Some_2 (framebuffers st) (acquire_image_index t))
      as [fb Efb]; [lia|].
    destruct (lookup_lt_is_Some_2 (frames_inflight_fences st) (acquire_image_index t))
      as [f Ef]; [lia|].
    set (s := registered st d sr (acquire_image_index t)).
    assert (Hsync : length (sync_resources s) ≠ 0).
    { cbn. pose proof (lookup_lt_Some _ _ _ (ready_sync _ _ _ _ _ Hready)). lia. }
    assert (Hrun : ∃ s', result_of (after_present B t) s = Done success s'
                         ∧ length (framebuffers s') = n).
    { destruct (rebuilds_after_present t s) eqn:Hre.
      - destruct (rebuilt_reliable n B (window_extent t) (set_framebuffer_resized false s) HB)
          as (Hdef & _ & Hlen).
        pose proof (rebuilt_frame_pool B (window_extent t)
                      (set_framebuffer_resized false s)) as [= _ Hsr _ _].
        eexists. split.
        + unfold result_of, after_present. rewrite run_gets.
          unfold rebuilds_after_present in Hre. rewrite Hre.
          rewrite run_assoc, run_modify, run_assoc, run_swapchain_reinit by exact Hdef.
          rewrite result_of_prepend, run_ret, run_advance, Hsr.
          destruct (Nat.eqb_spec (length (sync_resources st)) 0) as [E0|_];
            [by destruct Hsync|].
          reflexivity.
        + cbn [framebuffers set_current_frame_index]. exact Hlen.
      - assert (Hp : present_result t = VK_SUCCESS).
        { unfold rebuilds_after_present in Hre.
          apply orb_false_iff in Hre as [Hre _]. apply orb_false_iff in Hre as [H1 H2].
          apply VkResult_eqb_neq in H1, H2.
          repeat (apply elem_of_cons in Hpres as [Hpres|Hpres]; [done|]).
          by apply elem_of_nil in Hpres. }
        eexists. split.
        + unfold result_of. by rewrite (after_present_steady B t s Hre Hp Hsync).
        + cbn. exact Hfb. }
    destruct Hrun as (s' & Hrun & Hlen).
    assert (Hres : result_of (draw B t) st = Done success s').
    { unfold result_of.
      rewrite (draw_acquired B t st d sr res q fb f Hready Ha Efb Ef), result_of_prepend.
      fold s. exact Hrun. }
    exists success, s'. split; [done|]. by apply (Hnext success).
  - destruct (rebuilt_reliable n B (window_extent t) (uploaded st d) HB)
      as (Hdef & _ & Hlen).
    assert (Hres : result_of (draw B t) st
                   = Done swapchain_out_of_date
                       (rebuilt B (window_extent t) (uploaded st d)).2).
    { unfold result_of.
      rewrite (draw_out_of_date B t st d sr res q Hready Hood), result_of_prepend.
      by rewrite run_swapchain_reinit. }
    eexists _, _. split; [exact Hres|]. by apply (Hnext swapchain_out_of_date).
Qed.

(** X24.  With a backend that always builds a swapchain of the same
    number of images and answers its image queries, the render loop never
    faults: [initialize], if it returns, returns [true], and every run of
    ticks whose acquires and presents report success, suboptimal or
    out-of-date and whose images are images of the swapchain returns,
    whatever rebuilds it goes through. *)
Theorem render_loop_runs n B D N w b st0 ts :
  reliable_backend n B →
  result_of (initialize B D N w) new_RVPT = Done b st0 →
  0 < N →
  Forall (healthy n) ts →
  b = true
  ∧ ∃ st, result_of (ticks B ts) st0 = Done (verdict <$> ts) st ∧ loop_ready n st.
Proof.
  intros HB Hinit HN Hts. split.
  - destruct (initialize_returns_run B D N w b st0 HN Hinit) as [_ ->].
    unfold swapchain_ok. destruct HB as [Hb Hi Hv].
    destruct (Hb w None) as (sc & -> & Hn).
    destruct (Hi sc Hn) as [imgs ->]. by destruct (Hv sc Hn) as (views & -> & _).
  - pose proof (initialize_loop_ready n B D N w b st0 HB Hinit HN) as Hready.
    clear Hinit. revert st0 Hready.
    induction Hts as [|t ts Ht _ IH]; intros st0 Hready.
    + by exists st0.
    + destruct (draw_runs n B t st0 HB Hready Ht) as (r & st1 & Hdraw & Hready1).
      destruct (IH st1 Hready1) as (st & Hticks & Hready2).
      exists st. split; [|done].
      rewrite result_of_ticks_cons, Hdraw, Hticks.
      destruct Hready as (Hok & _).
      by destruct (draw_done B t st0 r st1 Hok Hdraw) as [-> _].
Qed.

Lemma demo_backend_reliable n : reliable_backend n (demo_backend n).
Proof.
  split.
  - intros w old. by eexists.
  - intros sc _. by eexists.
  - intros sc Hn. eexists. split; [reflexivity|]. by rewrite length_seq.
Qed.

Lemma render_loop_runs_witness :
  ∃ st, result_of (ticks (demo_backend 3)
                     [ok_tick 0; stale_tick; suboptimal_tick 1; ok_tick 2])
          (demo_state 2 3 None)
        = Done [success; swapchain_out_of_date; success; success] st.
Proof.
  destruct (render_loop_runs 3 (demo_backend 3) (demo_device None) 2 window512 true
              (demo_state 2 3 None)
              [ok_tick 0; stale_tick; suboptimal_tick 1; ok_tick 2]
              (demo_backend_reliable 3))
    as (_ & st & Hticks & _).
  - vm_compute. reflexivity.
  - lia.
  - repeat (apply Forall_cons; split;
      [split_and!;
         [ first [left; reflexivity | right; reflexivity]
         | rewrite !elem_of_cons; auto
         | vm_compute; lia ] |]).
    by apply Forall_nil.
  - exists st. exact Hticks.
Defined.

(** * The fence table over a run of ticks *)

(** A tick that returns after a successful acquire found a framebuffer
    and an entry of the fence table for its image. *)
Lemma draw_done_entries B t st d sr res q r st' :
  tick_ready st d sr res q →
  acquired (acquire_result t) = true →
  result_of (draw B t) st = Done r st' →
  is_Some (framebuffers st !! acquire_image_index t)
  ∧ is_Some (frames_inflight_fences st !! acquire_image_index t).
Proof.
  intros Hready Ha Hdone.
  destruct (framebuffers st !! acquire_image_index t) as [fb|] eqn:Hfb.
  2: { apply lookup_ge_None in Hfb. unfold result_of in Hdone.
       rewrite (draw_until_acquire B t st d sr res q Hready) in Hdone.
       rewrite (after_acquire_missing_framebuffer B t sr (uploaded st d) (upload st d))
         in Hdone; [done|exact Ha|apply uploaded_slot, Hready|exact Hfb]. }
  destruct (frames_inflight_fences st !! acquire_image_index t) as [f|] eqn:Hf.
  2: { apply lookup_ge_None in Hf. unfold result_of in Hdone.
       by rewrite (draw_fence_table_overrun B t st d sr res q fb Hready Ha Hfb Hf)
         in Hdone. }
  split; eauto.
Qed.

(** A tick touches one entry of the fence table at most, that of the
    image it acquired. *)
Lemma draw_keeps_entry B t st r st' i :
  renderer_ok st →
  result_of (draw B t) st = Done r st' →
  (acquired (acquire_result t) = true → acquire_image_index t ≠ i) →
  frames_inflight_fences st' !! i = frames_inflight_fences st !! i.
Proof.
  intros Hok Hdone Hother.
  destruct (renderer_ok_ready st Hok) as (d & sr & res & q & Hready).
  destruct (acquired (acquire_result t)) eqn:Ha.
  - destruct (draw_done_entries B t st d sr res q r st' Hready Ha Hdone)
      as [[fb Hfb] [f Hf]].
    rewrite (draw_registers_fence B t st d sr res q fb f r st') by done.
    apply list_lookup_insert_ne. by apply Hother.
  - destruct (VkResult_eqb (acquire_result t) VK_ERROR_OUT_OF_DATE_KHR) eqn:Hood;
      [apply VkResult_eqb_eq in Hood|apply VkResult_eqb_neq in Hood].
    + unfold result_of in Hdone.
      rewrite (draw_out_of_date B t st d sr res q Hready Hood),
        result_of_prepend in Hdone.
      assert (Hp : preserves frames_inflight_fences
        (swapchain_reinit B (window_extent t);; mret swapchain_out_of_date)).
      { preserves_tac. by apply preserves_swapchain_reinit. }
      by rewrite (Hp _ _ _ Hdone).
    + unfold result_of in Hdone.
      rewrite (draw_until_acquire B t st d sr res q Hready), result_of_prepend in Hdone.
      by rewrite (after_acquire_error B t sr _ Ha Hood) in Hdone.
Qed.

(** A tick that acquires an image waits on the fence registered for it. *)
Lemma draw_waits_entry B t st r st' F :
  renderer_ok st →
  result_of (draw B t) st = Done r st' →
  acquired (acquire_result t) = true →
  frames_inflight_fences st !! acquire_image_index t = Some F →
  F ≠ VK_NULL_HANDLE →
  EvWaitForFences F ∈ trace_of (draw B t) st.
Proof.
  intros Hok Hdone Ha HF Hnull.
  destruct (renderer_ok_ready st Hok) as (d & sr & res & q & Hready).
  destruct (draw_done_entries B t st d sr res q r st' Hready Ha Hdone)
    as [[fb Hfb] _].
  unfold trace_of.
  rewrite (draw_acquired B t st d sr res q fb F Hready Ha Hfb HF), trace_of_prepend.
  unfold guard_events. apply Nat.eqb_neq in Hnull. rewrite Hnull.
  rewrite !elem_of_app. left. right. right. right. left.
  by apply list_elem_of_singleton.
Qed.


(** Over a run of ticks none of which acquires image [i], entry [i] of
    the fence table stays. *)
Lemma ticks_keep_entry B i ts : ∀ st rs st',
  renderer_ok st →
  result_of (ticks B ts) st = Done rs st' →
  Forall (λ t, acquired (acquire_result t) = true → acquire_image_index t ≠ i) ts →
  frames_inflight_fences st' !! i = frames_inflight_fences st !! i.
Proof.
  induction ts as [|t ts IH]; intros st rs st' Hok.
  - by intros [= _ <-].
  - rewrite result_of_ticks_cons. intros Hdone Hall.
    apply Forall_cons in Hall as [Ht Hall].
    destruct (result_of (draw B t) st) as [r s1|] eqn:Hdraw; [|done].
    destruct (draw_maintains B t st r s1 Hok Hdraw) as [Hok1 _].
    destruct (result_of (ticks B ts) s1) as [rs1 s2|] eqn:Hrest; [|done].
    injection Hdone as _ <-.
    rewrite (IH s1 rs1 s2 Hok1 Hrest Hall).
    by apply (draw_keeps_entry B t st r s1).
Qed.

(** Over any run of ticks, the fence registered for image [i] is waited
    on, by the first tick that acquires [i] again, or is still
    registered at the end. *)
Lemma ticks_wait_or_keep B i F ts : ∀ st rs st',
  renderer_ok st →
  result_of (ticks B ts) st = Done rs st' →
  frames_inflight_fences st !! i = Some F →
  F ≠ VK_NULL_HANDLE →
  EvWaitForFences F ∈ trace_of (ticks B ts) st
  ∨ frames_inflight_fences st' !! i = Some F.
Proof.
  induction ts as [|t ts IH]; intros st rs st' Hok.
  - intros [= _ <-] HF _. by right.
  - rewrite result_of_ticks_cons, trace_of_ticks_cons. intros Hdone HF Hnull.
    destruct (result_of (draw B t) st) as [r s1|] eqn:Hdraw; [|done].
    destruct (draw_maintains B t st r s1 Hok Hdraw) as [Hok1 _].
    destruct (result_of (ticks B ts) s1) as [rs1 s2|] eqn:Hrest; [|done].
    injection Hdone as _ <-.
    destruct (acquired (acquire_result t)) eqn:Ha.
    + destruct (decide (acquire_image_index t = i)) as [Hi|Hi].
      * left. apply elem_of_app. left. subst i.
        by apply (draw_waits_entry B t st r s1 F).
      * assert (H1 : frames_inflight_fences s1 !! i = Some F).
        { rewrite <- HF. by apply (draw_keeps_entry B t st r s1). }
        destruct (IH s1 rs1 s2 Hok1 Hrest H1 Hnull) as [Hin|Hkeep]; [|by right].
        left. apply elem_of_app. by right.
    + assert (H1 : frames_inflight_fences s1 !! i = Some F).
      { rewrite <- HF. apply (draw_keeps_entry B t st r s1); [done..|].
        by rewrite Ha. }
      destruct (IH s1 rs1 s2 Hok1 Hrest H1 Hnull) as [Hin|Hkeep]; [|by right].
      left. apply elem_of_app. by right.
Qed.

Lemma preserves_ticks_fence_table_length B ts :
  preserves (λ st, length (frames_inflight_fences st)) (ticks B ts).
Proof. apply preserves_ticks. intros t. apply preserves_draw_fence_table_length. Qed.

(** * The output images and the dispatch *)





(** * The first object of a slot *)

(** Without a graphics queue [add_per_frame_data] stops at the
    [*graphics_queue] of line 410, before it has made anything. *)
Lemma add_per_frame_data_without_graphics_queue st :
  graphics_queue st = None →
  add_per_frame_data st = ([], Failed Undefined).
Proof.
  intros Hg. unfold add_per_frame_data.
  rewrite run_gets, Hg. unfold deref. by rewrite run_fault.
Qed.


(** * The claims *)

(** ** C1: frame fencing *)

(** The monitor tells a fenced trace from an unfenced one: with fence 23
    of slot 0 pending, an upload into the slot's camera buffer (handle 18)
    is refused, and accepted once the host has waited on the fence. *)
Example fenced_needs_the_wait :
  let G := fence_guards (demo_state 2 3 None) in
  fenced G [23] [EvCopyTo 18 NoData] = false
  ∧ fenced G [23] [EvFenceWait 23; EvFenceReset 23; EvCopyTo 18 NoData] = true
  ∧ fenced G [] [EvQueueSubmit {| queue_family := 0 |} 22 23;
                 EvCmd 22 CmdBegin] = false.
Proof. vm_compute. done. Qed.

(** C1.  A fence is pending from the submission that will signal it
    until the host has waited on it.  From the renderer that [initialize]
    leaves, with at least one frame in flight, and more generally from
    any renderer whose slots do not share their buffers and command
    buffers: over any number of ticks, and whatever fences are pending at
    the start, no buffer of a slot is overwritten and no compute command
    buffer of a slot is re-recorded while the slot's [raytrace_work_fence]
    is pending.  Within a tick [draw] first waits on the fence of the
    current slot and resets it, then uploads into the slot's four
    buffers, records the compute command buffer and submits it with that
    fence. *)
Theorem frame_fencing B :
  (∀ D N w b st ts pending,
     result_of (initialize B D N w) new_RVPT = Done b st →
     0 < N →
     fenced (fence_guards st) pending (trace_of (ticks B ts) st) = true)
  ∧ (∀ st ts pending,
       renderer_ok st →
       slots_separate (fence_guards st) = true →
       graphics_separate st = true →
       fenced (fence_guards st) pending (trace_of (ticks B ts) st) = true)
  ∧ (∀ st t d sr res q,
       tick_ready st d sr res q →
       ∃ rest,
         trace_of (draw B t) st =
           [ EvFenceWait (raytrace_work_fence d);
             EvFenceReset (raytrace_work_fence d);
             EvCopyTo (buffer_handle (camera_uniform d)) (scene_camera st);
             EvCopyTo (buffer_handle (random_uniform d)) (Words (random_numbers st));
             EvCopyTo (buffer_handle (settings_uniform d)) (render_settings st);
             EvCopyTo (buffer_handle (sphere_buffer d)) (SphereList (spheres st)) ]
           ++ compute_commands res d
           ++ [ EvQueueSubmit q (cb_handle (raytrace_command_buffer d))
                  (raytrace_work_fence d) ]
           ++ rest).
Proof.
  split_and!.
  - intros D N w b st ts pending Hinit HN.
    destruct (initialize_renderer_ok B D N w b st Hinit HN) as (Hok & Hsep & Hgsep).
    by apply ticks_fenced.
  - intros st ts pending Hok Hsep Hgsep. by apply ticks_fenced.
  - intros st t d sr res q Hready.
    destruct (draw_trace B t st d sr res q Hready) as (rest & -> & _).
    exists (acquire_events st sr ++ rest).
    unfold raytrace_events. by rewrite <- !app_assoc.
Qed.

Lemma frame_fencing_witness :
  fenced (fence_guards (demo_state 2 3 None)) [23; 32]
    (trace_of (ticks (demo_backend 3) [ok_tick 0; ok_tick 1; stale_tick; ok_tick 0])
       (demo_state 2 3 None)) = true.
Proof.
  refine (proj1 (frame_fencing (demo_backend 3)) (demo_device None) 2 window512 true
            (demo_state 2 3 None) _ _ _ _).
  - vm_compute; reflexivity.
  - lia.
Defined.

(** ** C2: the guard on a swapchain image that is used again *)

(** Two ticks in a row acquire image 0.  The first registers fence 3 for
    the image.  The second records its graphics command buffer (handle 8)
    from place 15 of its trace on, and its first wait on fence 3 is at
    place 26: the recording is not held back by the guard.  The graphics
    submission, at place 28, is. *)
Lemma graphics_recorded_before_guard :
  frames_inflight_fences after_first_tick !! 0 = Some 3
  ∧ let tr := trace_of (draw (demo_backend 3) (ok_tick 0)) after_first_tick in
    position (records_into 8) tr = Some 15
    ∧ position (waits_on 3) tr = Some 26
    ∧ position (λ e, if e is EvSyncSubmit _ then true else false) tr = Some 28.
Proof. vm_compute. done. Qed.

(** C2, as the code has it.  Take any two ticks of a run that acquire
    the same swapchain image, the first having registered its command
    fence for the image, whatever the ticks between them do.  The second
    records its graphics pass first, then waits on the fence it finds
    registered for the image, and only then resets its own fence, submits
    the graphics command buffer and presents: the guard holds back the
    submission, not the recording.  By that submission the fence the
    first tick registered has been waited on, by a tick in between or by
    the guard of the second tick; when no tick in between acquired the
    image, the second tick finds that very fence in the table. *)
Theorem image_guard_before_submit
    B t1 mid t2 st r1 st1 rs st2 sr1 d2 sr2 res2 q2 fb2 :
  renderer_ok st →
  sync_resources st !! current_frame_index st = Some sr1 →
  command_fence sr1 ≠ VK_NULL_HANDLE →
  acquired (acquire_result t1) = true →
  result_of (draw B t1) st = Done r1 st1 →
  result_of (ticks B mid) st1 = Done rs st2 →
  tick_ready st2 d2 sr2 res2 q2 →
  acquired (acquire_result t2) = true →
  acquire_image_index t2 = acquire_image_index t1 →
  framebuffers st2 !! acquire_image_index t2 = Some fb2 →
  frames_inflight_fences st1 !! acquire_image_index t1 = Some (command_fence sr1)
  ∧ ∃ f2 rest,
      frames_inflight_fences st2 !! acquire_image_index t2 = Some f2
      ∧ trace_of (draw B t2) st2 =
          (raytrace_events st2 d2 res2 q2 ++ acquire_events st2 sr2
           ++ graphics_commands st2 d2 sr2 res2 fb2)
          ++ guard_events f2
          ++ submit_events sr2 (acquire_image_index t2) ++ rest
      ∧ Forall swapchain_event rest
      ∧ EvWaitForFences (command_fence sr1)
          ∈ trace_of (ticks B mid) st1 ++ guard_events f2
      ∧ (Forall (λ t, acquired (acquire_result t) = true →
                      acquire_image_index t ≠ acquire_image_index t1) mid →
         f2 = command_fence sr1).
Proof.
  intros Hok Hsr Hnull Ha1 Hdone1 Hmid Hready2 Ha2 Hidx Hfb2.
  destruct (renderer_ok_ready st Hok) as (d1 & sr & res1 & q1 & Hready1).
  assert (sr = sr1) as ->.
  { destruct Hready1 as [_ Hs _ _]. rewrite Hsr in Hs. by injection Hs. }
  destruct (draw_done_entries B t1 st d1 sr1 res1 q1 r1 st1 Hready1 Ha1 Hdone1)
    as [[fb1 Hfb1] [f1 Hf1]].
  assert (Hreg : frames_inflight_fences st1 !! acquire_image_index t1
                 = Some (command_fence sr1)).
  { rewrite (draw_registers_fence B t1 st d1 sr1 res1 q1 fb1 f1 r1 st1) by done.
    apply list_lookup_insert_eq. by eapply lookup_lt_Some. }
  destruct (draw_maintains B t1 st r1 st1 Hok Hdone1) as [Hok1 _].
  split; [exact Hreg|].
  destruct (lookup_lt_is_Some_2 (frames_inflight_fences st2) (acquire_image_index t2))
    as [f2 Hf2].
  { rewrite (preserves_ticks_fence_table_length B mid st1 rs st2 Hmid), Hidx.
    by eapply lookup_lt_Some. }
  exists f2, (after_present B t2 (registered st2 d2 sr2 (acquire_image_index t2))).1.
  split_and!.
  - exact Hf2.
  - unfold trace_of.
    rewrite (draw_acquired B t2 st2 d2 sr2 res2 q2 fb2 f2 Hready2 Ha2 Hfb2 Hf2).
    unfold prepend. cbn [fst]. by rewrite <- !app_assoc.
  - apply after_present_swapchain_events.
  - apply elem_of_app.
    destruct (ticks_wait_or_keep B (acquire_image_index t1) (command_fence sr1)
                mid st1 rs st2 Hok1 Hmid Hreg Hnull) as [Hin|Hkeep]; [by left|right].
    rewrite Hidx, Hkeep in Hf2. injection Hf2 as <-.
    unfold guard_events. apply Nat.eqb_neq in Hnull. rewrite Hnull.
    by apply list_elem_of_singleton.
  - intros Hall.
    rewrite Hidx, (ticks_keep_entry B _ mid st1 rs st2 Hok1 Hmid Hall), Hreg in Hf2.
    by injection Hf2.
Qed.

Lemma image_guard_before_submit_witness :
  ∃ f2, frames_inflight_fences after_two_ticks !! 0 = Some f2
        ∧ EvWaitForFences 3
            ∈ trace_of (ticks (demo_backend 3) [ok_tick 1]) after_first_tick
              ++ guard_events f2.
Proof.
  edestruct (image_guard_before_submit (demo_backend 3) (ok_tick 0) [ok_tick 1]
               (ok_tick 0) (demo_state 2 3 None) success after_first_tick
               [success] after_two_ticks)
    as (_ & f2 & rest & Hf2 & _ & _ & Hin & _);
    [ split; vm_compute; [reflexivity | lia | eexists; reflexivity
                         | eexists; reflexivity]
    | vm_compute; reflexivity
    | vm_compute; lia
    | reflexivity
    | vm_compute; reflexivity
    | vm_compute; reflexivity
    | split; vm_compute; reflexivity
    | reflexivity
    | reflexivity
    | vm_compute; reflexivity
    | exists f2; split; [exact Hf2 | exact Hin] ].
Defined.

(** ** C3: an acquire that reports out-of-date *)

(** C3.  When the acquire reports [VK_ERROR_OUT_OF_DATE_KHR], [draw] does
    the compute part of the tick and the acquire, invokes the swapchain
    rebuild and returns [swapchain_out_of_date]: its trace ends with the
    calls of the rebuild and holds no step of the graphics pass (no
    recording, no wait on the image's fence, no graphics submission, no
    present); the cursor [current_frame_index] and the fence table
    [frames_inflight_fences] are as before. *)
Theorem draw_stale_acquire B t st d sr res q :
  tick_ready st d sr res q →
  acquire_result t = VK_ERROR_OUT_OF_DATE_KHR →
  rebuild_defined B (window_extent t) st →
  ∃ st',
    draw B t st =
      (raytrace_events st d res q ++ acquire_events st sr
       ++ rebuild_events B (window_extent t) st,
       Done swapchain_out_of_date st')
    ∧ forallb (λ e, negb (graphics_step e)) (trace_of (draw B t) st) = true
    ∧ count is_build (trace_of (draw B t) st) = 1
    ∧ current_frame_index st' = current_frame_index st
    ∧ frames_inflight_fences st' = frames_inflight_fences st
    ∧ sync_resources st' = sync_resources st.
Proof.
  intros Hready Ha Hdef.
  pose proof (draw_out_of_date B t st d sr res q Hready Ha) as Hdraw.
  rewrite run_swapchain_reinit in Hdraw by exact Hdef.
  rewrite prepend_prepend in Hdraw. unfold prepend, mret, M_ret in Hdraw.
  cbn [fst snd] in Hdraw. rewrite app_nil_r, <- app_assoc in Hdraw.
  change (rebuild_events B (window_extent t) (uploaded st d))
    with (rebuild_events B (window_extent t) st) in Hdraw.
  exists (rebuilt B (window_extent t) (uploaded st d)).2.
  pose proof (rebuilt_frame_pool B (window_extent t) (uploaded st d)) as Hpool.
  unfold frame_pool in Hpool. injection Hpool as _ Hsr Hcur Hfen.
  unfold trace_of. rewrite Hdraw. cbn [fst].
  split_and!; try done.
  - apply forallb_app_true; [reflexivity|].
    apply forallb_app_true; [reflexivity|].
    apply rebuild_events_no_graphics.
  - rewrite !count_app. unfold rebuild_events, count. cbn. by repeat case_match.
Qed.

Lemma draw_stale_acquire_witness :
  ∃ st', result_of (draw (demo_backend 3) stale_tick) (demo_state 2 3 None)
         = Done swapchain_out_of_date st'
         ∧ current_frame_index st' = 0.
Proof.
  edestruct (draw_stale_acquire (demo_backend 3) stale_tick (demo_state 2 3 None))
    as (st' & Hdraw & _ & _ & Hcur & _).
  - split; vm_compute; reflexivity.
  - reflexivity.
  - vm_compute. lia.
  - exists st'. unfold result_of. rewrite Hdraw. split; [reflexivity | exact Hcur].
Defined.

(** ** C4: a window of zero extent *)




(** ** C5: the size of the compute dispatch *)



(** ** C6: the queue of the compute work *)

(** C6.  The compute work of a tick is submitted to the dedicated compute
    queue when [compute_queue] holds one and to the graphics queue
    otherwise, and that is the only queue submission of compute work in
    the tick; [add_per_frame_data] allocates the slot's compute command
    buffer from the same queue, given the graphics queue that its output
    image is made with in either case, and is undefined without one;
    [context_init] fills [compute_queue] exactly when the device has a
    dedicated compute queue.  The choice does not show in the rest of the
    tick: with another compute queue the calls after the submission are
    the same. *)
Theorem compute_queue_routing B t st d sr res q :
  tick_ready st d sr res q →
  match compute_queue st with
  | Some c => q = c
  | None => graphics_queue st = Some q
  end
  ∧ List.filter is_queue_submit (trace_of (draw B t) st)
    = [EvQueueSubmit q (cb_handle (raytrace_command_buffer d)) (raytrace_work_fence d)]
  ∧ match graphics_queue st with
    | Some _ =>
        ∃ st' d', result_of add_per_frame_data st = Done tt st'
          ∧ per_frame_data st' = per_frame_data st ++ [d']
          ∧ cb_queue (raytrace_command_buffer d') = q
    | None => result_of add_per_frame_data st = Failed Undefined
    end
  ∧ (∀ D st0 st1, result_of (context_init D) st0 = Done true st1 →
       compute_queue st1 =
         match dedicated_compute_index D with
         | Some ci => Some {| queue_family := ci |}
         | None => compute_queue st0
         end)
  ∧ (∃ rest,
       trace_of (draw B t) st
         = raytrace_events st d res q ++ acquire_events st sr ++ rest
       ∧ ∀ c, trace_of (draw B t) (set_compute_queue (Some c) st)
              = raytrace_events st d res c ++ acquire_events st sr ++ rest).
Proof.
  intros Hready. split_and!.
  - pose proof (ready_queue _ _ _ _ _ Hready) as Hq.
    unfold compute_submit_queue in Hq.
    destruct (compute_queue st); [by injection Hq | done].
  - destruct (draw_trace B t st d sr res q Hready) as (rest & -> & Hrest).
    rewrite !List.filter_app.
    rewrite (filter_none is_queue_submit (present_side sr) rest); [done| |done].
    by intros [| | | |? []| | | | | | | | |].
  - destruct (graphics_queue st) as [g|] eqn:Hg.
    2: { unfold result_of.
         by rewrite (add_per_frame_data_without_graphics_queue st Hg). }
    pose proof (run_add_per_frame_data g q res (λ _, mret tt) st Hg
                  (ready_queue _ _ _ _ _ Hready) (ready_resources _ _ _ _ _ Hready))
      as Hrun.
    exists (with_new_slot q st), (new_slot (next_handle st) q (length (spheres st))).
    unfold result_of. split_and!; [|done|done].
    transitivity ((add_per_frame_data ≫= λ _, mret ()) st).2.
    + rewrite run_bind. destruct (add_per_frame_data st) as [tr [[] st'|f]]; done.
    + by rewrite Hrun.
  - intros D st0 st1 H. by apply context_init_compute_queue.
  - exists (after_acquire B t sr (uploaded st d)).1. split.
    + unfold trace_of. rewrite (draw_until_acquire B t st d sr res q Hready).
      unfold prepend. cbn [fst]. by rewrite <- app_assoc.
    + intros c. unfold trace_of.
      rewrite (draw_until_acquire B t _ d sr res c
                 (tick_ready_set_compute_queue st d sr res q c Hready)).
      change (uploaded (set_compute_queue (Some c) st) d)
        with (set_compute_queue (Some c) (uploaded st d)).
      rewrite icq_after_acquire.
      unfold prepend. cbn [fst]. by rewrite <- app_assoc.
Qed.

Lemma compute_queue_routing_witness :
  List.filter is_queue_submit
    (trace_of (draw (demo_backend 3) (ok_tick 0)) (demo_state 2 3 (Some 1)))
  = [EvQueueSubmit {| queue_family := 1 |} 22 23]
  ∧ List.filter is_queue_submit
    (trace_of (draw (demo_backend 3) (ok_tick 0)) (demo_state 2 3 None))
  = [EvQueueSubmit {| queue_family := 0 |} 22 23].
Proof.
  split.
  - edestruct (compute_queue_routing (demo_backend 3) (ok_tick 0)
                 (demo_state 2 3 (Some 1))) as (_ & H & _).
    + split; vm_compute; reflexivity.
    + exact H.
  - edestruct (compute_queue_routing (demo_backend 3) (ok_tick 0)
                 (demo_state 2 3 None)) as (_ & H & _).
    + split; vm_compute; reflexivity.
    + exact H.
Defined.

(** ** C7: what a swapchain rebuild leaves alone *)

(** C7.  A swapchain rebuild only calls the backend to destroy the
    framebuffers, the image views and the old swapchain and to build the
    new one, and when it finishes the frame pool ([per_frame_data],
    [sync_resources], [current_frame_index], [frames_inflight_fences])
    and every other field outside the swapchain are as before.  It can
    only fail to finish when [create_framebuffers] lacks a view for an
    image of the new swapchain. *)
Theorem swapchain_reinit_frame B w st :
  Forall swapchain_event (trace_of (swapchain_reinit B w) st)
  ∧ match result_of (swapchain_reinit B w) st with
    | Done _ st' =>
        frame_pool st' = frame_pool st
        ∧ outside_swapchain_state st' = outside_swapchain_state st
    | Failed _ => ¬ rebuild_defined B w st
    end.
Proof.
  split; [apply swapchain_reinit_events|].
  unfold result_of.
  destruct (swapchain_reinit B w st) as [tr [b st'|f]] eqn:E; cbn [snd].
  - assert (H : outside_swapchain_state st' = outside_swapchain_state st).
    { eapply (preserves_swapchain_reinit _ B w outside_swapchain_state_ok st b st').
      by rewrite E. }
    split; [|done]. unfold outside_swapchain_state in H. congruence.
  - intros Hdef.
    pose proof (run_swapchain_reinit B w (λ b, mret b) st Hdef) as Hrun.
    rewrite run_bind, E in Hrun. cbn [snd] in Hrun.
    unfold prepend in Hrun. by simplify_eq.
Qed.

(** ** C8: two rebuilds in a row *)

(** C8.  With a backend whose answers depend on the window only, as far
    as the shape goes, and an unchanged window extent, a second rebuild
    right after a first one finishes, returns the same flag and leaves a
    swapchain state of the same shape: same extent, format and image
    count, as many images and views, and framebuffers of the same render
    pass, extent and attachment count. *)
Theorem rebuild_idempotent B w st :
  regular_backend B →
  rebuild_defined B w st →
  ∃ b1 st1 b2 st2,
    result_of (swapchain_reinit B w) st = Done b1 st1
    ∧ result_of (swapchain_reinit B w) st1 = Done b2 st2
    ∧ result_of (swapchain_reinit B w;; swapchain_reinit B w) st = Done b2 st2
    ∧ swapchain_shape st2 = swapchain_shape st1
    ∧ b2 = b1.
Proof.
  intros Hreg Hdef.
  destruct (rebuilt_twice B w st Hreg Hdef) as (Hdef1 & Hshape & Hflag).
  exists (rebuilt B w st).1, (rebuilt B w st).2,
         (rebuilt B w (rebuilt B w st).2).1, (rebuilt B w (rebuilt B w st).2).2.
  split_and!; try done.
  - by apply result_of_swapchain_reinit.
  - by apply result_of_swapchain_reinit.
  - unfold result_of. rewrite (run_swapchain_reinit B w _ st Hdef).
    unfold prepend. cbn [snd].
    by apply result_of_swapchain_reinit.
Qed.

Lemma rebuild_idempotent_witness :
  ∃ st1 st2,
    result_of (swapchain_reinit (demo_backend 3) window512) (demo_state 2 3 None)
      = Done true st1
    ∧ result_of (swapchain_reinit (demo_backend 3) window512) st1 = Done true st2
    ∧ swapchain_shape st2 = swapchain_shape st1.
Proof.
  pose proof (rebuild_idempotent (demo_backend 3) window512 (demo_state 2 3 None)
    (demo_backend_regular 3) demo_rebuild_defined) as H.
  destruct H as (b1 & st1 & b2 & st2 & H1 & H2 & _ & Hshape & Hflag).
  exists st1, st2.
  assert (Hb1 : b1 = true).
  { rewrite (result_of_swapchain_reinit _ _ _ demo_rebuild_defined) in H1.
    apply Done_inj in H1 as [Hb _]. rewrite <- Hb. vm_compute. reflexivity. }
  subst b2 b1. split_and!; assumption.
Defined.

(** The second rebuild leaves another swapchain handle than the first:
    the two states have the same shape, not the same handles. *)
Example rebuild_twice_handles :
  let once := state_after (swapchain_reinit (demo_backend 3) window512)
                (demo_state 2 3 None) in
  let twice := state_after (swapchain_reinit (demo_backend 3) window512) once in
  swapchain (vkb_swapchain once) = 2001
  ∧ swapchain (vkb_swapchain twice) = 3002
  ∧ swapchain_shape twice = swapchain_shape once.
Proof. vm_compute. done. Qed.

(** ** C9: descriptor bindings *)

(** C9.  Run with the graphics queue, a queue for the compute work and
    the pipelines in place, as [initialize] runs it, [add_per_frame_data]
    writes the bindings of the new slot, each binding once: binding 0 of
    the sampling set is the slot's output image, bindings 0 to 4 of the
    compute set are the output image, the camera, random and settings
    buffers and the sphere buffer.  No number of ticks makes another
    descriptor update, changes what the device has bound, or changes
    which image, buffers and sets a slot holds. *)
Theorem descriptor_bindings_stable :
  (∀ st g q res,
     graphics_queue st = Some g →
     compute_submit_queue st = Some q →
     rendering_resources st = Some res →
     let d := new_slot (next_handle st) q (length (spheres st)) in
     add_per_frame_data st
       = ([ EvUpdateDescriptorSets (sampling_writes d);
            EvUpdateDescriptorSets (compute_writes d) ],
          Done tt (with_new_slot q st))
     ∧ per_frame_data (with_new_slot q st) = per_frame_data st ++ [d]
     ∧ descriptor_table (with_new_slot q st)
       = rev (compute_writes d) ++ rev (sampling_writes d) ++ descriptor_table st
     ∧ NoDup (binding_key <$> (sampling_writes d ++ compute_writes d))
     ∧ (∀ w, w ∈ sampling_writes d ++ compute_writes d →
          bound_at (descriptor_table (with_new_slot q st)) (dst_set w) (dst_binding w)
          = Some (bound_object w)))
  ∧ (∀ B ts st,
       count is_descriptor_update (trace_of (ticks B ts) st) = 0
       ∧ match result_of (ticks B ts) st with
         | Done _ st' =>
             descriptor_table st' = descriptor_table st
             ∧ bound_objects st' = bound_objects st
         | Failed _ => True
         end).
Proof.
  split.
  - intros st g q res Hg Hq Hr d.
    pose proof (run_add_per_frame_data g q res mret st Hg Hq Hr) as Hrun.
    rewrite run_bind_ret in Hrun. unfold prepend, mret, M_ret in Hrun.
    cbn [fst snd] in Hrun. rewrite app_nil_r in Hrun.
    split_and!; [exact Hrun|done|done| |].
    + unfold binding_key. cbn.
      repeat (apply NoDup_cons; split;
        [ intros H;
          repeat (apply elem_of_cons in H as [H|H]; [inversion H; lia|]);
          by apply elem_of_nil in H |]).
      apply NoDup_nil_2.
    + intros w Hw. unfold bound_at, with_new_slot.
      cbn [descriptor_table set_per_frame_data set_descriptor_table].
      cbn in Hw.
      assert (H78 : Nat.eqb (next_handle st + 7) (next_handle st + 8) = false)
        by (apply Nat.eqb_neq; lia).
      assert (H87 : Nat.eqb (next_handle st + 8) (next_handle st + 7) = false)
        by (apply Nat.eqb_neq; lia).
      repeat (apply elem_of_cons in Hw as [->|Hw];
              [cbn; rewrite ?Nat.eqb_refl, ?H78, ?H87; reflexivity|]).
      by apply elem_of_nil in Hw.
  - intros B ts st. split.
    + apply (count_none is_descriptor_update not_descriptor_update); [done|].
      apply emits_only_ticks. apply draw_no_descriptor_update.
    + destruct (result_of (ticks B ts) st) as [rs st'|f] eqn:E; [|done].
      pose proof (preserves_ticks bindings B ts (preserves_draw_bindings B) st rs st' E)
        as H.
      unfold bindings in H. by injection H.
Qed.

Lemma descriptor_bindings_stable_witness :
  result_of add_per_frame_data (demo_state 0 3 None)
  = Done tt (with_new_slot {| queue_family := 0 |} (demo_state 0 3 None)).
Proof.
  edestruct (proj1 descriptor_bindings_stable (demo_state 0 3 None)) as (H & _).
  - vm_compute; reflexivity.
  - vm_compute; reflexivity.
  - vm_compute; reflexivity.
  - unfold result_of. by rewrite H.
Defined.

(** ** C10: the size of the per-image fence table *)

(** The swapchain is rebuilt with three images after a tick on image 1:
    the table keeps its two entries, the fence registered for the old
    image 1 among them, and a tick that acquires image 2 indexes past its
    end. *)
Example fence_table_after_growth :
  image_count (vkb_swapchain grown_state) = 3
  ∧ length (framebuffers grown_state) = 3
  ∧ frames_inflight_fences grown_state = [0; 3]
  ∧ result_of (draw growing_backend (ok_tick 2)) grown_state = Failed Undefined.
Proof. vm_compute. done. Qed.


